(** * Verifiable Completion Contracts (VCC): integrity pass, universal
      validators and the run-until-correct loop

    A shallow embedding of [spec-integrity-and-universal-validators.ts]
    and of the "Run Until Correct" loop of the README, with the properties
    the specification states about them.

    - Contract model, run context, errors and results.
    - 1) The integrity pass [specIntegrityPass] on contracts as values.
    - 2) The default universal validators, over a [Runtime].
    - 3) The registry builder.
    - The loop of the README.
    - [Module Refs]: the integrity pass on contracts as objects of a heap.
    - Sample data, then the properties.

    Conventions of the embedding.
    - A JavaScript [number] is carried as the rational value ([Q]) of
      its double, so comparisons are exact; a quotient is rounded as the
      IEEE 754 binary64 division rounds it ([divide]); NaN and the
      infinities are outside the model.
    - A [string] is a Rocq [string]; the regular-expression engine of the
      runtime is a parameter of the validators that use it.
    - A [Set<string>] is the list of its members in insertion order.
    - An object literal used as a map is the list of its own properties
      in the order of [Object.keys]; an assignment to it and a read from
      it see the members inherited from [Object.prototype] as JavaScript
      does ([setKey], [signalMissing]).
    - An async function that rejects (a [throw]) returns [None] or an
      explicit error constructor.
    - [rule : Record<string, unknown>] is the record of the properties the
      module reads, each at the type the module casts it to. *)

From Stdlib Require Import String Ascii List Bool Arith ZArith QArith Qminmax Qround Qpower Lia Lqa.
From Stdlib Require Import DecimalString.
From Stdlib Require SpecFloat.
Import ListNotations.

Local Open Scope string_scope.
Local Open Scope list_scope.

(** Template-literal concatenation. *)
Notation "a +++ b" := (String.append a b) (at level 60, right associativity).

(** [`${i}`] for an array index. *)
Definition showNat (n : nat) : string := NilEmpty.string_of_uint (Nat.to_uint n).

(** [`${i}`] for the result of [findIndex] ([-1] when nothing is found). *)
Definition showIndex (o : option nat) : string :=
  match o with
  | Some n => showNat n
  | None => "-1"
  end.

(** [xs.join(sep)]. *)
Fixpoint join (sep : string) (xs : list string) : string :=
  match xs with
  | [] => ""
  | [x] => x
  | x :: rest => x +++ sep +++ join sep rest
  end.

(** Truthiness of a string: only [""] is falsy. *)
Definition truthy (s : string) : bool := negb (String.eqb s "").

(** ** [Set<string>] *)

Definition StrSet := list string.

Definition has (s : StrSet) (x : string) : bool := existsb (String.eqb x) s.

Definition add (s : StrSet) (x : string) : StrSet :=
  if has s x then s else s ++ [x].

Definition newSet (xs : list string) : StrSet := fold_left add xs [].

(** [xs.findIndex(p)]. *)
Fixpoint findIndexFrom {A} (p : A -> bool) (i : nat) (xs : list A) : option nat :=
  match xs with
  | [] => None
  | x :: rest => if p x then Some i else findIndexFrom p (S i) rest
  end.

Definition findIndex {A} (p : A -> bool) (xs : list A) : option nat :=
  findIndexFrom p 0 xs.

(** ** Numbers

    The [/] of two numbers is the binary64 division of the Standard
    Library's specification of IEEE 754 ([SpecFloat]), rounding to nearest,
    ties to even.  [divide] is used on integers (counts, and the numerator
    and denominator of a decimal literal such as [0.6]), which a double
    carries exactly below [2^53]. *)

Definition binary64 := SpecFloat.spec_float.

(** The double of an integer. *)
Definition ofZ (z : Z) : binary64 := SpecFloat.binary_normalize 53 1024 z 0 false.

(** The rational value of a finite double; a quotient of two counts, the
    divisor at least 1, is never an infinity or NaN. *)
Definition valueOf (f : binary64) : Q :=
  match f with
  | SpecFloat.S754_finite s m e =>
    inject_Z (if s then Z.neg m else Z.pos m) * Qpower 2 e
  | _ => 0
  end.

(** [x / y] on two integers held as doubles. *)
Definition divide (x y : Z) : Q :=
  valueOf (SpecFloat.SFdiv 53 1024 (ofZ x) (ofZ y)).

(** * Contract model *)

Definition ArtifactId := string.
Definition RoleRef := string.

Inductive Severity := must | should | may.

Inductive EvidenceType := EvAuto | EvAiJudged | EvHuman | EvHybrid.

Inductive CriterionType :=
  | schema | structure | traceability | consistency | rubric
  | constraint | execution | security | provenance | custom.

Definition Severity_eqb (a b : Severity) : bool :=
  match a, b with
  | must, must | should, should | may, may => true
  | _, _ => false
  end.

Definition CriterionType_eqb (a b : CriterionType) : bool :=
  match a, b with
  | schema, schema | structure, structure | traceability, traceability
  | consistency, consistency | rubric, rubric | constraint, constraint
  | execution, execution | security, security | provenance, provenance
  | custom, custom => true
  | _, _ => false
  end.

Definition showType (t : CriterionType) : string :=
  match t with
  | schema => "schema" | structure => "structure"
  | traceability => "traceability" | consistency => "consistency"
  | rubric => "rubric" | constraint => "constraint"
  | execution => "execution" | security => "security"
  | provenance => "provenance" | custom => "custom"
  end.

Record Format := { mediaType : string; uri : string }.

(** [dependsOn] is [None] when the property is absent or not an array (the
    integrity pass repairs it); [description], [qualityLevel] and
    [metadata] are never read and are left out. *)
Record ArtifactSpec := {
  artifactId : ArtifactId;
  kind : string;
  subtype : option string;
  formats : list Format;
  required : bool;
  dependsOn : option (list ArtifactId);
  owners : list RoleRef
}.

(** The properties of [rule] the module reads. *)
Record Rule := {
  rubricRef : option string;
  adapter : option string;
  requiredSections : option (list string);
  minCitationCoverage : option Q;
  citationPattern : option string;
  require : option (list string);
  jsonSchema : option string;
  rulePassThreshold : option Q;
  ruleDescription : option string
}.

Definition emptyRule : Rule :=
  {| rubricRef := None; adapter := None; requiredSections := None;
     minCitationCoverage := None; citationPattern := None; require := None;
     jsonSchema := None; rulePassThreshold := None; ruleDescription := None |}.

Record EvidenceReq := {
  evRequired : bool;
  evidenceType : EvidenceType;
  producedArtifact : option ArtifactId
}.

Record AcceptanceCriterionSpec := {
  acId : string;
  targetArtifacts : list ArtifactId;
  type : CriterionType;
  severity : Severity;
  rule : Rule;
  evidence : EvidenceReq
}.

(** [text] is not declared by the interface [RubricSpec]; the rubric
    validator reads it all the same, so the model carries it as an
    optional extra property. *)
Record RubricSpec := {
  rubricId : string;
  scale : list Q;
  anchors : list (string * string);
  passThreshold : Q;
  text : option string
}.

Record RequiredApprovalSpec := {
  approvalRole : option RoleRef;
  approvalRubricId : option string
}.

Record GateSpec := {
  gateId : string;
  requiredApprovals : list RequiredApprovalSpec
}.

Record PackagingSpec := {
  packageId : string;
  inputs : list ArtifactId
}.

Record ProvenancePolicySpec := {
  policyId : string;
  policyRequire : list string;
  strength : string
}.

Record ResourceConstraints := {
  maxIterations : option Q;
  maxTimeMs : option Q;
  maxCostUsd : option Q;
  stagnationWindow : option Q
}.

(** [relationships] entries are never inspected; only the presence of the
    array is normalized. *)
Record VCCSpec := {
  vccVersion : string;
  artifacts : list ArtifactSpec;
  relationships : option (list (string * ArtifactId * ArtifactId));
  acceptance : list AcceptanceCriterionSpec;
  rubrics : option (list RubricSpec);
  gates : option (list GateSpec);
  packaging : list PackagingSpec;
  provenancePolicy : ProvenancePolicySpec;
  resourceConstraints : option ResourceConstraints
}.

(** * Run context *)

Record AiJudgeArgs := {
  rubricText : string;
  content : string;
  judgePassThreshold : Q;
  judgeAcId : string
}.

Record AiJudgeScore := {
  score : Q;
  rationale : string;
  model : option string
}.

Record ProvenanceSignals := {
  inputsEnumerated : bool;
  toolingRecorded : bool;
  agentActionsLogged : bool;
  artifactHashesRecorded : bool;
  dependenciesRecorded : bool;
  parametersRecorded : bool;
  attestationSigned : bool
}.

(** The artifact store as the validators see it.  [readText] may reject
    ([None]).  [writeText] is taken to succeed: what is written is
    recorded in the state [Written] threaded through the validators.
    [hash(uri, "sha256")] is [digest] of what was last written there. *)
Record ArtifactStore := {
  readText : string -> option string;
  digest : string -> string
}.

Record RunContext := {
  aiJudge : option (AiJudgeArgs -> AiJudgeScore);
  team : list (RoleRef * string);
  ctxArtifacts : ArtifactStore;
  provenanceSignals : option ProvenanceSignals
}.

(** * Errors and results *)

Inductive IntegrityIssueSeverity := error | warning.

Record IntegrityIssue := {
  issueSeverity : IntegrityIssueSeverity;
  code : string;
  message : string;
  path : option string
}.

Definition isError (i : IntegrityIssue) : bool :=
  match issueSeverity i with
  | error => true
  | warning => false
  end.

Record Normalized := {
  artifactIds : list string;
  mustACs : list string
}.

Record IntegrityResult := {
  spec : VCCSpec;
  issues : list IntegrityIssue;
  normalized : Normalized
}.

(** The outcome of [specIntegrityPass]: the resolved value or the thrown
    [SpecIntegrityError] with its [issues]; [Crashed] is any other
    exception (a [TypeError]). *)
Inductive Outcome :=
  | Returned (r : IntegrityResult)
  | Raised (errMessage : string) (errIssues : list IntegrityIssue)
  | Crashed.

Inductive Status := pass | fail | skip.

Record EvidenceRef := {
  refEvidenceType : EvidenceType;
  refUri : string;
  sha256 : string
}.

(** [details], which no caller of the model reads, is left out. *)
Record ValidationResult := {
  resAcId : string;
  status : Status;
  resSeverity : Severity;
  summary : string;
  resEvidence : EvidenceRef
}.

(** The evidence written so far: location and contents, latest first. *)
Definition Written := list (string * string).

Record ValidatorAdapter := {
  id : string;
  supportedTypes : list CriterionType;
  canValidate : AcceptanceCriterionSpec -> VCCSpec -> RunContext -> option bool;
  validate : AcceptanceCriterionSpec -> VCCSpec -> RunContext -> Written ->
             option (ValidationResult * Written)
}.

Record AdapterRegistry := { validators : list ValidatorAdapter }.

Record Opts := {
  injectUniversalDefaults : option bool;
  requireMustCoverage : option bool;
  optCitationPattern : option string
}.

(** * 1) Spec integrity pass *)

Definition mkIssue (sev : IntegrityIssueSeverity) (c m p : string) : IntegrityIssue :=
  {| issueSeverity := sev; code := c; message := m; path := Some p |}.

(** [deepClone]: on the values of the contract model,
    [JSON.parse(JSON.stringify(x))] rebuilds the same value (the reference
    level, where the copy matters, is the subject of [Module Refs]). *)
Definition deepClone {T} (x : T) : T := x.

(** The first loop over [spec.artifacts]: identifiers, formats, owners, and
    the repair of [dependsOn].  It returns the artifacts as the loop leaves
    them, the identifier set and the issues pushed. *)
Fixpoint checkArtifacts (i : nat) (arts : list ArtifactSpec) (artifactIdSet : StrSet)
  : list ArtifactSpec * StrSet * list IntegrityIssue :=
  match arts with
  | [] => ([], artifactIdSet, [])
  | a :: rest =>
    if negb (truthy (artifactId a)) then
      let '(rest', set', iss) := checkArtifacts (S i) rest artifactIdSet in
      (a :: rest', set',
       mkIssue error "ARTIFACT_ID_MISSING" "artifactId missing"
               ("/artifacts/" +++ showNat i +++ "/artifactId") :: iss)
    else
      let dup :=
        if has artifactIdSet (artifactId a)
        then [mkIssue error "ARTIFACT_ID_DUPLICATE"
                      ("Duplicate artifactId: " +++ artifactId a)
                      ("/artifacts/" +++ showNat i +++ "/artifactId")]
        else [] in
      let fm :=
        match formats a with
        | [] => [mkIssue error "ARTIFACT_FORMATS_EMPTY"
                         "Artifact formats must be non-empty"
                         ("/artifacts/" +++ showNat i +++ "/formats")]
        | _ => []
        end in
      let a' :=
        match dependsOn a with
        | Some _ => a
        | None =>
          {| artifactId := artifactId a; kind := kind a; subtype := subtype a;
             formats := formats a; required := required a;
             dependsOn := Some []; owners := owners a |}
        end in
      let ow :=
        match owners a with
        | [] => [mkIssue warning "ARTIFACT_OWNERS_EMPTY"
                         "Artifact owners is empty (reduces accountability)"
                         ("/artifacts/" +++ showNat i +++ "/owners")]
        | _ => []
        end in
      let '(rest', set', iss) := checkArtifacts (S i) rest (add artifactIdSet (artifactId a)) in
      (a' :: rest', set', dup ++ fm ++ ow ++ iss)
  end.

(** An inner loop [for (j ...)] over identifiers that must be in a set. *)
Fixpoint checkRefs (mk : nat -> string -> IntegrityIssue) (set : StrSet)
         (j : nat) (ids : list string) : list IntegrityIssue :=
  match ids with
  | [] => []
  | x :: rest =>
    (if has set x then [] else [mk j x]) ++ checkRefs mk set (S j) rest
  end.

(** An outer loop [for (i ...)] whose body only pushes issues. *)
Fixpoint forIndexed {A} (body : nat -> A -> list IntegrityIssue)
         (i : nat) (xs : list A) : list IntegrityIssue :=
  match xs with
  | [] => []
  | x :: rest => body i x ++ forIndexed body (S i) rest
  end.

Definition orEmpty {A} (o : option (list A)) : list A :=
  match o with
  | Some l => l
  | None => []
  end.

Definition checkDependsOn (artifactIdSet : StrSet) (arts : list ArtifactSpec)
  : list IntegrityIssue :=
  forIndexed (fun i a =>
    checkRefs (fun j dep =>
      mkIssue error "ARTIFACT_DEP_MISSING"
        ("Artifact " +++ artifactId a +++ " dependsOn missing artifactId: " +++ dep)
        ("/artifacts/" +++ showNat i +++ "/dependsOn/" +++ showNat j))
      artifactIdSet 0 (orEmpty (dependsOn a))) 0 arts.

Definition checkPackaging (artifactIdSet : StrSet) (pk : list PackagingSpec)
  : list IntegrityIssue :=
  forIndexed (fun i p =>
    checkRefs (fun j x =>
      mkIssue error "PACKAGING_INPUT_MISSING"
        ("Packaging " +++ packageId p +++ " input references missing artifactId: " +++ x)
        ("/packaging/" +++ showNat i +++ "/inputs/" +++ showNat j))
      artifactIdSet 0 (inputs p)) 0 pk.

(** The acceptance loop threads [acIdSet]. *)
Fixpoint checkAcceptance (artifactIdSet : StrSet) (i : nat)
         (acs : list AcceptanceCriterionSpec) (acIdSet : StrSet)
  : list IntegrityIssue :=
  match acs with
  | [] => []
  | ac :: rest =>
    (if has acIdSet (acId ac)
     then [mkIssue error "AC_ID_DUPLICATE"
                   ("Duplicate acId: " +++ acId ac)
                   ("/acceptance/" +++ showNat i +++ "/acId")]
     else [])
    ++ checkRefs (fun j t =>
         mkIssue error "AC_TARGET_MISSING"
           ("Acceptance " +++ acId ac +++ " targets missing artifactId: " +++ t)
           ("/acceptance/" +++ showNat i +++ "/targetArtifacts/" +++ showNat j))
         artifactIdSet 0 (targetArtifacts ac)
    ++ checkAcceptance artifactIdSet (S i) rest (add acIdSet (acId ac))
  end.

Definition checkRubricRefs (rubricSet : StrSet) (acs : list AcceptanceCriterionSpec)
  : list IntegrityIssue :=
  forIndexed (fun i ac =>
    match rubricRef (rule ac) with
    | Some r =>
      if truthy r && negb (has rubricSet r)
      then [mkIssue error "RUBRIC_REF_MISSING"
                    ("Acceptance " +++ acId ac +++ " references missing rubricId: " +++ r)
                    ("/acceptance/" +++ showNat i +++ "/rule/rubricRef")]
      else []
    | None => []
    end) 0 acs.

Definition checkGates (rubricSet : StrSet) (gs : list GateSpec) : list IntegrityIssue :=
  forIndexed (fun i g =>
    forIndexed (fun j ra =>
      match approvalRubricId ra with
      | Some r =>
        if truthy r && negb (has rubricSet r)
        then [mkIssue error "GATE_RUBRIC_REF_MISSING"
                      ("Gate " +++ gateId g +++ " approval references missing rubricId: " +++ r)
                      ("/gates/" +++ showNat i +++ "/requiredApprovals/" +++ showNat j +++ "/rubricId")]
        else []
      | None => []
      end) 0 (requiredApprovals g)) 0 gs.

Definition checkTeamRoles (ctx : RunContext) (arts : list ArtifactSpec)
  : list IntegrityIssue :=
  let teamRoles := newSet (map fst (team ctx)) in
  forIndexed (fun i a =>
    forIndexed (fun j owner =>
      if (0 <? length teamRoles)%nat && negb (has teamRoles owner)
      then [mkIssue warning "ROLE_NOT_IN_TEAM"
                    ("Artifact owner role not found in team: " +++ owner)
                    ("/artifacts/" +++ showNat i +++ "/owners/" +++ showNat j)]
      else []) 0 (owners a)) 0 arts.

(** ** String helpers of the runtime used by the defaults injection *)

(** [String.prototype.toLowerCase] on the code units the model carries
    (ASCII and Latin-1 capital letters). *)
Definition lowerAscii (c : ascii) : ascii :=
  let n := nat_of_ascii c in
  if ((65 <=? n) && (n <=? 90))%nat then ascii_of_nat (n + 32)
  else if ((192 <=? n) && (n <=? 222) && negb (n =? 215))%nat then ascii_of_nat (n + 32)
  else c.

Fixpoint toLowerCase (s : string) : string :=
  match s with
  | EmptyString => EmptyString
  | String c rest => String (lowerAscii c) (toLowerCase rest)
  end.

(** [s.startsWith(p)]. *)
Definition startsWith (s p : string) : bool := String.prefix p s.

(** [s.includes(sub)]. *)
Fixpoint includes (s sub : string) : bool :=
  if String.prefix sub s then true
  else match s with
       | EmptyString => false
       | String _ rest => includes rest sub
       end.

(** ** Record updates performed by the pass *)

Definition setRelationships (s : VCCSpec) v : VCCSpec :=
  {| vccVersion := vccVersion s; artifacts := artifacts s; relationships := v;
     acceptance := acceptance s; rubrics := rubrics s; gates := gates s;
     packaging := packaging s; provenancePolicy := provenancePolicy s;
     resourceConstraints := resourceConstraints s |}.

Definition setRubrics (s : VCCSpec) v : VCCSpec :=
  {| vccVersion := vccVersion s; artifacts := artifacts s;
     relationships := relationships s;
     acceptance := acceptance s; rubrics := v; gates := gates s;
     packaging := packaging s; provenancePolicy := provenancePolicy s;
     resourceConstraints := resourceConstraints s |}.

Definition setGates (s : VCCSpec) v : VCCSpec :=
  {| vccVersion := vccVersion s; artifacts := artifacts s;
     relationships := relationships s;
     acceptance := acceptance s; rubrics := rubrics s; gates := v;
     packaging := packaging s; provenancePolicy := provenancePolicy s;
     resourceConstraints := resourceConstraints s |}.

Definition setArtifacts (s : VCCSpec) v : VCCSpec :=
  {| vccVersion := vccVersion s; artifacts := v;
     relationships := relationships s;
     acceptance := acceptance s; rubrics := rubrics s; gates := gates s;
     packaging := packaging s; provenancePolicy := provenancePolicy s;
     resourceConstraints := resourceConstraints s |}.

Definition setAcceptance (s : VCCSpec) v : VCCSpec :=
  {| vccVersion := vccVersion s; artifacts := artifacts s;
     relationships := relationships s;
     acceptance := v; rubrics := rubrics s; gates := gates s;
     packaging := packaging s; provenancePolicy := provenancePolicy s;
     resourceConstraints := resourceConstraints s |}.

(** ** Defaults injection *)

Definition rubricOverall : RubricSpec :=
  {| rubricId := "RUBRIC-OVERALL-v1";
     scale := [1; 2; 3; 4; 5]%Q;
     anchors := [("1", "Incorrect/incomplete; fails core requirements");
                 ("3", "Mostly correct; notable gaps or rough edges");
                 ("5", "Polished; correct; consistent; ready for delivery")];
     passThreshold := 4%Q;
     text := None |}.

Definition rubricClarity : RubricSpec :=
  {| rubricId := "RUBRIC-CLARITY-v1";
     scale := [1; 2; 3; 4; 5]%Q;
     anchors := [("1", "Hard to follow; ambiguous; missing context");
                 ("3", "Understandable; some ambiguities");
                 ("5", "Clear, structured, and actionable")];
     passThreshold := 4%Q;
     text := None |}.

Definition injectDefaultRubrics (spec : VCCSpec) : VCCSpec :=
  let rubrics0 := orEmpty (rubrics spec) in
  let existing := newSet (map rubricId rubrics0) in
  let rubrics1 :=
    if negb (has existing "RUBRIC-OVERALL-v1") then rubrics0 ++ [rubricOverall]
    else rubrics0 in
  let rubrics2 :=
    if negb (has existing "RUBRIC-CLARITY-v1") then rubrics1 ++ [rubricClarity]
    else rubrics1 in
  setRubrics spec (Some rubrics2).

(** [spec.artifacts[0].artifactId]: a [TypeError] on an empty array. *)
Definition firstArtifactId (arts : list ArtifactSpec) : option ArtifactId :=
  match arts with
  | [] => None
  | a :: _ => Some (artifactId a)
  end.

Definition looksLikeSpec (a : ArtifactSpec) : bool :=
  let k := toLowerCase (kind a) in
  let st := toLowerCase (match subtype a with Some s => s | None => "" end) in
  includes k "spec" || includes st "requirements" || includes st "protocol".

Definition findLikelySpecArtifacts (spec : VCCSpec) : option (list ArtifactId) :=
  let required_ := filter required (artifacts spec) in
  match required_ with
  | [] =>
    match firstArtifactId (artifacts spec) with
    | Some a0 => Some [a0]
    | None => None
    end
  | r0 :: _ =>
    let ids := map artifactId (filter looksLikeSpec required_) in
    Some (match ids with
          | [] => [artifactId r0]
          | _ => ids
          end)
  end.

Definition isNarrative (a : ArtifactSpec) : bool :=
  existsb (fun f => startsWith (mediaType f) "text/" || includes (mediaType f) "markdown")
          (formats a).

Definition findNarrativeArtifacts (spec : VCCSpec) : option (list ArtifactId) :=
  let required_ := filter required (artifacts spec) in
  match required_ with
  | [] =>
    match firstArtifactId (artifacts spec) with
    | Some a0 => Some [a0]
    | None => None
    end
  | _ =>
    let ids := map artifactId (filter isNarrative required_) in
    Some (match ids with
          | [] => map artifactId required_
          | _ => ids
          end)
  end.

(** The source of the default citation pattern (markdown links). *)
Definition defaultCitationPattern : string := "\[[^\]]+\]\(([^)]+)\)".

Definition acUnivStruct (targets : list ArtifactId) : AcceptanceCriterionSpec :=
  {| acId := "AC-UNIV-STRUCT-1";
     targetArtifacts := targets;
     type := structure;
     severity := must;
     rule := {| rubricRef := None; adapter := None;
                requiredSections := Some ["Scope"; "Assumptions"; "Risks"; "Acceptance Criteria"];
                minCitationCoverage := None; citationPattern := None; require := None;
                jsonSchema := None; rulePassThreshold := None; ruleDescription := None |};
     evidence := {| evRequired := true; evidenceType := EvAuto;
                    producedArtifact := Some "E-AC-UNIV-STRUCT-1" |} |}.

Definition acUnivTrace (targets : list ArtifactId) (pattern : option string)
  : AcceptanceCriterionSpec :=
  {| acId := "AC-UNIV-TRACE-1";
     targetArtifacts := targets;
     type := traceability;
     severity := should;
     rule := {| rubricRef := None; adapter := None; requiredSections := None;
                minCitationCoverage := Some (divide 6 10);
                citationPattern :=
                  Some (match pattern with Some p => p | None => defaultCitationPattern end);
                require := None; jsonSchema := None; rulePassThreshold := None;
                ruleDescription :=
                  Some "Key claims should be backed by citations or explicit 'UNSOURCED/INFERENCE' labels." |};
     evidence := {| evRequired := true; evidenceType := EvAuto;
                    producedArtifact := Some "E-AC-UNIV-TRACE-1" |} |}.

Definition acUnivConsist (targets : list ArtifactId) : AcceptanceCriterionSpec :=
  {| acId := "AC-UNIV-CONSIST-1";
     targetArtifacts := targets;
     type := consistency;
     severity := should;
     rule := {| rubricRef := None; adapter := None; requiredSections := None;
                minCitationCoverage := None; citationPattern := None; require := None;
                jsonSchema := None; rulePassThreshold := None;
                ruleDescription :=
                  Some "Artifacts should not contradict each other on defined scope and decisions." |};
     evidence := {| evRequired := true; evidenceType := EvAiJudged;
                    producedArtifact := Some "E-AC-UNIV-CONSIST-1" |} |}.

Definition acUnivProv (targets : list ArtifactId) (req : list string)
  : AcceptanceCriterionSpec :=
  {| acId := "AC-UNIV-PROV-1";
     targetArtifacts := targets;
     type := provenance;
     severity := must;
     rule := {| rubricRef := None; adapter := None; requiredSections := None;
                minCitationCoverage := None; citationPattern := None;
                require := Some req;
                jsonSchema := None; rulePassThreshold := None; ruleDescription := None |};
     evidence := {| evRequired := true; evidenceType := EvAuto;
                    producedArtifact := Some "E-AC-UNIV-PROV-1" |} |}.

(** [injectDefaultAcceptance]; [None] is the [TypeError] of
    [spec.artifacts[0]] on a contract without artifacts. *)
Definition injectDefaultAcceptance (spec : VCCSpec) (pattern : option string)
  : option VCCSpec :=
  let acc0 := acceptance spec in
  let existing := newSet (map acId acc0) in
  match (if negb (has existing "AC-UNIV-STRUCT-1")
         then option_map (fun t => acc0 ++ [acUnivStruct t]) (findLikelySpecArtifacts spec)
         else Some acc0) with
  | None => None
  | Some acc1 =>
    match (if negb (has existing "AC-UNIV-TRACE-1")
           then option_map (fun t => acc1 ++ [acUnivTrace t pattern]) (findNarrativeArtifacts spec)
           else Some acc1) with
    | None => None
    | Some acc2 =>
      let acc3 :=
        if negb (has existing "AC-UNIV-CONSIST-1")
        then acc2 ++ [acUnivConsist (map artifactId (filter required (artifacts spec)))]
        else acc2 in
      let acc4 :=
        if negb (has existing "AC-UNIV-PROV-1")
        then acc3 ++ [acUnivProv (flat_map inputs (packaging spec))
                                 (policyRequire (provenancePolicy spec))]
        else acc3 in
      Some (setAcceptance spec acc4)
    end
  end.

(** ** MUST coverage *)

Definition isMust (a : AcceptanceCriterionSpec) : bool := Severity_eqb (severity a) must.

(** [registry.validators.filter(v => v.supportedTypes.includes(ac.type))]. *)
Definition candidates (registry : AdapterRegistry) (ac : AcceptanceCriterionSpec)
  : list ValidatorAdapter :=
  filter (fun v => existsb (CriterionType_eqb (type ac)) (supportedTypes v))
         (validators registry).

(** The [canAny] loop: a [canValidate] that throws is skipped. *)
Definition accepts (ac : AcceptanceCriterionSpec) (spec : VCCSpec) (ctx : RunContext)
           (v : ValidatorAdapter) : bool :=
  match canValidate v ac spec ctx with
  | Some true => true
  | _ => false
  end.

Definition canAny (cands : list ValidatorAdapter) (ac : AcceptanceCriterionSpec)
           (spec : VCCSpec) (ctx : RunContext) : bool :=
  existsb (accepts ac spec ctx) cands.

Definition acIndex (spec : VCCSpec) (ac : AcceptanceCriterionSpec) : option nat :=
  findIndex (fun x => String.eqb (acId x) (acId ac)) (acceptance spec).

Definition explicitValidatorMissing (spec : VCCSpec) (ac : AcceptanceCriterionSpec)
           (explicitAdapter : string) : IntegrityIssue :=
  mkIssue error "EXPLICIT_VALIDATOR_MISSING"
    ("MUST criterion " +++ acId ac +++ " names adapter '" +++ explicitAdapter
     +++ "', but no such validator is registered.")
    ("/acceptance/" +++ showIndex (acIndex spec ac) +++ "/rule/adapter").

Definition noValidatorForType (spec : VCCSpec) (ac : AcceptanceCriterionSpec)
  : IntegrityIssue :=
  mkIssue error "NO_VALIDATOR_FOR_TYPE"
    ("No validator registered for MUST criterion type '" +++ showType (type ac)
     +++ "' (acId=" +++ acId ac +++ ").")
    ("/acceptance/" +++ showIndex (acIndex spec ac) +++ "/type").

Definition unverifiableMust (spec : VCCSpec) (ac : AcceptanceCriterionSpec)
  : IntegrityIssue :=
  mkIssue error "UNVERIFIABLE_MUST"
    ("MUST criterion " +++ acId ac
     +++ " appears unverifiable by registered validators (type='"
     +++ showType (type ac) +++ "').")
    ("/acceptance/" +++ showIndex (acIndex spec ac)).

(** [explicitAdapter]: the rule's [adapter] when it is a string, tested
    for truthiness by [if (explicitAdapter)]. *)
Definition explicitAdapterOf (ac : AcceptanceCriterionSpec) : option string :=
  match adapter (rule ac) with
  | Some e => if truthy e then Some e else None
  | None => None
  end.

(** One turn of [for (const ac of mustCriteria)]: the issues it pushes. *)
Definition mustCoverageFor (registry : AdapterRegistry) (spec : VCCSpec)
           (ctx : RunContext) (ac : AcceptanceCriterionSpec) : list IntegrityIssue :=
  match explicitAdapterOf ac with
  | Some explicitAdapter =>
    let found := existsb (fun v => String.eqb (id v) explicitAdapter) (validators registry) in
    if negb found then [explicitValidatorMissing spec ac explicitAdapter] else []
  | None =>
    match candidates registry ac with
    | [] => [noValidatorForType spec ac]
    | cands =>
      if negb (canAny cands ac spec ctx) then [unverifiableMust spec ac] else []
    end
  end.

Definition mustCoverage (registry : AdapterRegistry) (spec : VCCSpec) (ctx : RunContext)
  : list IntegrityIssue :=
  flat_map (mustCoverageFor registry spec ctx) (filter isMust (acceptance spec)).

(** ** The pass *)

Definition optInject (opts : option Opts) : bool :=
  match opts with
  | Some o => match injectUniversalDefaults o with Some b => b | None => true end
  | None => true
  end.

Definition optRequireMustCoverage (opts : option Opts) : bool :=
  match opts with
  | Some o => match requireMustCoverage o with Some b => b | None => true end
  | None => true
  end.

Definition optPattern (opts : option Opts) : option string :=
  match opts with
  | Some o => optCitationPattern o
  | None => None
  end.

Definition artifactsEmpty : IntegrityIssue :=
  mkIssue error "ARTIFACTS_EMPTY"
          "VCCSpec.artifacts must contain at least one artifact." "/artifacts".

Definition versionCheck (spec : VCCSpec) : list IntegrityIssue :=
  if negb (String.eqb (vccVersion spec) "sdlaf.vcc/v1")
  then [mkIssue error "VERSION_UNSUPPORTED"
                ("Unsupported vccVersion: " +++ vccVersion spec) "/vccVersion"]
  else [].

(** [spec.relationships = spec.relationships ?? []] and its two siblings. *)
Definition normalizeArrays (spec : VCCSpec) : VCCSpec :=
  let s1 := setRelationships spec (Some (orEmpty (relationships spec))) in
  let s2 := setRubrics s1 (Some (orEmpty (rubrics s1))) in
  setGates s2 (Some (orEmpty (gates s2))).

(** The contract after the structural checks: arrays defaulted and
    [dependsOn] repaired. *)
Definition structuralSpec (spec : VCCSpec) : VCCSpec :=
  let s := normalizeArrays spec in
  setArtifacts s (fst (fst (checkArtifacts 0 (artifacts s) []))).

(** The issues pushed before the defaults are injected, in source order. *)
Definition structuralIssues (spec : VCCSpec) (ctx : RunContext) : list IntegrityIssue :=
  let s := normalizeArrays spec in
  let '(arts, artifactIdSet, issA) := checkArtifacts 0 (artifacts s) [] in
  let s' := setArtifacts s arts in
  let rubricSet := newSet (map rubricId (orEmpty (rubrics s'))) in
  versionCheck spec
  ++ issA
  ++ checkDependsOn artifactIdSet (artifacts s')
  ++ checkPackaging artifactIdSet (packaging s')
  ++ checkAcceptance artifactIdSet 0 (acceptance s') []
  ++ checkRubricRefs rubricSet (acceptance s')
  ++ checkGates rubricSet (orEmpty (gates s'))
  ++ checkTeamRoles ctx (artifacts s').

(** The contract on which MUST coverage is verified: the structural
    contract with the universal defaults injected when the option is on. *)
Definition injected (spec : VCCSpec) (opts : option Opts) : option VCCSpec :=
  if optInject opts
  then injectDefaultAcceptance (injectDefaultRubrics (structuralSpec spec)) (optPattern opts)
  else Some (structuralSpec spec).

Definition specIntegrityPass (inputSpec : VCCSpec) (ctx : RunContext)
           (registry : AdapterRegistry) (opts : option Opts) : Outcome :=
  let spec0 := deepClone inputSpec in
  match artifacts spec0 with
  | [] => Raised "VCCSpec failed integrity pass" [artifactsEmpty]
  | _ :: _ =>
    let issues1 := structuralIssues spec0 ctx in
    let artifactIds_ := snd (fst (checkArtifacts 0 (artifacts (normalizeArrays spec0)) [])) in
    match injected spec0 opts with
    | None => Crashed
    | Some spec1 =>
      let mustACs_ := map acId (filter isMust (acceptance spec1)) in
      let issues2 :=
        if optRequireMustCoverage opts then mustCoverage registry spec1 ctx else [] in
      let issues_ := issues1 ++ issues2 in
      let errors := filter isError issues_ in
      if (0 <? length errors)%nat
      then Raised "VCCSpec failed integrity pass" issues_
      else Returned {| spec := spec1; issues := issues_;
                       normalized := {| artifactIds := artifactIds_;
                                        mustACs := mustACs_ |} |}
    end
  end.

(** All the issues pushed onto [issues] in the course of one call. *)
Definition issuesFound (inputSpec : VCCSpec) (ctx : RunContext)
           (registry : AdapterRegistry) (opts : option Opts) : list IntegrityIssue :=
  match artifacts inputSpec with
  | [] => [artifactsEmpty]
  | _ :: _ =>
    structuralIssues inputSpec ctx
    ++ match injected inputSpec opts with
       | Some spec1 =>
         if optRequireMustCoverage opts then mustCoverage registry spec1 ctx else []
       | None => []
       end
  end.

(** The artifact loop rewrites at most [dependsOn]. *)
Definition sameButDeps (a b : ArtifactSpec) : Prop :=
  artifactId a = artifactId b /\ kind a = kind b /\ subtype a = subtype b
  /\ formats a = formats b /\ required a = required b /\ owners a = owners b.



(** The pass raises, and the error carries the issue [i], of severity
    [error] and code [c]. *)
Definition raisesWithCode (inputSpec : VCCSpec) (ctx : RunContext)
           (registry : AdapterRegistry) (opts : option Opts)
           (c : string) (i : IntegrityIssue) : Prop :=
  exists m iss,
    specIntegrityPass inputSpec ctx registry opts = Raised m iss
    /\ In i iss /\ issueSeverity i = error /\ code i = c.

(** The criteria [injectDefaultAcceptance] can push for a contract. *)
Definition defaultCriterionOf (s : VCCSpec) (p : option string)
           (ac : AcceptanceCriterionSpec) : Prop :=
  (exists t, findLikelySpecArtifacts s = Some t /\ ac = acUnivStruct t)
  \/ (exists t, findNarrativeArtifacts s = Some t /\ ac = acUnivTrace t p)
  \/ ac = acUnivConsist (map artifactId (filter required (artifacts s)))
  \/ ac = acUnivProv (flat_map inputs (packaging s)) (policyRequire (provenancePolicy s)).

(** Both default rubrics are present by id. *)
Definition rubricsComplete (s : VCCSpec) : bool :=
  let ids := map rubricId (orEmpty (rubrics s)) in
  existsb (String.eqb "RUBRIC-OVERALL-v1") ids
  && existsb (String.eqb "RUBRIC-CLARITY-v1") ids.

(** The four default criteria are present by id. *)
Definition acceptanceComplete (s : VCCSpec) : bool :=
  let ids := map acId (acceptance s) in
  existsb (String.eqb "AC-UNIV-STRUCT-1") ids
  && existsb (String.eqb "AC-UNIV-TRACE-1") ids
  && existsb (String.eqb "AC-UNIV-CONSIST-1") ids
  && existsb (String.eqb "AC-UNIV-PROV-1") ids.

(** [x !== undefined] on an optional value. *)
Definition isSome {A} (o : option A) : bool :=
  match o with
  | Some _ => true
  | None => false
  end.
(** * 2) Default universal validators *)

(** ** The runtime *)

(** The result of [RegExp.prototype.exec]: [index], [m[0]] and the
    capture groups. *)
Record RegExpMatch := {
  matchIndex : nat;
  matched : string;
  groups : list string
}.

(** The built-ins of the JavaScript runtime that the validators call and
    the embedding does not define: the regular-expression engine (a
    pattern is given by its source and its flags), number formatting and
    [JSON.stringify]. *)
Record Runtime := {
  (** [new RegExp(source, flags)] does not throw a [SyntaxError] *)
  regexCompiles : string -> string -> bool;
  (** [re.exec(s)] from [lastIndex = 0] *)
  regexExec : string -> string -> string -> option RegExpMatch;
  (** [s.replace(re, replacement)] *)
  regexReplace : string -> string -> string -> string -> string;
  (** [s.split(re)] *)
  regexSplit : string -> string -> list string;
  (** [s.trim()] *)
  trim : string -> string;
  (** [`${x}`] for a number *)
  numberToString : Q -> string;
  (** [x.toFixed(digits)] *)
  toFixed : nat -> Q -> string;
  (** [JSON.stringify(missing, null, 2)] *)
  stringifyMissing : list (string * list string) -> string
}.

(** A line feed, for the [\n] of the evidence texts. *)
Definition nl : string := String (ascii_of_nat 10) EmptyString.

Section Validators.

Variable rt : Runtime.

(** [re.test(s)] for a pattern written as a literal. *)
Definition regexTest (source flags s : string) : bool :=
  match regexExec rt source flags s with
  | Some _ => true
  | None => false
  end.

(** [s.replace(/[.*+?^${}()|[\]\\]/g, "\\$&")]. *)
Definition escapeRe (s : string) : string :=
  regexReplace rt "[.*+?^${}()|[\]\\]" "g" s "\$&".

(** ** Helpers *)

Record EvidenceWritten := { evUri : string; evSha256 : string }.

Definition writeEvidence (ctx : RunContext) (evidenceUri contents : string)
           (w : Written) : EvidenceWritten * Written :=
  ({| evUri := evidenceUri; evSha256 := digest (ctxArtifacts ctx) contents |},
   (evidenceUri, contents) :: w).

Definition evidenceUriFor (acId_ : string) : string :=
  "sdlaf-exports/evidence/" +++ acId_ +++ ".txt".

Definition mkResult (ac : AcceptanceCriterionSpec) (st : Status) (sm : string)
           (et : EvidenceType) (ev : EvidenceWritten) : ValidationResult :=
  {| resAcId := acId ac; status := st; resSeverity := severity ac; summary := sm;
     resEvidence := {| refEvidenceType := et; refUri := evUri ev;
                       sha256 := evSha256 ev |} |}.

(** [readArtifactText(spec, ctx, artifactId)]; [None] when it rejects: the
    artifact is not declared, it has no format, or the store rejects. *)
Definition readArtifactText (spec_ : VCCSpec) (ctx : RunContext)
           (artifactId_ : ArtifactId) : option string :=
  match find (fun x => String.eqb (artifactId x) artifactId_) (artifacts spec_) with
  | None => None
  | Some a =>
    let best :=
      match find (fun f => startsWith (mediaType f) "text/") (formats a) with
      | Some f => Some f
      | None => hd_error (formats a)
      end in
    match best with
    | None => None
    | Some f => readText (ctxArtifacts ctx) (uri f)
    end
  end.

(** [readArtifactText(ctx, uri)] as [safeReadText] calls it: with two
    arguments the parameters are bound as [spec := ctx], [ctx := uri] and
    [artifactId := undefined], and [spec.artifacts] is then the artifact
    store, which has no [find]: the call always rejects with a
    [TypeError]. *)
Definition readArtifactText_ctx_uri (ctx : RunContext) (uri_ : string) : option string :=
  None.

(** [sha256Hex(uri)]: the module neither declares nor imports a
    [sha256Hex], so evaluating the call throws a [ReferenceError]. *)
Definition sha256Hex (_ : string) : option string := None.

(** [safeReadText]: the read rejects, and the handler rejects in turn when
    it builds the location of its record, before anything is written. *)
Definition safeReadText (ctx : RunContext) (uri_ : string) (w : Written)
  : option (string * Written) :=
  match readArtifactText_ctx_uri ctx uri_ with
  | Some t => Some (t, w)
  | None =>
    match sha256Hex uri_ with
    | None => None
    | Some digest_ =>
      let '(_, w') :=
        writeEvidence ctx
          ("evidence://read-failure/" +++ digest_ +++ ".txt")
          ("WARN: Failed to read target for AI judging." +++ nl
           +++ "uri=" +++ uri_ +++ nl
           +++ "error=TypeError: spec.artifacts.find is not a function") w in
      Some ("", w')
    end
  end.

(** ** Structure: required sections *)

Definition hasSection (text_ sectionTitle : string) : bool :=
  let escaped := escapeRe sectionTitle in
  regexTest ("^#{1,6}\s+" +++ escaped +++ "\s*$") "im" text_
  || regexTest ("^" +++ escaped +++ "\s*$\s*^[-=]{3,}\s*$") "im" text_
  || regexTest ("^" +++ escaped +++ "\s*:\s*$") "im" text_.

(** ** Object literals used as maps

    A record [{}] filled by [m[k] = v] is the list of its own properties in
    the order [Object.keys] lists them: the array indices in ascending
    order, then the other keys in the order of their first assignment. *)

Definition digitOf (c : ascii) : option N :=
  let n := N_of_ascii c in
  if ((48 <=? n) && (n <=? 57))%N then Some (n - 48)%N else None.

Fixpoint digitsValue (s : string) (acc : N) : option N :=
  match s with
  | EmptyString => Some acc
  | String c rest =>
    match digitOf c with
    | Some d => digitsValue rest (10 * acc + d)%N
    | None => None
    end
  end.

(** A key is an array index when it is the canonical decimal string of an
    integer from 0 to 2^32 - 2. *)
Definition arrayIndex (k : string) : option N :=
  match k with
  | EmptyString => None
  | String c rest =>
    if (N_of_ascii c =? 48)%N
    then match rest with EmptyString => Some 0%N | _ => None end
    else match digitsValue k 0 with
         | Some n => if (n <? 4294967295)%N then Some n else None
         | None => None
         end
  end.

Definition hasKey {V} (m : list (string * V)) (k : string) : bool :=
  existsb (fun kv => String.eqb (fst kv) k) m.

(** Assignment to an own property: the key keeps its place. *)
Fixpoint replaceKey {V} (k : string) (v : V) (m : list (string * V))
  : list (string * V) :=
  match m with
  | [] => []
  | (k', v') :: rest =>
    if String.eqb k' k then (k', v) :: rest else (k', v') :: replaceKey k v rest
  end.

(** A new array index goes before the first key that is a larger index or
    no index at all. *)
Fixpoint insertIndex {V} (n : N) (k : string) (v : V) (m : list (string * V))
  : list (string * V) :=
  match m with
  | [] => [(k, v)]
  | (k', v') :: rest =>
    match arrayIndex k' with
    | Some n' =>
      if (n <? n')%N then (k, v) :: m else (k', v') :: insertIndex n k v rest
    | None => (k, v) :: m
    end
  end.

(** [m[k] = v] on an object literal.  The key [__proto__] is the accessor
    inherited from [Object.prototype]: the assignment sets or leaves the
    prototype and creates no own property.  Every other inherited member
    is a writable data property, and the assignment creates an own one. *)
Definition setKey {V} (k : string) (v : V) (m : list (string * V)) : list (string * V) :=
  if String.eqb k "__proto__" then m
  else if hasKey m k then replaceKey k v m
  else match arrayIndex k with
       | Some n => insertIndex n k v m
       | None => m ++ [(k, v)]
       end.

Definition getKey {V} (m : list (string * V)) (k : string) : option V :=
  option_map snd (find (fun kv => String.eqb (fst kv) k) m).

Fixpoint structureMissing (spec_ : VCCSpec) (ctx : RunContext)
         (requiredSections_ : list string) (targets : list ArtifactId)
         (missing : list (string * list string))
  : option (list (string * list string)) :=
  match targets with
  | [] => Some missing
  | artifactId_ :: rest =>
    match readArtifactText spec_ ctx artifactId_ with
    | None => None
    | Some text_ =>
      let notFound := filter (fun s => negb (hasSection text_ s)) requiredSections_ in
      structureMissing spec_ ctx requiredSections_ rest
        (match notFound with
         | [] => missing
         | _ => setKey artifactId_ notFound missing
         end)
    end
  end.

Definition structure_canValidate (ac : AcceptanceCriterionSpec) (_ : VCCSpec)
           (_ : RunContext) : option bool :=
  Some (match requiredSections (rule ac) with
        | Some (_ :: _) => true
        | _ => false
        end).

Definition structure_validate (ac : AcceptanceCriterionSpec) (spec_ : VCCSpec)
           (ctx : RunContext) (w : Written) : option (ValidationResult * Written) :=
  let requiredSections_ := orEmpty (requiredSections (rule ac)) in
  match structureMissing spec_ ctx requiredSections_ (targetArtifacts ac) [] with
  | None => None
  | Some missing =>
    let pass_ := match missing with [] => true | _ => false end in
    let evidenceText :=
      if pass_
      then "PASS: All required sections present." +++ nl
           +++ "Required: " +++ join ", " requiredSections_
      else "FAIL: Missing required sections." +++ nl
           +++ "Required: " +++ join ", " requiredSections_ +++ nl
           +++ "Missing:" +++ nl +++ stringifyMissing rt missing in
    let '(ev, w') := writeEvidence ctx (evidenceUriFor (acId ac)) evidenceText w in
    Some (mkResult ac (if pass_ then pass else fail)
                   (if pass_ then "All required sections present."
                    else "One or more required sections are missing.")
                   EvAuto ev, w')
  end.

Definition StructureRequiredSectionsValidator : ValidatorAdapter :=
  {| id := "structure.requiredSections";
     supportedTypes := [structure];
     canValidate := structure_canValidate;
     validate := structure_validate |}.

(** ** Traceability: citation coverage *)

Definition splitSentences (text_ : string) : list string :=
  flat_map (fun line =>
    let l := trim rt line in
    if negb (truthy l) then []
    else if regexTest "^#{1,6}\s+" "" l
            || regexTest "^[-*+]\s+" "" l
            || regexTest "^\d+\.\s+" "" l
         then [l]
         else regexSplit rt "(?<=[.!?])\s+" l)
    (regexSplit rt "\r?\n" text_).

Record ArtifactCoverage := {
  covArtifactId : string;
  coverage : Q;
  cited : nat;
  total : nat
}.

(** The body of [for (const s of sentences)]: does [s] count as cited. *)
Definition isCited (patternSource s : string) : bool :=
  let hasCitation := regexTest patternSource "g" s in
  let isMarkedUnsourced := regexTest "\b(UNSOURCED|INFERENCE)\b" "i" s in
  hasCitation || isMarkedUnsourced.

Definition sentencesOf (text_ : string) : list string :=
  filter (fun s => (0 <? String.length (trim rt s))%nat) (splitSentences text_).

Definition coverageOf (patternSource : string) (artifactId_ : ArtifactId)
           (text_ : string) : ArtifactCoverage :=
  let sentences := sentencesOf text_ in
  let cited_ := length (filter (isCited patternSource) sentences) in
  let total_ := Nat.max 1 (length sentences) in
  {| covArtifactId := artifactId_;
     coverage := divide (Z.of_nat cited_) (Z.of_nat total_);
     cited := cited_;
     total := total_ |}.

(** [for (const artifactId of targets)]; a read that rejects ends the call. *)
Fixpoint perArtifactCoverage (spec_ : VCCSpec) (ctx : RunContext)
         (patternSource : string) (targets : list ArtifactId)
  : option (list ArtifactCoverage) :=
  match targets with
  | [] => Some []
  | artifactId_ :: rest =>
    match readArtifactText spec_ ctx artifactId_ with
    | None => None
    | Some text_ =>
      match perArtifactCoverage spec_ ctx patternSource rest with
      | None => None
      | Some more => Some (coverageOf patternSource artifactId_ text_ :: more)
      end
    end
  end.

(** [perArtifact.reduce((m, x) => Math.min(m, x.coverage), 1)]. *)
Definition worstCoverage (perArtifact : list ArtifactCoverage) : Q :=
  fold_left (fun m x => Qmin m (coverage x)) perArtifact 1%Q.

Definition traceability_minCoverage (ac : AcceptanceCriterionSpec) : Q :=
  match minCitationCoverage (rule ac) with
  | Some q => q
  | None => 1 # 2
  end.

Definition traceability_patternSource (ac : AcceptanceCriterionSpec) : string :=
  match citationPattern (rule ac) with
  | Some p => p
  | None => defaultCitationPattern
  end.

Definition traceability_canValidate (ac : AcceptanceCriterionSpec) (_ : VCCSpec)
           (_ : RunContext) : option bool :=
  Some (match minCitationCoverage (rule ac), citationPattern (rule ac) with
        | None, None => false
        | _, _ => true
        end).

Definition traceability_validate (ac : AcceptanceCriterionSpec) (spec_ : VCCSpec)
           (ctx : RunContext) (w : Written) : option (ValidationResult * Written) :=
  let minCoverage := traceability_minCoverage ac in
  let patternSource := traceability_patternSource ac in
  if negb (regexCompiles rt patternSource "g") then None
  else
    match perArtifactCoverage spec_ ctx patternSource (targetArtifacts ac) with
    | None => None
    | Some perArtifact =>
      let worst := worstCoverage perArtifact in
      let pass_ := Qle_bool minCoverage worst in
      let evidenceText :=
        "Traceability Citation Coverage" +++ nl
        +++ "minCoverage=" +++ numberToString rt minCoverage +++ nl
        +++ join nl (map (fun x =>
              covArtifactId x +++ ": coverage=" +++ toFixed rt 3 (coverage x)
              +++ " (" +++ showNat (cited x) +++ "/" +++ showNat (total x) +++ ")")
              perArtifact)
        +++ nl +++ "Result: " +++ (if pass_ then "PASS" else "FAIL")
        +++ " (worst=" +++ toFixed rt 3 worst +++ ")" in
      let '(ev, w') := writeEvidence ctx (evidenceUriFor (acId ac)) evidenceText w in
      Some (mkResult ac (if pass_ then pass else fail)
                     (if pass_ then "Citation coverage meets threshold."
                      else "Citation coverage below threshold.")
                     EvAuto ev, w')
    end.

Definition TraceabilityCitationCoverageValidator : ValidatorAdapter :=
  {| id := "traceability.citationCoverage";
     supportedTypes := [traceability];
     canValidate := traceability_canValidate;
     validate := traceability_validate |}.

(** ** Consistency: simple cross-check *)

Record ContradictionSignal := { confidence : Q; signalSummary : string }.

(** [s.slice(start)] and [s.slice(0, end)]. *)
Definition sliceFrom (start : nat) (s : string) : string :=
  substring start (String.length s - start) s.

Definition sliceTo (stop : nat) (s : string) : string := substring 0 stop s.

Definition normalizeItem (s : string) : string :=
  regexReplace rt "\s+" "g" (toLowerCase (trim rt s)) " ".

Definition trimTo (s : string) (n : nat) : string :=
  if (String.length s <=? n)%nat then s else sliceTo (n - 1) s +++ "…".

Definition extractSection (text_ heading : string) : option string :=
  let escaped := escapeRe heading in
  match regexExec rt ("^#{1,6}\s+" +++ escaped +++ "\s*$") "im" text_ with
  | None => None
  | Some m =>
    let start := (matchIndex m + String.length (matched m))%nat in
    let rest := sliceFrom start text_ in
    let block :=
      match regexExec rt "^#{1,6}\s+" "m" rest with
      | Some next => sliceTo (matchIndex next) rest
      | None => rest
      end in
    Some (trim rt block)
  end.

(** [line.match(a) || line.match(b)]: the first capture group. *)
Definition listItemOf (line : string) : option string :=
  match regexExec rt "^[-*+]\s+(.*)$" "" line with
  | Some m => Some (hd "" (groups m))
  | None =>
    match regexExec rt "^\d+\.\s+(.*)$" "" line with
    | Some m => Some (hd "" (groups m))
    | None => None
    end
  end.

Definition extractListUnderHeadings (text_ : string) (headings : list string) : StrSet :=
  fold_left (fun set h =>
    match extractSection text_ h with
    | None => set
    | Some block =>
      if negb (truthy block) then set
      else
        fold_left (fun set' line =>
          match listItemOf line with
          | Some item =>
            if (2 <? String.length (trim rt item))%nat
            then add set' (normalizeItem item) else set'
          | None => set'
          end) (regexSplit rt "\r?\n" block) set
    end) headings [].

Definition mentionsAsInScope (text_ item : string) : bool :=
  let inScopeBlock :=
    match extractSection text_ "In Scope" with
    | Some b => Some b
    | None => extractSection text_ "Objectives"
    end in
  match inScopeBlock with
  | None => false
  | Some b =>
    if negb (truthy b) then false
    else includes (normalizeItem b) (normalizeItem item)
  end.

Definition extractMustStatements (text_ : string) : StrSet :=
  fold_left (fun set line =>
    let l := trim rt line in
    if negb (truthy l) then set
    else if regexTest "\b(must|shall|required to)\b" "i" l then add set l
         else set) (regexSplit rt "\r?\n" text_) [].

Definition negates (text_ requirementLine : string) : bool :=
  let tokens :=
    firstn 8 (filter (fun t => (5 <=? String.length t)%nat)
                     (regexSplit rt "\s+" (regexReplace rt "[^\w\s-]" "g" requirementLine " "))) in
  match tokens with
  | [] => false
  | _ =>
    existsb (fun t =>
      match regexExec rt (".{0,40}\b" +++ escapeRe t +++ "\b.{0,40}") "i" text_ with
      | Some m =>
        regexTest "(not required|will not|must not|shall not|out of scope|non-goal)" "i"
                  (matched m)
      | None => false
      end) tokens
  end.

(** [texts[id]] for a key of [texts]. *)
Definition textAt (texts : list (string * string)) (id_ : string) : string :=
  match getKey texts id_ with
  | Some t => t
  | None => ""
  end.

(** The index pairs [i < j] of the two nested loops, in loop order. *)
Fixpoint pairsOf (ids : list string) : list (string * string) :=
  match ids with
  | [] => []
  | a :: rest => map (fun b => (a, b)) rest ++ pairsOf rest
  end.

Definition scopeSignals (texts : list (string * string)) (a b : string)
  : list ContradictionSignal :=
  let outScope id_ :=
    extractListUnderHeadings (textAt texts id_) ["Out of Scope"; "Non-goals"; "Non Goals"] in
  flat_map (fun item =>
    if mentionsAsInScope (textAt texts b) item
    then [{| confidence := divide 9 10;
             signalSummary := b +++ " treats '" +++ item +++ "' as in-scope, but "
                              +++ a +++ " lists it out-of-scope." |}]
    else []) (outScope a)
  ++ flat_map (fun item =>
    if mentionsAsInScope (textAt texts a) item
    then [{| confidence := divide 9 10;
             signalSummary := a +++ " treats '" +++ item +++ "' as in-scope, but "
                              +++ b +++ " lists it out-of-scope." |}]
    else []) (outScope b).

Definition mustSignals (texts : list (string * string)) (a b : string)
  : list ContradictionSignal :=
  let musts id_ := extractMustStatements (textAt texts id_) in
  flat_map (fun req =>
    if negates (textAt texts b) req
    then [{| confidence := divide 86 100;
             signalSummary := b +++ " negates a MUST/SHALL from " +++ a +++ ": '"
                              +++ trimTo req 120 +++ "'" |}]
    else []) (musts a)
  ++ flat_map (fun req =>
    if negates (textAt texts a) req
    then [{| confidence := divide 86 100;
             signalSummary := a +++ " negates a MUST/SHALL from " +++ b +++ ": '"
                              +++ trimTo req 120 +++ "'" |}]
    else []) (musts b).

Definition findContradictionSignals (texts : list (string * string))
  : list ContradictionSignal :=
  let ids := map fst texts in
  if (length ids <? 2)%nat then []
  else
    flat_map (fun ab => scopeSignals texts (fst ab) (snd ab)) (pairsOf ids)
    ++ flat_map (fun ab => mustSignals texts (fst ab) (snd ab)) (pairsOf ids).

(** The loop that fills [texts]: a read that rejects is ignored. *)
Fixpoint readTexts (spec_ : VCCSpec) (ctx : RunContext) (targets : list ArtifactId)
         (texts : list (string * string)) : list (string * string) :=
  match targets with
  | [] => texts
  | artifactId_ :: rest =>
    readTexts spec_ ctx rest
      (match readArtifactText spec_ ctx artifactId_ with
       | Some t => setKey artifactId_ t texts
       | None => texts
       end)
  end.

Definition consistency_canValidate (_ : AcceptanceCriterionSpec) (_ : VCCSpec)
           (_ : RunContext) : option bool := Some true.

Definition consistency_validate (ac : AcceptanceCriterionSpec) (spec_ : VCCSpec)
           (ctx : RunContext) (w : Written) : option (ValidationResult * Written) :=
  let texts := readTexts spec_ ctx (targetArtifacts ac) [] in
  let signals := findContradictionSignals texts in
  let high := filter (fun s => Qle_bool (divide 85 100) (confidence s)) signals in
  let pass_ := (length high =? 0)%nat in
  let evidenceText :=
    "Consistency Simple Cross-Check" +++ nl
    +++ "Checked artifacts: " +++ join ", " (map fst texts) +++ nl
    +++ "Signals:" +++ nl
    +++ (match signals with
         | [] => "- none"
         | _ => join nl (map (fun s => "- [" +++ toFixed rt 2 (confidence s) +++ "] "
                                       +++ signalSummary s) signals)
         end)
    +++ nl +++ "Result: " +++ (if pass_ then "PASS" else "FAIL")
    +++ " (high_conf=" +++ showNat (length high) +++ ")" in
  let '(ev, w') := writeEvidence ctx (evidenceUriFor (acId ac)) evidenceText w in
  Some (mkResult ac (if pass_ then pass else fail)
                 (if pass_ then "No high-confidence contradictions detected."
                  else "Potential contradictions detected.")
                 EvAiJudged ev, w').

Definition ConsistencySimpleCrossCheckValidator : ValidatorAdapter :=
  {| id := "consistency.simpleCrossCheck";
     supportedTypes := [consistency];
     canValidate := consistency_canValidate;
     validate := consistency_validate |}.

(** ** Provenance: required fields *)

(** The record [map] built from the context's signals. *)
Definition signalMap (sig : ProvenanceSignals) : list (string * bool) :=
  [ ("inputs.enumerated", inputsEnumerated sig);
    ("tooling.recorded", toolingRecorded sig);
    ("agentActions.logged", agentActionsLogged sig);
    ("artifactHashes.recorded", artifactHashesRecorded sig);
    ("dependencies.recorded", dependenciesRecorded sig);
    ("parameters.recorded", parametersRecorded sig);
    ("attestation.signed", attestationSigned sig) ].

(** The members an object literal inherits from [Object.prototype]; each
    is a function, or the prototype itself for [__proto__], hence truthy. *)
Definition objectPrototypeNames : list string :=
  [ "constructor"; "hasOwnProperty"; "isPrototypeOf"; "propertyIsEnumerable";
    "toLocaleString"; "toString"; "valueOf"; "__proto__";
    "__defineGetter__"; "__defineSetter__"; "__lookupGetter__"; "__lookupSetter__" ].

Definition inherited (r : string) : bool := existsb (String.eqb r) objectPrototypeNames.

(** [!map[r]]: an own key reads its flag, an inherited name reads the
    inherited member, any other name reads [undefined]. *)
Definition signalMissing (map_ : list (string * bool)) (r : string) : bool :=
  match getKey map_ r with
  | Some b => negb b
  | None => negb (inherited r)
  end.

Definition provenance_canValidate (ac : AcceptanceCriterionSpec) (_ : VCCSpec)
           (ctx : RunContext) : option bool :=
  Some (match require (rule ac), provenanceSignals ctx with
        | Some _, Some _ => true
        | _, _ => false
        end).

Definition provenance_validate (ac : AcceptanceCriterionSpec) (_ : VCCSpec)
           (ctx : RunContext) (w : Written) : option (ValidationResult * Written) :=
  let required_ := orEmpty (require (rule ac)) in
  match provenanceSignals ctx with
  | None =>
    let evidenceText :=
      "FAIL: provenanceSignals missing in RunContext; cannot validate required provenance." in
    let '(ev, w') := writeEvidence ctx (evidenceUriFor (acId ac)) evidenceText w in
    Some (mkResult ac fail
                   "Provenance signals missing; cannot validate required provenance policy."
                   EvAuto ev, w')
  | Some sig =>
    let map_ := signalMap sig in
    let missing := filter (signalMissing map_) required_ in
    let pass_ := (length missing =? 0)%nat in
    let evidenceText :=
      if pass_
      then "PASS: All required provenance requirements are satisfied." +++ nl
           +++ "Required: " +++ join ", " required_
      else "FAIL: Missing provenance requirements." +++ nl
           +++ "Required: " +++ join ", " required_ +++ nl
           +++ "Missing: " +++ join ", " missing in
    let '(ev, w') := writeEvidence ctx (evidenceUriFor (acId ac)) evidenceText w in
    Some (mkResult ac (if pass_ then pass else fail)
                   (if pass_ then "Provenance policy satisfied."
                    else "Provenance policy missing required signals.")
                   EvAuto ev, w')
  end.

Definition ProvenanceRequiredFieldsValidator : ValidatorAdapter :=
  {| id := "provenance.requiredFields";
     supportedTypes := [provenance];
     canValidate := provenance_canValidate;
     validate := provenance_validate |}.

(** ** Rubric: AI judge *)

(** [`${x}`] for a string that may be [undefined]. *)
Definition showOpt (o : option string) : string :=
  match o with
  | Some s => s
  | None => "undefined"
  end.

(** [x ?? "(none)"] in a template. *)
Definition orNone (o : option string) : string :=
  match o with
  | Some s => s
  | None => "(none)"
  end.

Definition rubric_canValidate (ac : AcceptanceCriterionSpec) (spec_ : VCCSpec)
           (_ : RunContext) : option bool :=
  Some (match rubricRef (rule ac) with
        | None => false
        | Some r =>
          if negb (truthy r) then false
          else existsb (fun x => String.eqb (rubricId x) r) (orEmpty (rubrics spec_))
        end).

Definition rubric_passThreshold (ac : AcceptanceCriterionSpec) : Q :=
  match rulePassThreshold (rule ac) with
  | Some q => q
  | None => 4
  end.

(** [(spec.rubrics ?? []).find(r => r.rubricId === rubricRef)]. *)
Definition rubric_resolve (ac : AcceptanceCriterionSpec) (spec_ : VCCSpec)
  : option RubricSpec :=
  match rubricRef (rule ac) with
  | None => None
  | Some r => find (fun x => String.eqb (rubricId x) r) (orEmpty (rubrics spec_))
  end.

(** [rubric?.text ?? `Rubric ${rubricRef} not found in spec.`]. *)
Definition rubric_text (ac : AcceptanceCriterionSpec) (spec_ : VCCSpec) : string :=
  match rubric_resolve ac spec_ with
  | Some r =>
    match text r with
    | Some t => t
    | None => "Rubric " +++ showOpt (rubricRef (rule ac)) +++ " not found in spec."
    end
  | None => "Rubric " +++ showOpt (rubricRef (rule ac)) +++ " not found in spec."
  end.

(** [(ac.targetArtifacts ?? [])[0]]. *)
Definition rubric_target (ac : AcceptanceCriterionSpec) : option ArtifactId :=
  hd_error (targetArtifacts ac).

(** [target ? await safeReadText(ctx, target) : ""]. *)
Definition rubric_content (ac : AcceptanceCriterionSpec) (ctx : RunContext)
           (w : Written) : option (string * Written) :=
  match rubric_target ac with
  | Some target => if truthy target then safeReadText ctx target w else Some ("", w)
  | None => Some ("", w)
  end.

(** The argument [validate] builds for the judge. *)
Definition rubric_judgeArgs (ac : AcceptanceCriterionSpec) (spec_ : VCCSpec)
           (content_ : string) : AiJudgeArgs :=
  {| rubricText := rubric_text ac spec_;
     content := content_;
     judgePassThreshold := rubric_passThreshold ac;
     judgeAcId := acId ac |}.

Definition rubric_validate (ac : AcceptanceCriterionSpec) (spec_ : VCCSpec)
           (ctx : RunContext) (w : Written) : option (ValidationResult * Written) :=
  let rubricRef_ := rubricRef (rule ac) in
  let passThreshold_ := rubric_passThreshold ac in
  let target := rubric_target ac in
  match rubric_content ac ctx w with
  | None => None
  | Some (content_, w1) =>
    match aiJudge ctx with
    | None =>
      let evidenceText :=
        "SKIP: No aiJudge configured in RunContext." +++ nl
        +++ "Rubric=" +++ showOpt rubricRef_ +++ nl
        +++ "passThreshold=" +++ numberToString rt passThreshold_ +++ nl
        +++ "Target=" +++ orNone target +++ nl
        +++ "To enable: provide RunContext.aiJudge(args) that returns {score,rationale,model?}." in
      let '(ev, w2) := writeEvidence ctx (evidenceUriFor (acId ac)) evidenceText w1 in
      Some (mkResult ac skip "AI rubric judge not configured; skipped." EvAiJudged ev, w2)
    | Some judge =>
      let judged := judge (rubric_judgeArgs ac spec_ content_) in
      let pass_ := Qle_bool passThreshold_ (score judged) in
      let evidenceText :=
        (if pass_ then "PASS" else "FAIL") +++ ": AI rubric evaluation." +++ nl
        +++ "Rubric=" +++ showOpt rubricRef_ +++ nl
        +++ "passThreshold=" +++ numberToString rt passThreshold_ +++ nl
        +++ "score=" +++ numberToString rt (score judged) +++ nl
        +++ "model=" +++ (match model judged with Some m => m | None => "(unspecified)" end)
        +++ nl +++ "rationale:" +++ nl +++ rationale judged +++ nl
        +++ "Target=" +++ orNone target in
      let '(ev, w2) := writeEvidence ctx (evidenceUriFor (acId ac)) evidenceText w1 in
      Some (mkResult ac (if pass_ then pass else fail)
                     (if pass_ then "Rubric evaluation passed."
                      else "Rubric evaluation failed.")
                     EvAiJudged ev, w2)
    end
  end.

Definition RubricAiJudgeValidator : ValidatorAdapter :=
  {| id := "rubric.aiJudge";
     supportedTypes := [rubric; consistency];
     canValidate := rubric_canValidate;
     validate := rubric_validate |}.

(** * 3) Registry builder

    The JSON Schema validator is made by a factory and is not part of the
    default registry; it is modelled apart, as [JsonSchemaValidator]. *)

Definition buildDefaultRegistry : AdapterRegistry :=
  {| validators :=
       [ StructureRequiredSectionsValidator;
         TraceabilityCitationCoverageValidator;
         ConsistencySimpleCrossCheckValidator;
         ProvenanceRequiredFieldsValidator;
         RubricAiJudgeValidator ] |}.


(** What [validate] records for the target [a]: the counts over the
    chunks of its text and their quotient, which is at most 1 when the
    counts are integers a double holds exactly. *)
Definition coverageRecord (spec_ : VCCSpec) (ctx : RunContext) (patternSource : string)
           (a : ArtifactId) (x : ArtifactCoverage) : Prop :=
  exists text_,
    readArtifactText spec_ ctx a = Some text_
    /\ covArtifactId x = a
    /\ cited x = length (filter (isCited patternSource) (sentencesOf text_))
    /\ total x = Nat.max 1 (length (sentencesOf text_))
    /\ (1 <= total x)%nat
    /\ (cited x <= total x)%nat
    /\ coverage x = divide (Z.of_nat (cited x)) (Z.of_nat (total x))
    /\ 0 <= coverage x
    /\ ((Z.of_nat (total x) < 2 ^ 53)%Z -> coverage x <= 1).

End Validators.


(** * Run Until Correct

    The loop of the README:
<<
  for (let t = 0; t < spec.resourceConstraints.maxIterations; t++) {
    const failing = await evaluateMustCriteria(spec, outputs);
    if (failing.length === 0) return SUCCESS;
    if (isStagnant(failing, history)) return FAILURE;
    outputs = await refine(outputs, failing);
  }
  return FAILURE;
>>
    [evaluateMustCriteria], [isStagnant] and [refine] are not part of the
    repository and are parameters; [isStagnant] may update the history it
    is given. *)

Inductive Verdict := SUCCESS | FAILURE.

(** The statement through which a run leaves the loop: the [return
    SUCCESS] of pass [t], the [return FAILURE] of the stagnation test of
    pass [t], or the [return FAILURE] that follows the loop, once [t <
    maxIterations] is false (the exhaustion of the passes, [max_passes]
    in the specification). *)
Inductive Exit :=
  | SuccessAt (t : nat)
  | StagnantAt (t : nat)
  | LoopEnd.

Definition verdictOf (e : Exit) : Verdict :=
  match e with
  | SuccessAt _ => SUCCESS
  | StagnantAt _ => FAILURE
  | LoopEnd => FAILURE
  end.

(** The number of values [t = 0, 1, ...] with [t < maxIterations]; none
    when [maxIterations] is [undefined]. *)
Definition passesAllowed (rc : ResourceConstraints) : nat :=
  match maxIterations rc with
  | Some m => Z.to_nat (Qceiling m)
  | None => 0%nat
  end.

Section RunUntilCorrect.

Variables Outputs History : Type.
Variable evaluateMustCriteria : VCCSpec -> Outputs -> list string.
Variable isStagnant : list string -> History -> bool * History.
Variable refine : Outputs -> list string -> Outputs.

(** The loop with [n] passes left, at counter [t]. *)
Fixpoint loop (spec_ : VCCSpec) (n t : nat) (outputs : Outputs) (history : History)
  : Exit :=
  match n with
  | O => LoopEnd
  | S n' =>
    let failing := evaluateMustCriteria spec_ outputs in
    if (length failing =? 0)%nat then SuccessAt t
    else
      let '(stagnant, history') := isStagnant failing history in
      if stagnant then StagnantAt t
      else loop spec_ n' (S t) (refine outputs failing) history'
  end.

(** [None] is the [TypeError] of reading [maxIterations] on an absent
    [resourceConstraints]. *)
Definition runUntilCorrect (spec_ : VCCSpec) (outputs : Outputs) (history : History)
  : option Exit :=
  match resourceConstraints spec_ with
  | None => None
  | Some rc => Some (loop spec_ (passesAllowed rc) 0%nat outputs history)
  end.

(** One pass that neither succeeds nor stagnates. *)
Definition passOn (spec_ : VCCSpec) (st : Outputs * History) : Outputs * History :=
  let failing := evaluateMustCriteria spec_ (fst st) in
  (refine (fst st) failing, snd (isStagnant failing (snd st))).

(** The outputs and history at the start of pass [t], were every earlier
    pass to go on. *)
Fixpoint stateAt (spec_ : VCCSpec) (t : nat) (st : Outputs * History)
  : Outputs * History :=
  match t with
  | O => st
  | S t' => stateAt spec_ t' (passOn spec_ st)
  end.

(** The failing-MUST set evaluated in pass [t]. *)
Definition failingAt (spec_ : VCCSpec) (t : nat) (st : Outputs * History) : list string :=
  evaluateMustCriteria spec_ (fst (stateAt spec_ t st)).

Definition stagnantAt (spec_ : VCCSpec) (t : nat) (st : Outputs * History) : bool :=
  fst (isStagnant (failingAt spec_ t st) (snd (stateAt spec_ t st))).

(** Pass [t] goes on to the next test of the loop bound. *)
Definition goesOn (spec_ : VCCSpec) (st : Outputs * History) (t : nat) : Prop :=
  failingAt spec_ t st <> [] /\ stagnantAt spec_ t st = false.

(** Pass [t] is made: the bound admits it and every earlier pass went on. *)
Definition reached (spec_ : VCCSpec) (n : nat) (st : Outputs * History) (t : nat) : Prop :=
  (t < n)%nat /\ forall j, (j < t)%nat -> goesOn spec_ st j.

End RunUntilCorrect.

Arguments loop {Outputs History}.
Arguments runUntilCorrect {Outputs History}.
Arguments passOn {Outputs History}.
Arguments stateAt {Outputs History}.
Arguments failingAt {Outputs History}.
Arguments stagnantAt {Outputs History}.
Arguments goesOn {Outputs History}.
Arguments reached {Outputs History}.

(** * The pass at the level of references

    The contract the caller passes is an object graph in the JavaScript
    heap, and [specIntegrityPass] writes to objects: it assigns
    properties and pushes onto arrays.  This module models the heap, the
    deep copy, and every write of the pass, to state what the pass leaves
    untouched.  The checks that only read the contract and push issues
    write nothing to it and are left out. *)

Module Refs.

Definition loc := nat.

Inductive Val :=
  | VUndefined
  | VNull
  | VBool (b : bool)
  | VNum (q : Q)
  | VStr (s : string)
  | VRef (l : loc).

Inductive Obj :=
  | OObject (props : list (string * Val))
  | OArray (elems : list Val).

(** A heap is the list of its objects; a reference is an index, and
    allocation appends. *)
Definition Heap := list Obj.

Definition valsOf (o : Obj) : list Val :=
  match o with
  | OObject props => map snd props
  | OArray elems => elems
  end.

(** ** [JSON.stringify] and [JSON.parse] *)

#[local] Unset Elimination Schemes.

Inductive Json :=
  | JNull
  | JBool (b : bool)
  | JNum (q : Q)
  | JStr (s : string)
  | JArr (items : list Json)
  | JObj (members : list (string * Json)).

#[local] Set Elimination Schemes.

(** [traverse f xs]: apply [f] to each element, failing when one fails. *)
Fixpoint traverse {A B} (f : A -> option B) (xs : list A) : option (list B) :=
  match xs with
  | [] => Some []
  | x :: rest =>
    match f x, traverse f rest with
    | Some y, Some ys => Some (y :: ys)
    | _, _ => None
    end
  end.

(** [JSON.stringify]: [None] is the [TypeError] of a circular structure.
    A path through more objects than the heap holds repeats one, so the
    fuel [S (length h)] is exhausted exactly on cycles.  A property whose
    value is [undefined] is skipped; an [undefined] array item becomes
    [null]. *)
Fixpoint stringifyFuel (fuel : nat) (h : Heap) (v : Val) : option Json :=
  match fuel with
  | O => None
  | S fuel' =>
    match v with
    | VUndefined => None
    | VNull => Some JNull
    | VBool b => Some (JBool b)
    | VNum q => Some (JNum q)
    | VStr s => Some (JStr s)
    | VRef l =>
      match nth_error h l with
      | None => None
      | Some (OArray elems) =>
        option_map JArr
          (traverse (fun e => match e with
                              | VUndefined => Some JNull
                              | _ => stringifyFuel fuel' h e
                              end) elems)
      | Some (OObject props) =>
        option_map JObj
          (traverse (fun kv => option_map (pair (fst kv)) (stringifyFuel fuel' h (snd kv)))
                    (filter (fun kv => match snd kv with
                                       | VUndefined => false
                                       | _ => true
                                       end) props))
      end
    end
  end.

Definition stringify (h : Heap) (v : Val) : option Json :=
  stringifyFuel (S (length h)) h v.

(** Parse the items of a list one after the other, threading the heap. *)
Fixpoint parseAll {J V} (f : J -> Heap -> V * Heap) (js : list J) (h : Heap)
  : list V * Heap :=
  match js with
  | [] => ([], h)
  | j0 :: rest =>
    let '(v, h1) := f j0 h in
    let '(vs, h2) := parseAll f rest h1 in
    (v :: vs, h2)
  end.

(** [JSON.parse]: every array and object of the text is a new object of
    the heap. *)
Fixpoint parse (j : Json) (h : Heap) : Val * Heap :=
  match j with
  | JNull => (VNull, h)
  | JBool b => (VBool b, h)
  | JNum q => (VNum q, h)
  | JStr s => (VStr s, h)
  | JArr items =>
    let '(vs, h1) := parseAll parse items h in
    (VRef (length h1), h1 ++ [OArray vs])
  | JObj members =>
    let '(kvs, h1) :=
      parseAll (fun m h' => let '(v, h'') := parse (snd m) h' in ((fst m, v), h''))
               members h in
    (VRef (length h1), h1 ++ [OObject kvs])
  end.

(** [deepClone(x) = JSON.parse(JSON.stringify(x))]. *)
Definition deepClone (h : Heap) (x : Val) : option (Val * Heap) :=
  match stringify h x with
  | Some j => Some (parse j h)
  | None => None
  end.

(** ** Reads and writes *)

Fixpoint lookup (k : string) (props : list (string * Val)) : Val :=
  match props with
  | [] => VUndefined
  | (k', v) :: rest => if String.eqb k' k then v else lookup k rest
  end.

Fixpoint assign (k : string) (v : Val) (props : list (string * Val))
  : list (string * Val) :=
  match props with
  | [] => [(k, v)]
  | (k', v') :: rest =>
    if String.eqb k' k then (k', v) :: rest else (k', v') :: assign k v rest
  end.

(** [o[k]]: [None] is the [TypeError] of reading a property of
    [undefined] or [null]. *)
Definition getProp (h : Heap) (o : Val) (k : string) : option Val :=
  match o with
  | VUndefined | VNull => None
  | VRef l =>
    match nth_error h l with
    | Some (OObject props) => Some (lookup k props)
    | _ => Some VUndefined
    end
  | _ => Some VUndefined
  end.

(** The items of an array; [None] when the value is not an array. *)
Definition getElems (h : Heap) (o : Val) : option (list Val) :=
  match o with
  | VRef l =>
    match nth_error h l with
    | Some (OArray elems) => Some elems
    | _ => None
    end
  | _ => None
  end.

Fixpoint update (l : loc) (f : Obj -> Obj) (h : Heap) : Heap :=
  match h, l with
  | [], _ => []
  | o :: rest, O => f o :: rest
  | o :: rest, S l' => o :: update l' f rest
  end.

(** [o[k] = v]. *)
Definition setProp (h : Heap) (o : Val) (k : string) (v : Val) : option Heap :=
  match o with
  | VUndefined | VNull => None
  | VRef l =>
    Some (update l (fun obj => match obj with
                               | OObject props => OObject (assign k v props)
                               | OArray elems => OArray elems
                               end) h)
  | _ => Some h
  end.

(** [arr.push(v)]. *)
Definition push (h : Heap) (arr : Val) (v : Val) : option Heap :=
  match arr with
  | VRef l =>
    match nth_error h l with
    | Some (OArray _) =>
      Some (update l (fun obj => match obj with
                                 | OArray elems => OArray (elems ++ [v])
                                 | OObject props => OObject props
                                 end) h)
    | _ => None
    end
  | _ => None
  end.

(** ** Programs over the heap *)

(** The statements of the pass that touch the heap, with the rest of the
    program as their continuation. *)
Inductive Prog (A : Type) : Type :=
  | Ret (a : A)
  | Throw
  | Clone (x : Val) (k : Val -> Prog A)
  | Get (o : Val) (name : string) (k : Val -> Prog A)
  | Elems (o : Val) (k : list Val -> Prog A)
  | IsArray (o : Val) (k : bool -> Prog A)
  | Set_ (o : Val) (name : string) (v : Val) (k : Prog A)
  | Push (arr : Val) (v : Val) (k : Prog A)
  | New (obj : Obj) (k : Val -> Prog A).

Arguments Ret {A}.
Arguments Throw {A}.
Arguments Clone {A}.
Arguments Get {A}.
Arguments Elems {A}.
Arguments IsArray {A}.
Arguments Set_ {A}.
Arguments Push {A}.
Arguments New {A}.

Fixpoint bind {A B} (p : Prog A) (f : A -> Prog B) : Prog B :=
  match p with
  | Ret a => f a
  | Throw => Throw
  | Clone x k => Clone x (fun v => bind (k v) f)
  | Get o name k => Get o name (fun v => bind (k v) f)
  | Elems o k => Elems o (fun vs => bind (k vs) f)
  | IsArray o k => IsArray o (fun b => bind (k b) f)
  | Set_ o name v k => Set_ o name v (bind k f)
  | Push arr v k => Push arr v (bind k f)
  | New obj k => New obj (fun v => bind (k v) f)
  end.

Notation "x <- p ;; q" := (bind p (fun x => q))
  (at level 61, p at next level, right associativity).

(** [Some a]: the program ran to its end; [None]: it threw. *)
Fixpoint run {A} (p : Prog A) (h : Heap) : option A * Heap :=
  match p with
  | Ret a => (Some a, h)
  | Throw => (None, h)
  | Clone x k =>
    match deepClone h x with
    | Some (v, h') => run (k v) h'
    | None => (None, h)
    end
  | Get o name k =>
    match getProp h o name with
    | Some v => run (k v) h
    | None => (None, h)
    end
  | Elems o k =>
    match getElems h o with
    | Some vs => run (k vs) h
    | None => (None, h)
    end
  | IsArray o k => run (k (isSome (getElems h o))) h
  | Set_ o name v k =>
    match setProp h o name v with
    | Some h' => run k h'
    | None => (None, h)
    end
  | Push arr v k =>
    match push h arr v with
    | Some h' => run k h'
    | None => (None, h)
    end
  | New obj k => run (k (VRef (length h))) (h ++ [obj])
  end.

(** ** The writes of the pass *)

Definition truthyVal (v : Val) : bool :=
  match v with
  | VUndefined | VNull => false
  | VBool b => b
  | VNum q => negb (Qeq_bool q 0)
  | VStr s => truthy s
  | VRef _ => true
  end.

(** [x ?? []], allocating the empty array when it is needed. *)
Definition orNewArray (v : Val) : Prog Val :=
  match v with
  | VUndefined | VNull => New (OArray []) (fun a => Ret a)
  | _ => Ret v
  end.

(** [spec[name] = spec[name] ?? []]. *)
Definition defaultArray (spec_ : Val) (name : string) : Prog unit :=
  v <- Get spec_ name (fun v => Ret v) ;;
  a <- orNewArray v ;;
  Set_ spec_ name a (Ret tt).

(** The writes of the loop over [spec.artifacts]:
    [if (!Array.isArray(a.dependsOn)) a.dependsOn = []], skipped by the
    [continue] of an artifact without identifier. *)
Fixpoint repairDependsOn (arts : list Val) : Prog unit :=
  match arts with
  | [] => Ret tt
  | a :: rest =>
    Get a "artifactId" (fun id_ =>
      match id_ with
      | VStr s =>
        if truthy s
        then Get a "dependsOn" (fun d =>
               IsArray d (fun isArr =>
                 if isArr then repairDependsOn rest
                 else New (OArray []) (fun e =>
                        Set_ a "dependsOn" e (repairDependsOn rest))))
        else repairDependsOn rest
      | _ => repairDependsOn rest
      end)
  end.

(** [xs.map(x => x[name])]. *)
Fixpoint mapGet (name : string) (xs : list Val) : Prog (list Val) :=
  match xs with
  | [] => Ret []
  | x :: rest =>
    Get x name (fun v => vs <- mapGet name rest ;; Ret (v :: vs))
  end.

(** [xs.filter(test)]. *)
Fixpoint filterM (test : Val -> Prog bool) (xs : list Val) : Prog (list Val) :=
  match xs with
  | [] => Ret []
  | x :: rest =>
    b <- test x ;;
    vs <- filterM test rest ;;
    Ret (if b then x :: vs else vs)
  end.

(** [xs.some(test)]. *)
Fixpoint someM (test : Val -> Prog bool) (xs : list Val) : Prog bool :=
  match xs with
  | [] => Ret false
  | x :: rest =>
    b <- test x ;;
    if b then Ret true else someM test rest
  end.

(** The strings among the values: the members of [new Set(...)] that a
    string can match. *)
Definition stringsOf (vs : list Val) : list string :=
  flat_map (fun v => match v with VStr s => [s] | _ => [] end) vs.

(** [(x ?? "")] as the receiver of a string method; another value has no
    such method. *)
Definition orEmptyString (v : Val) : Prog string :=
  match v with
  | VUndefined | VNull => Ret ""
  | VStr s => Ret s
  | _ => Throw
  end.

Definition newRubric (rubricId_ : string) (anchors_ : list (string * string)) : Prog Val :=
  New (OArray [VNum 1; VNum 2; VNum 3; VNum 4; VNum 5]) (fun scale_ =>
  New (OObject (map (fun kv => (fst kv, VStr (snd kv))) anchors_)) (fun anchorsObj =>
  New (OObject [("rubricId", VStr rubricId_); ("scale", scale_);
                ("anchors", anchorsObj); ("passThreshold", VNum 4)])
      (fun r => Ret r))).

Definition injectDefaultRubrics (spec_ : Val) : Prog unit :=
  r0 <- Get spec_ "rubrics" (fun v => Ret v) ;;
  rubrics_ <- match r0 with
              | VUndefined | VNull =>
                New (OArray []) (fun a => Set_ spec_ "rubrics" a (Ret a))
              | _ => Ret r0
              end ;;
  items <- Elems rubrics_ (fun vs => Ret vs) ;;
  ids <- mapGet "rubricId" items ;;
  let existing := newSet (stringsOf ids) in
  _ <- (if negb (has existing "RUBRIC-OVERALL-v1")
        then r <- newRubric "RUBRIC-OVERALL-v1" (anchors rubricOverall) ;;
             Push rubrics_ r (Ret tt)
        else Ret tt) ;;
  (if negb (has existing "RUBRIC-CLARITY-v1")
   then r <- newRubric "RUBRIC-CLARITY-v1" (anchors rubricClarity) ;;
        Push rubrics_ r (Ret tt)
   else Ret tt).

Definition isRequired (a : Val) : Prog bool :=
  Get a "required" (fun v => Ret (truthyVal v)).

Definition looksLikeSpec (a : Val) : Prog bool :=
  kv <- Get a "kind" (fun v => Ret v) ;;
  k <- orEmptyString kv ;;
  sv <- Get a "subtype" (fun v => Ret v) ;;
  st <- orEmptyString sv ;;
  Ret (includes (toLowerCase k) "spec"
       || includes (toLowerCase st) "requirements"
       || includes (toLowerCase st) "protocol").

Definition isNarrative (a : Val) : Prog bool :=
  fv <- Get a "formats" (fun v => Ret v) ;;
  fs <- Elems fv (fun vs => Ret vs) ;;
  someM (fun f =>
    mv <- Get f "mediaType" (fun v => Ret v) ;;
    m <- orEmptyString mv ;;
    Ret (startsWith m "text/" || includes m "markdown")) fs.

(** [[xs[0].artifactId]]. *)
Definition firstArtifactId (xs : list Val) : Prog (list Val) :=
  match xs with
  | [] => Throw
  | x :: _ => Get x "artifactId" (fun v => Ret [v])
  end.

Definition findLikelySpecArtifacts (arts : list Val) : Prog (list Val) :=
  required_ <- filterM isRequired arts ;;
  match required_ with
  | [] => firstArtifactId arts
  | _ =>
    likely <- filterM looksLikeSpec required_ ;;
    ids <- mapGet "artifactId" likely ;;
    match ids with
    | [] => firstArtifactId required_
    | _ => Ret ids
    end
  end.

Definition findNarrativeArtifacts (arts : list Val) : Prog (list Val) :=
  required_ <- filterM isRequired arts ;;
  match required_ with
  | [] => firstArtifactId arts
  | _ =>
    narrative <- filterM isNarrative required_ ;;
    ids <- mapGet "artifactId" narrative ;;
    match ids with
    | [] => mapGet "artifactId" required_
    | _ => Ret ids
    end
  end.

(** [spec.packaging.flatMap(p => p.inputs)]: an array is spliced in, any
    other value is kept as one item. *)
Fixpoint flatInputs (ps : list Val) : Prog (list Val) :=
  match ps with
  | [] => Ret []
  | p :: rest =>
    Get p "inputs" (fun i =>
      IsArray i (fun isArr =>
        here <- (if isArr then Elems i (fun vs => Ret vs) else Ret [i]) ;;
        more <- flatInputs rest ;;
        Ret (here ++ more)))
  end.

(** The object literal of a default criterion; [ruleProps] may hold
    references (the provenance rule shares [provenancePolicy.require]). *)
Definition newCriterion (acId_ : string) (targets : list Val) (type_ severity_ : string)
           (ruleProps : list (string * Val)) (evidenceType_ : string)
  : Prog Val :=
  New (OArray targets) (fun targetsArr =>
  New (OObject ruleProps) (fun ruleObj =>
  New (OObject [("required", VBool true); ("evidenceType", VStr evidenceType_);
                ("producedArtifact", VStr ("E-" +++ acId_))]) (fun evidenceObj =>
  New (OObject [("acId", VStr acId_); ("targetArtifacts", targetsArr);
                ("type", VStr type_); ("severity", VStr severity_);
                ("rule", ruleObj); ("evidence", evidenceObj)])
      (fun ac => Ret ac)))).

Definition injectDefaultAcceptance (spec_ : Val) (pattern : option string) : Prog unit :=
  acc <- Get spec_ "acceptance" (fun v => Ret v) ;;
  accItems <- Elems acc (fun vs => Ret vs) ;;
  ids <- mapGet "acId" accItems ;;
  let existing := newSet (stringsOf ids) in
  artsV <- Get spec_ "artifacts" (fun v => Ret v) ;;
  arts <- Elems artsV (fun vs => Ret vs) ;;
  _ <- (if negb (has existing "AC-UNIV-STRUCT-1")
        then targets <- findLikelySpecArtifacts arts ;;
             sections <- New (OArray [VStr "Scope"; VStr "Assumptions"; VStr "Risks";
                                      VStr "Acceptance Criteria"]) (fun a => Ret a) ;;
             ac <- newCriterion "AC-UNIV-STRUCT-1" targets "structure" "must"
                                [("requiredSections", sections)] "auto" ;;
             Push acc ac (Ret tt)
        else Ret tt) ;;
  _ <- (if negb (has existing "AC-UNIV-TRACE-1")
        then targets <- findNarrativeArtifacts arts ;;
             ac <- newCriterion "AC-UNIV-TRACE-1" targets "traceability" "should"
                     [("description",
                       VStr "Key claims should be backed by citations or explicit 'UNSOURCED/INFERENCE' labels.");
                      ("minCitationCoverage", VNum (divide 6 10));
                      ("citationPattern",
                       VStr (match pattern with
                             | Some p => p
                             | None => defaultCitationPattern
                             end))] "auto" ;;
             Push acc ac (Ret tt)
        else Ret tt) ;;
  _ <- (if negb (has existing "AC-UNIV-CONSIST-1")
        then required_ <- filterM isRequired arts ;;
             targets <- mapGet "artifactId" required_ ;;
             ac <- newCriterion "AC-UNIV-CONSIST-1" targets "consistency" "should"
                     [("description",
                       VStr "Artifacts should not contradict each other on defined scope and decisions.")]
                     "ai-judged" ;;
             Push acc ac (Ret tt)
        else Ret tt) ;;
  (if negb (has existing "AC-UNIV-PROV-1")
   then pk <- Get spec_ "packaging" (fun v => Ret v) ;;
        ps <- Elems pk (fun vs => Ret vs) ;;
        targets <- flatInputs ps ;;
        policy <- Get spec_ "provenancePolicy" (fun v => Ret v) ;;
        req <- Get policy "require" (fun v => Ret v) ;;
        ac <- newCriterion "AC-UNIV-PROV-1" targets "provenance" "must"
                           [("require", req)] "auto" ;;
        Push acc ac (Ret tt)
   else Ret tt).

(** The pass: the deep copy, the early exit on a contract without
    artifacts, the normalization of the arrays, the repair of
    [dependsOn], the injection of the defaults.  The value returned is
    the reference [spec] that the result (or nothing, on a raise) hands
    to the caller. *)
Definition specIntegrityPass (inputSpec : Val) (inject : bool) (pattern : option string)
  : Prog Val :=
  Clone inputSpec (fun spec_ =>
    artsV <- Get spec_ "artifacts" (fun v => Ret v) ;;
    if negb (truthyVal artsV) then Throw
    else
      arts <- Elems artsV (fun vs => Ret vs) ;;
      match arts with
      | [] => Throw
      | _ =>
        _ <- defaultArray spec_ "relationships" ;;
        _ <- defaultArray spec_ "rubrics" ;;
        _ <- defaultArray spec_ "gates" ;;
        _ <- repairDependsOn arts ;;
        _ <- (if inject
              then _ <- injectDefaultRubrics spec_ ;;
                   injectDefaultAcceptance spec_ pattern
              else Ret tt) ;;
        Ret spec_
      end).

(** ** What the pass may touch *)

(** A value that does not point below [n0]. *)
Definition fresh (n0 : nat) (v : Val) : Prop :=
  match v with
  | VRef l => (n0 <= l)%nat
  | _ => True
  end.

(** The heap [h] extends [h0] and keeps it as it was, and no object
    allocated after [h0] points into it. *)
Definition extends (h0 h : Heap) : Prop :=
  firstn (length h0) h = h0
  /\ forall l obj, (length h0 <= l)%nat -> nth_error h l = Some obj ->
                   Forall (fresh (length h0)) (valsOf obj).

(** [l] is reachable from [v] through the properties and items of the
    objects of [h]. *)
Inductive reach (h : Heap) : Val -> loc -> Prop :=
  | reach_here : forall l, reach h (VRef l) l
  | reach_step : forall l obj v l',
      nth_error h l = Some obj -> In v (valsOf obj) -> reach h v l' ->
      reach h (VRef l) l'.

(** A program all of whose writes go to fresh objects, and whose result
    satisfies [Q]. *)
Inductive Safe {A} (n0 : nat) (Q : A -> Prop) : Prog A -> Prop :=
  | Safe_Ret : forall a, Q a -> Safe n0 Q (Ret a)
  | Safe_Throw : Safe n0 Q Throw
  | Safe_Clone : forall x k,
      (forall v, fresh n0 v -> Safe n0 Q (k v)) -> Safe n0 Q (Clone x k)
  | Safe_Get : forall o name k,
      fresh n0 o -> (forall v, fresh n0 v -> Safe n0 Q (k v)) ->
      Safe n0 Q (Get o name k)
  | Safe_Elems : forall o k,
      fresh n0 o -> (forall vs, Forall (fresh n0) vs -> Safe n0 Q (k vs)) ->
      Safe n0 Q (Elems o k)
  | Safe_IsArray : forall o k,
      (forall b, Safe n0 Q (k b)) -> Safe n0 Q (IsArray o k)
  | Safe_Set : forall o name v k,
      fresh n0 o -> fresh n0 v -> Safe n0 Q k -> Safe n0 Q (Set_ o name v k)
  | Safe_Push : forall arr v k,
      fresh n0 arr -> fresh n0 v -> Safe n0 Q k -> Safe n0 Q (Push arr v k)
  | Safe_New : forall obj k,
      Forall (fresh n0) (valsOf obj) ->
      (forall v, fresh n0 v -> Safe n0 Q (k v)) -> Safe n0 Q (New obj k).

(** The heaps a run goes through, the first one included: a run that is
    cut short (an exception in a check that only reads) stops at one of
    them. *)
Fixpoint heaps {A} (p : Prog A) (h : Heap) : list Heap :=
  h :: match p with
       | Ret _ => []
       | Throw => []
       | Clone x k =>
         match deepClone h x with
         | Some (v, h') => heaps (k v) h'
         | None => []
         end
       | Get o name k =>
         match getProp h o name with
         | Some v => heaps (k v) h
         | None => []
         end
       | Elems o k =>
         match getElems h o with
         | Some vs => heaps (k vs) h
         | None => []
         end
       | IsArray o k => heaps (k (isSome (getElems h o))) h
       | Set_ o name v k =>
         match setProp h o name v with
         | Some h' => heaps k h'
         | None => []
         end
       | Push arr v k =>
         match push h arr v with
         | Some h' => heaps k h'
         | None => []
         end
       | New obj k => heaps (k (VRef (length h))) (h ++ [obj])
       end.

(** ** The contract as a JSON document

    The document of a contract of the model: the encoding under which
    the reference-level pass and [specIntegrityPass] can be compared. *)

Definition jsonOfStrings (xs : list string) : Json := JArr (map JStr xs).

Definition member {T} (name : string) (f : T -> Json) (o : option T)
  : list (string * Json) :=
  match o with
  | Some x => [(name, f x)]
  | None => []
  end.

Definition showSeverity (s : Severity) : string :=
  match s with
  | must => "must"
  | should => "should"
  | may => "may"
  end.

Definition showEvidenceType (e : EvidenceType) : string :=
  match e with
  | EvAuto => "auto"
  | EvAiJudged => "ai-judged"
  | EvHuman => "human"
  | EvHybrid => "hybrid"
  end.

Definition jsonOfArtifact (a : ArtifactSpec) : Json :=
  JObj ([("artifactId", JStr (artifactId a)); ("kind", JStr (kind a))]
        ++ member "subtype" JStr (subtype a)
        ++ [("formats",
             JArr (map (fun f => JObj [("mediaType", JStr (mediaType f));
                                       ("uri", JStr (uri f))]) (formats a)));
            ("required", JBool (required a))]
        ++ member "dependsOn" jsonOfStrings (dependsOn a)
        ++ [("owners", jsonOfStrings (owners a))]).

Definition jsonOfRule (r : Rule) : Json :=
  JObj (member "rubricRef" JStr (rubricRef r)
        ++ member "adapter" JStr (adapter r)
        ++ member "requiredSections" jsonOfStrings (requiredSections r)
        ++ member "description" JStr (ruleDescription r)
        ++ member "minCitationCoverage" JNum (minCitationCoverage r)
        ++ member "citationPattern" JStr (citationPattern r)
        ++ member "require" jsonOfStrings (require r)
        ++ member "jsonSchema" JStr (jsonSchema r)
        ++ member "passThreshold" JNum (rulePassThreshold r)).

Definition jsonOfCriterion (ac : AcceptanceCriterionSpec) : Json :=
  JObj [("acId", JStr (acId ac));
        ("targetArtifacts", jsonOfStrings (targetArtifacts ac));
        ("type", JStr (showType (type ac)));
        ("severity", JStr (showSeverity (severity ac)));
        ("rule", jsonOfRule (rule ac));
        ("evidence",
         JObj ([("required", JBool (evRequired (evidence ac)));
                ("evidenceType", JStr (showEvidenceType (evidenceType (evidence ac))))]
               ++ member "producedArtifact" JStr (producedArtifact (evidence ac))))].

Definition jsonOfRubric (r : RubricSpec) : Json :=
  JObj ([("rubricId", JStr (rubricId r));
         ("scale", JArr (map JNum (scale r)));
         ("anchors", JObj (map (fun kv => (fst kv, JStr (snd kv))) (anchors r)));
         ("passThreshold", JNum (passThreshold r))]
        ++ member "text" JStr (text r)).

Definition jsonOfGate (g : GateSpec) : Json :=
  JObj [("gateId", JStr (gateId g));
        ("requiredApprovals",
         JArr (map (fun ra => JObj (member "role" JStr (approvalRole ra)
                                    ++ member "rubricId" JStr (approvalRubricId ra)))
                   (requiredApprovals g)))].

Definition jsonOfSpec (s : VCCSpec) : Json :=
  JObj ([("vccVersion", JStr (vccVersion s));
         ("artifacts", JArr (map jsonOfArtifact (artifacts s)))]
        ++ member "relationships"
             (fun rs => JArr (map (fun r => JObj [("type", JStr (fst (fst r)));
                                                  ("from", JStr (snd (fst r)));
                                                  ("to", JStr (snd r))]) rs))
             (relationships s)
        ++ [("acceptance", JArr (map jsonOfCriterion (acceptance s)))]
        ++ member "rubrics" (fun rs => JArr (map jsonOfRubric rs)) (rubrics s)
        ++ member "gates" (fun gs => JArr (map jsonOfGate gs)) (gates s)
        ++ [("packaging",
             JArr (map (fun p => JObj [("packageId", JStr (packageId p));
                                       ("inputs", jsonOfStrings (inputs p))])
                       (packaging s)));
            ("provenancePolicy",
             JObj [("policyId", JStr (policyId (provenancePolicy s)));
                   ("require", jsonOfStrings (policyRequire (provenancePolicy s)));
                   ("strength", JStr (strength (provenancePolicy s)))])]
        ++ member "resourceConstraints"
             (fun rc => JObj (member "maxIterations" JNum (maxIterations rc)
                              ++ member "maxTimeMs" JNum (maxTimeMs rc)
                              ++ member "maxCostUsd" JNum (maxCostUsd rc)
                              ++ member "stagnationWindow" JNum (stagnationWindow rc)))
             (resourceConstraints s)).

(** Two documents are the same contract when they differ only in the
    order of the members of their objects: [sortMembers] puts the members
    in the order of their keys. *)
Fixpoint insertMember (m : string * Json) (ms : list (string * Json))
  : list (string * Json) :=
  match ms with
  | [] => [m]
  | m' :: rest =>
    if String.leb (fst m) (fst m') then m :: m' :: rest
    else m' :: insertMember m rest
  end.

Fixpoint sortMembers (j : Json) : Json :=
  match j with
  | JArr items => JArr (map sortMembers items)
  | JObj members =>
    JObj (fold_right insertMember []
                     (map (fun m => (fst m, sortMembers (snd m))) members))
  | _ => j
  end.

(** Run the pass on the document [j] loaded in an empty heap, and read
    back the document of the contract it hands over. *)
Definition passOnDocument (j : Json) (inject : bool) (pattern : option string)
  : option Json :=
  let '(inputSpec, h0) := parse j [] in
  match run (specIntegrityPass inputSpec inject pattern) h0 with
  | (Some spec_, h) => stringify h spec_
  | (None, _) => None
  end.

(** ** Induction over documents *)

Section JsonInduction.

Variable P : Json -> Prop.
Hypothesis HNull : P JNull.
Hypothesis HBool : forall b, P (JBool b).
Hypothesis HNum : forall q, P (JNum q).
Hypothesis HStr : forall s, P (JStr s).
Hypothesis HArr : forall items, Forall P items -> P (JArr items).
Hypothesis HObj : forall members, Forall (fun m => P (snd m)) members -> P (JObj members).

Fixpoint Json_induction (j : Json) : P j :=
  match j with
  | JNull => HNull
  | JBool b => HBool b
  | JNum q => HNum q
  | JStr s => HStr s
  | JArr items =>
    HArr items
         ((fix all (js : list Json) : Forall P js :=
             match js with
             | [] => Forall_nil P
             | j0 :: rest => Forall_cons j0 (Json_induction j0) (all rest)
             end) items)
  | JObj members =>
    HObj members
         ((fix all (ms : list (string * Json)) : Forall (fun m => P (snd m)) ms :=
             match ms with
             | [] => Forall_nil _
             | m :: rest => Forall_cons m (Json_induction (snd m)) (all rest)
             end) members)
  end.

End JsonInduction.

(** An object none of whose values points below [n0]. *)
Definition closed (n0 : nat) (obj : Obj) : Prop := Forall (fresh n0) (valsOf obj).

(** What a parsing step does on a heap that holds [n0] objects or more:
    it appends closed objects and returns something that satisfies
    [ok]. *)
Definition appends {J V} (n0 : nat) (ok : V -> Prop) (f : J -> Heap -> V * Heap)
           (j : J) : Prop :=
  forall h, (n0 <= length h)%nat ->
    exists ext, snd (f j h) = h ++ ext /\ ok (fst (f j h)) /\ Forall (closed n0) ext.

(** The nesting depth of a document. *)
Fixpoint depth (j : Json) : nat :=
  match j with
  | JArr items => S (fold_right (fun i m => Nat.max (depth i) m) 0%nat items)
  | JObj members => S (fold_right (fun m n => Nat.max (depth (snd m)) n) 0%nat members)
  | _ => 0%nat
  end.

(** The item-by-item step of [stringifyFuel] on an array and on an
    object. *)
Definition stringifyItem (fuel : nat) (h : Heap) (e : Val) : option Json :=
  match e with
  | VUndefined => Some JNull
  | _ => stringifyFuel fuel h e
  end.

Definition stringifyMember (fuel : nat) (h : Heap) (kv : string * Val)
  : option (string * Json) :=
  option_map (pair (fst kv)) (stringifyFuel fuel h (snd kv)).

Definition defined (kv : string * Val) : bool :=
  match snd kv with
  | VUndefined => false
  | _ => true
  end.

(** Reading back what [parse] has built gives the document parsed,
    whatever is allocated afterwards. *)
Definition readsBack (j : Json) : Prop :=
  forall h more fuel,
    (depth j < fuel)%nat ->
    stringifyFuel fuel (snd (parse j h) ++ more) (fst (parse j h)) = Some j.

End Refs.

(** * Sample data *)

(** A runtime in which a pattern matches as a literal substring; it is
    enough to run the validators on the samples below. *)
Definition literalRuntime : Runtime :=
  {| regexCompiles := fun _ _ => true;
     regexExec := fun source _ s =>
       if includes s source
       then Some {| matchIndex := 0; matched := source; groups := [] |}
       else None;
     regexReplace := fun _ _ s _ => s;
     regexSplit := fun _ s => [s];
     trim := fun s => s;
     numberToString := fun q => showNat (Z.to_nat (Qnum q)) +++ "/" +++ showNat (Pos.to_nat (Qden q));
     toFixed := fun _ q => showNat (Z.to_nat (Qnum q)) +++ "/" +++ showNat (Pos.to_nat (Qden q));
     stringifyMissing := fun m => join ", " (map fst m) |}.

Definition sampleStore : ArtifactStore :=
  {| readText := fun u =>
       if String.eqb u "docs/requirements.md"
       then Some "Scope UNSOURCED"
       else None;
     digest := fun s => s |}.

Definition allSignals : ProvenanceSignals :=
  {| inputsEnumerated := true; toolingRecorded := true; agentActionsLogged := true;
     artifactHashesRecorded := true; dependenciesRecorded := true;
     parametersRecorded := true; attestationSigned := true |}.

Definition sampleCtx : RunContext :=
  {| aiJudge := None; team := []; ctxArtifacts := sampleStore;
     provenanceSignals := Some allSignals |}.

Definition sampleArtifact : ArtifactSpec :=
  {| artifactId := "requirements"; kind := "spec"; subtype := None;
     formats := [{| mediaType := "text/markdown"; uri := "docs/requirements.md" |}];
     required := true; dependsOn := None; owners := ["role:Analyst"] |}.

Definition sampleCriterion : AcceptanceCriterionSpec :=
  {| acId := "AC-1"; targetArtifacts := ["requirements"]; type := structure;
     severity := must;
     rule := {| rubricRef := None; adapter := None;
                requiredSections := Some ["Scope"];
                minCitationCoverage := None; citationPattern := None; require := None;
                jsonSchema := None; rulePassThreshold := None; ruleDescription := None |};
     evidence := {| evRequired := true; evidenceType := EvAuto; producedArtifact := None |} |}.

(** A contract with one required artifact and no packaging step. *)
Definition sampleSpec : VCCSpec :=
  {| vccVersion := "sdlaf.vcc/v1";
     artifacts := [sampleArtifact];
     relationships := None;
     acceptance := [sampleCriterion];
     rubrics := None;
     gates := None;
     packaging := [];
     provenancePolicy := {| policyId := "P-1"; policyRequire := ["inputs.enumerated"];
                            strength := "basic" |};
     resourceConstraints := Some {| maxIterations := Some 5; maxTimeMs := None;
                                     maxCostUsd := None; stagnationWindow := Some 2 |} |}.

Definition sampleRegistry : AdapterRegistry := buildDefaultRegistry literalRuntime.

(** The sample contract as the pass normalizes it. *)
Definition sampleNormalized : VCCSpec :=
  match injected sampleSpec None with
  | Some s => s
  | None => sampleSpec
  end.

Definition emptyRegistry : AdapterRegistry := {| validators := [] |}.

(** What the pass returns for the sample contract with the default
    registry. *)
Definition sampleResult : IntegrityResult :=
  match specIntegrityPass sampleSpec sampleCtx sampleRegistry None with
  | Returned r => r
  | _ => {| spec := sampleSpec; issues := [];
            normalized := {| artifactIds := []; mustACs := [] |} |}
  end.



(** A judge that scores 5 when it is given some content and 1 when it is
    given none. *)
Definition strictJudge (args : AiJudgeArgs) : AiJudgeScore :=
  {| score := if String.eqb (content args) "" then 1 else 5;
     rationale := "scored on the content received";
     model := None |}.

Definition judgedCtx : RunContext :=
  {| aiJudge := Some strictJudge; team := []; ctxArtifacts := sampleStore;
     provenanceSignals := Some allSignals |}.

(** A rubric criterion on the sample artifact, bound to the default
    rubric the pass injects. *)
Definition rubricCriterion : AcceptanceCriterionSpec :=
  {| acId := "AC-RUBRIC-1"; targetArtifacts := ["requirements"]; type := rubric;
     severity := must;
     rule := {| rubricRef := Some "RUBRIC-OVERALL-v1"; adapter := None;
                requiredSections := None; minCitationCoverage := None;
                citationPattern := None; require := None; jsonSchema := None;
                rulePassThreshold := None; ruleDescription := None |};
     evidence := {| evRequired := true; evidenceType := EvAiJudged;
                    producedArtifact := None |} |}.

(** A run over the sample contract: the outputs are the number of
    refinements made so far, the criterion [AC-1] fails until two
    refinements are made, and nothing ever stagnates. *)
Definition sampleEvaluate (_ : VCCSpec) (refinements : nat) : list string :=
  if (refinements <? 2)%nat then ["AC-1"] else [].

Definition neverStagnant (_ : list string) (h : unit) : bool * unit := (false, h).

Definition sampleRefine (refinements : nat) (_ : list string) : nat := S refinements.

(** The sample contract with a budget of no pass at all, and a contract
    that configures no [maxIterations]. *)
Definition withConstraints (s : VCCSpec) (rc : ResourceConstraints) : VCCSpec :=
  {| vccVersion := vccVersion s; artifacts := artifacts s;
     relationships := relationships s; acceptance := acceptance s;
     rubrics := rubrics s; gates := gates s; packaging := packaging s;
     provenancePolicy := provenancePolicy s;
     resourceConstraints := Some rc |}.

Definition zeroBudget : ResourceConstraints :=
  {| maxIterations := Some 0; maxTimeMs := None; maxCostUsd := None;
     stagnationWindow := None |}.

Definition noBudget : ResourceConstraints :=
  {| maxIterations := None; maxTimeMs := None; maxCostUsd := None;
     stagnationWindow := None |}.

(** Outputs on which every MUST criterion passes. *)
Definition allPass (_ : VCCSpec) (_ : unit) : list string := [].

Definition keepOutputs (o : unit) (_ : list string) : unit := o.

(** A contract with more in it: an artifact without identifier, an
    optional artifact, a packaging step, a rubric and a default criterion
    already present. *)
Definition richSpec : VCCSpec :=
  {| vccVersion := "sdlaf.vcc/v1";
     artifacts :=
       [ {| artifactId := "design"; kind := "document"; subtype := Some "Protocol";
            formats := [{| mediaType := "application/pdf"; uri := "out/design.pdf" |}];
            required := true; dependsOn := None; owners := [] |};
         {| artifactId := "notes"; kind := "notes"; subtype := None;
            formats := [{| mediaType := "text/plain"; uri := "out/notes.txt" |}];
            required := true; dependsOn := Some ["design"]; owners := ["role:Writer"] |};
         {| artifactId := ""; kind := "scratch"; subtype := None;
            formats := []; required := false; dependsOn := None; owners := [] |} ];
     relationships := Some [("informs", "notes", "design")];
     acceptance :=
       [ {| acId := "AC-UNIV-TRACE-1"; targetArtifacts := ["notes"]; type := traceability;
            severity := may; rule := emptyRule;
            evidence := {| evRequired := false; evidenceType := EvHuman;
                           producedArtifact := None |} |} ];
     rubrics := Some [ {| rubricId := "RUBRIC-CLARITY-v1"; scale := [1; 2];
                          anchors := [("1", "poor"); ("2", "fine")];
                          passThreshold := 2; text := Some "Is it clear?" |} ];
     gates := None;
     packaging := [ {| packageId := "bundle"; inputs := ["design"; "notes"] |} ];
     provenancePolicy := {| policyId := "P-2";
                            policyRequire := ["inputs.enumerated"; "tooling.recorded"];
                            strength := "strict" |};
     resourceConstraints := None |}.

(** A signal map in which no signal is true, a context that carries it,
    and a provenance criterion that requires a name no signal has. *)
Definition noSignals : ProvenanceSignals :=
  {| inputsEnumerated := false; toolingRecorded := false; agentActionsLogged := false;
     artifactHashesRecorded := false; dependenciesRecorded := false;
     parametersRecorded := false; attestationSigned := false |}.

Definition unprovenCtx : RunContext :=
  {| aiJudge := None; team := []; ctxArtifacts := sampleStore;
     provenanceSignals := Some noSignals |}.

Definition inheritedNameCriterion : AcceptanceCriterionSpec :=
  acUnivProv [] ["constructor"].

(** * Further notions used by the properties below *)

(** An issue that does not block the pass. *)
Definition isWarning (i : IntegrityIssue) : Prop := issueSeverity i = warning.

(** [id_] is the identifier of a declared artifact of [s]. *)
Definition declared (s : VCCSpec) (id_ : ArtifactId) : Prop :=
  In id_ (map artifactId (artifacts s)).

(** [ref] is the identifier of a rubric of [s]. *)
Definition rubricDeclared (s : VCCSpec) (ref : string) : Prop :=
  exists rb, In rb (orEmpty (rubrics s)) /\ rubricId rb = ref.

(** The criterion [ac] can be scored: the adapter it names is registered,
    or a registered validator that supports its type accepts it. *)
Definition covered (registry : AdapterRegistry) (s : VCCSpec) (ctx : RunContext)
           (ac : AcceptanceCriterionSpec) : Prop :=
  match explicitAdapterOf ac with
  | Some e => exists v, In v (validators registry) /\ id v = e
  | None =>
    exists v, In v (candidates registry ac) /\ canValidate v ac s ctx = Some true
  end.

(** The codes the pass gives to the issues it pushes, by severity. *)
Definition errorCodes : list string :=
  [ "ARTIFACTS_EMPTY"; "VERSION_UNSUPPORTED"; "ARTIFACT_ID_MISSING";
    "ARTIFACT_ID_DUPLICATE"; "ARTIFACT_FORMATS_EMPTY"; "ARTIFACT_DEP_MISSING";
    "PACKAGING_INPUT_MISSING"; "AC_ID_DUPLICATE"; "AC_TARGET_MISSING";
    "RUBRIC_REF_MISSING"; "GATE_RUBRIC_REF_MISSING"; "EXPLICIT_VALIDATOR_MISSING";
    "NO_VALIDATOR_FOR_TYPE"; "UNVERIFIABLE_MUST" ].

Definition warningCodes : list string :=
  [ "ARTIFACT_OWNERS_EMPTY"; "ROLE_NOT_IN_TEAM" ].

Definition classified (i : IntegrityIssue) : Prop :=
  (issueSeverity i = error /\ In (code i) errorCodes)
  \/ (issueSeverity i = warning /\ In (code i) warningCodes).

(** The identifiers of the criteria [injectDefaultAcceptance] can add. *)
Definition defaultAcIds : list string :=
  [ "AC-UNIV-STRUCT-1"; "AC-UNIV-TRACE-1"; "AC-UNIV-CONSIST-1"; "AC-UNIV-PROV-1" ].

(** ** A contract with links between its parts *)

Definition reportArtifact : ArtifactSpec :=
  {| artifactId := "report"; kind := "report"; subtype := None;
     formats := [{| mediaType := "application/pdf"; uri := "out/report.pdf" |};
                 {| mediaType := "text/markdown"; uri := "docs/report.md" |}];
     required := true; dependsOn := Some ["requirements"]; owners := [] |}.

Definition qaRubric : RubricSpec :=
  {| rubricId := "RUBRIC-QA"; scale := [1; 2; 3]%Q;
     anchors := [("1", "poor"); ("3", "good")]; passThreshold := 2%Q;
     text := Some "Is the report complete?" |}.

Definition qaCriterion : AcceptanceCriterionSpec :=
  {| acId := "AC-QA-1"; targetArtifacts := ["report"]; type := rubric;
     severity := must;
     rule := {| rubricRef := Some "RUBRIC-QA"; adapter := None;
                requiredSections := None; minCitationCoverage := None;
                citationPattern := None; require := None; jsonSchema := None;
                rulePassThreshold := None; ruleDescription := None |};
     evidence := {| evRequired := true; evidenceType := EvAiJudged;
                    producedArtifact := None |} |}.

Definition linkedSpec : VCCSpec :=
  {| vccVersion := "sdlaf.vcc/v1";
     artifacts := [sampleArtifact; reportArtifact];
     relationships := None;
     acceptance := [sampleCriterion; qaCriterion];
     rubrics := Some [qaRubric];
     gates := Some [ {| gateId := "G-1";
                        requiredApprovals :=
                          [ {| approvalRole := Some "role:Lead";
                               approvalRubricId := Some "RUBRIC-QA" |} ] |} ];
     packaging := [ {| packageId := "bundle"; inputs := ["requirements"; "report"] |} ];
     provenancePolicy := {| policyId := "P-3"; policyRequire := ["inputs.enumerated"];
                            strength := "basic" |};
     resourceConstraints := None |}.

(** What the pass returns for it with the default registry. *)
Definition linkedResult : IntegrityResult :=
  match specIntegrityPass linkedSpec sampleCtx sampleRegistry None with
  | Returned r => r
  | _ => {| spec := linkedSpec; issues := [];
            normalized := {| artifactIds := []; mustACs := [] |} |}
  end.

(** Options that switch the MUST coverage check off. *)
Definition noCoverage : option Opts :=
  Some {| injectUniversalDefaults := None; requireMustCoverage := Some false;
          optCitationPattern := None |}.

(** A contract is well formed when the structural checks of the pass find
    no error in it. *)
Definition wellFormed (s : VCCSpec) : Prop :=
  vccVersion s = "sdlaf.vcc/v1"
  /\ Forall (fun a => artifactId a <> "" /\ formats a <> []) (artifacts s)
  /\ NoDup (map artifactId (artifacts s))
  /\ (forall a dep, In a (artifacts s) -> In dep (orEmpty (dependsOn a)) ->
                    declared s dep)
  /\ (forall p x, In p (packaging s) -> In x (inputs p) -> declared s x)
  /\ (forall ac t, In ac (acceptance s) -> In t (targetArtifacts ac) -> declared s t)
  /\ NoDup (map acId (acceptance s))
  /\ (forall ac ref, In ac (acceptance s) -> rubricRef (rule ac) = Some ref ->
                     ref <> "" -> rubricDeclared s ref)
  /\ (forall g ra ref, In g (orEmpty (gates s)) -> In ra (requiredApprovals g) ->
                       approvalRubricId ra = Some ref -> ref <> "" ->
                       rubricDeclared s ref).

(** * The JSON Schema validator

    [JsonSchemaValidator] is made by the factory
    [createJsonSchemaValidator(loadSchema)] and is not in the default
    registry.  What it takes from outside the module is gathered in a
    record: the loader given to the constructor ([None] when it rejects),
    the module [ajv] ([None] when the dynamic import fails; compiling a
    schema may throw, [None]; a compiled schema answers with its verdict
    and [JSON.stringify(errors, null, 2)]), and [JSON.parse] (on a
    [SyntaxError], its message). *)
Record SchemaRuntime := {
  SchemaDoc : Type;
  JsonValue : Type;
  loadSchema : option string -> option SchemaDoc;
  importAjv : option (SchemaDoc -> option (JsonValue -> bool * string));
  jsonParse : string -> JsonValue + string
}.

Definition schema_canValidate (ac : AcceptanceCriterionSpec) (_ : VCCSpec)
           (_ : RunContext) : option bool :=
  Some (isSome (jsonSchema (rule ac))).

Definition schema_validate (sr : SchemaRuntime) (ac : AcceptanceCriterionSpec)
           (spec_ : VCCSpec) (ctx : RunContext) (w : Written)
  : option (ValidationResult * Written) :=
  let schemaRef := jsonSchema (rule ac) in
  match hd_error (targetArtifacts ac) with
  | None => None
  | Some target =>
    if negb (truthy target) then None
    else
      match loadSchema sr schemaRef with
      | None => None
      | Some schema_ =>
        match importAjv sr with
        | None =>
          let evidenceText :=
            "SKIP: AJV not available; cannot validate JSON Schema ("
            +++ showOpt schemaRef +++ ")." in
          let '(ev, w') := writeEvidence ctx (evidenceUriFor (acId ac)) evidenceText w in
          Some (mkResult ac skip "AJV not available; schema validation skipped."
                         EvAuto ev, w')
        | Some compile =>
          match compile schema_ with
          | None => None
          | Some validate_ =>
            match readArtifactText spec_ ctx target with
            | None => None
            | Some raw =>
              match jsonParse sr raw with
              | inr msg =>
                let evidenceText :=
                  "FAIL: Target artifact is not valid JSON." +++ nl
                  +++ "Error: " +++ msg in
                let '(ev, w') :=
                  writeEvidence ctx (evidenceUriFor (acId ac)) evidenceText w in
                Some (mkResult ac fail "Target artifact is not valid JSON." EvAuto ev, w')
              | inl obj =>
                let '(ok, errors) := validate_ obj in
                let evidenceText :=
                  if ok
                  then "PASS: JSON Schema validation succeeded." +++ nl
                       +++ "Schema: " +++ showOpt schemaRef
                  else "FAIL: JSON Schema validation failed." +++ nl
                       +++ "Schema: " +++ showOpt schemaRef +++ nl
                       +++ "Errors:" +++ nl +++ errors in
                let '(ev, w') :=
                  writeEvidence ctx (evidenceUriFor (acId ac)) evidenceText w in
                Some (mkResult ac (if ok then pass else fail)
                               (if ok then "Schema validation passed."
                                else "Schema validation failed.")
                               EvAuto ev, w')
              end
            end
          end
        end
      end
  end.

Definition JsonSchemaValidator (sr : SchemaRuntime) : ValidatorAdapter :=
  {| id := "schema.jsonSchema";
     supportedTypes := [schema];
     canValidate := schema_canValidate;
     validate := schema_validate sr |}.

(** [UniversalValidators.createJsonSchemaValidator]. *)
Definition createJsonSchemaValidator (sr : SchemaRuntime) : ValidatorAdapter :=
  JsonSchemaValidator sr.

(** A schema runtime without AJV, and one whose schemas accept the
    document [ok] only. *)
Definition noAjv : SchemaRuntime :=
  {| SchemaDoc := string; JsonValue := string;
     loadSchema := fun ref => ref;
     importAjv := None;
     jsonParse := fun raw => inl raw |}.

Definition schemaCriterion : AcceptanceCriterionSpec :=
  {| acId := "AC-SCHEMA-1"; targetArtifacts := ["absent"]; type := schema;
     severity := must;
     rule := {| rubricRef := None; adapter := None; requiredSections := None;
                minCitationCoverage := None; citationPattern := None; require := None;
                jsonSchema := Some "schemas/report.schema.json";
                rulePassThreshold := None; ruleDescription := None |};
     evidence := {| evRequired := true; evidenceType := EvAuto;
                    producedArtifact := None |} |}.

(** The names of the seven provenance signals, the keys of the signal
    map. *)
Definition signalNames : list string :=
  [ "inputs.enumerated"; "tooling.recorded"; "agentActions.logged";
    "artifactHashes.recorded"; "dependencies.recorded";
    "parameters.recorded"; "attestation.signed" ].

(** * Facts on the double division

    Definitions used to bound a rounded quotient. *)

(** The value [m * 2^e]. *)
Definition scaled (m e : Z) : Q := inject_Z m * 2 ^ e.

(** What a shift record knows of the value [x] it truncates: the mantissa
    at exponent [e] is a lower bound, strict when the record says that
    bits were lost. *)
Definition truncates (mrs : SpecFloat.shr_record) (e : Z) (x : Q) : Prop :=
  (0 <= SpecFloat.shr_m mrs)%Z
  /\ scaled (SpecFloat.shr_m mrs) e <= x
  /\ (SpecFloat.shr_r mrs || SpecFloat.shr_s mrs = true ->
      scaled (SpecFloat.shr_m mrs) e < x).

(** A double that is not negative. *)
Definition unsigned (f : binary64) : Prop :=
  match f with
  | SpecFloat.S754_finite s _ _ => s = false
  | _ => True
  end.
(** * Properties of the integrity pass *)

Section SetFacts.

Lemma has_app (s t : StrSet) (x : string) : has (s ++ t) x = has s x || has t x.
Proof. unfold has. apply existsb_app. Qed.

Lemma has_add (s : StrSet) (x y : string) :
  has (add s y) x = has s x || String.eqb x y.
Proof.
  unfold add. destruct (has s y) eqn:Hy.
  - destruct (String.eqb_spec x y) as [->|Hne].
    + rewrite Hy. reflexivity.
    + now rewrite orb_false_r.
  - rewrite has_app. simpl. now rewrite orb_false_r.
Qed.

Lemma has_fold_add (xs : list string) (s : StrSet) (x : string) :
  has (fold_left add xs s) x = has s x || existsb (String.eqb x) xs.
Proof.
  revert s. induction xs as [|y ys IH]; intros s; simpl.
  - now rewrite orb_false_r.
  - rewrite IH, has_add. now rewrite orb_assoc.
Qed.

Lemma has_newSet (xs : list string) (x : string) :
  has (newSet xs) x = existsb (String.eqb x) xs.
Proof. unfold newSet. now rewrite has_fold_add. Qed.

End SetFacts.

Section ArtifactLoop.

Lemma checkArtifacts_shape (arts : list ArtifactSpec) :
  forall i set, Forall2 sameButDeps arts (fst (fst (checkArtifacts i arts set))).
Proof.
  induction arts as [|a rest IH]; intros i set; simpl.
  - constructor.
  - destruct (negb (truthy (artifactId a))).
    + specialize (IH (S i) set).
      destruct (checkArtifacts (S i) rest set) as [[r s] l]. simpl in *.
      constructor; [repeat split | exact IH].
    + specialize (IH (S i) (add set (artifactId a))).
      destruct (checkArtifacts (S i) rest (add set (artifactId a))) as [[r s] l].
      simpl in *. constructor; [| exact IH].
      destruct (dependsOn a); repeat split.
Qed.

Lemma checkArtifacts_nonempty (a : ArtifactSpec) (rest : list ArtifactSpec) i set :
  exists b rest', fst (fst (checkArtifacts i (a :: rest) set)) = b :: rest'
                  /\ sameButDeps a b.
Proof.
  pose proof (checkArtifacts_shape (a :: rest) i set) as H.
  inversion H; subst. eauto.
Qed.

End ArtifactLoop.

Section InjectionTotal.

Lemma findLikelySpecArtifacts_some (s : VCCSpec) :
  artifacts s <> [] ->
  exists t, findLikelySpecArtifacts s = Some t /\ t <> [].
Proof.
  intros Hne. unfold findLikelySpecArtifacts.
  destruct (filter required (artifacts s)) as [|r0 rs] eqn:Hreq.
  - destruct (artifacts s) as [|a0 rest]; [congruence|]. simpl.
    eexists; split; [reflexivity | discriminate].
  - destruct (map artifactId (filter looksLikeSpec (r0 :: rs))) eqn:Hids;
      eexists; split; try reflexivity; discriminate.
Qed.

Lemma findNarrativeArtifacts_some (s : VCCSpec) :
  artifacts s <> [] ->
  exists t, findNarrativeArtifacts s = Some t /\ t <> [].
Proof.
  intros Hne. unfold findNarrativeArtifacts.
  destruct (filter required (artifacts s)) as [|r0 rs] eqn:Hreq.
  - destruct (artifacts s) as [|a0 rest]; [congruence|]. simpl.
    eexists; split; [reflexivity | discriminate].
  - destruct (map artifactId (filter isNarrative (r0 :: rs))) eqn:Hids;
      eexists; split; try reflexivity; discriminate.
Qed.

Lemma injectDefaultAcceptance_some (s : VCCSpec) (p : option string) :
  artifacts s <> [] -> exists s1, injectDefaultAcceptance s p = Some s1.
Proof.
  intros Hne. unfold injectDefaultAcceptance.
  destruct (findLikelySpecArtifacts_some s Hne) as (t1 & -> & _).
  destruct (findNarrativeArtifacts_some s Hne) as (t2 & -> & _).
  simpl.
  destruct (negb (has _ "AC-UNIV-STRUCT-1")); simpl;
    destruct (negb (has _ "AC-UNIV-TRACE-1")); simpl; eauto.
Qed.

Lemma structuralSpec_artifacts_nonempty (s : VCCSpec) :
  artifacts s <> [] -> artifacts (structuralSpec s) <> [].
Proof.
  intros Hne. unfold structuralSpec. simpl.
  destruct (artifacts s) as [|a rest]; [congruence|].
  destruct (checkArtifacts_nonempty a rest 0 []) as (b & rest' & Heq & _).
  rewrite Heq. discriminate.
Qed.

Lemma injected_some (s : VCCSpec) (opts : option Opts) :
  artifacts s <> [] -> exists s1, injected s opts = Some s1.
Proof.
  intros Hne. unfold injected. destruct (optInject opts); [|eauto].
  apply injectDefaultAcceptance_some. simpl.
  now apply structuralSpec_artifacts_nonempty.
Qed.

End InjectionTotal.

Lemma filter_isError_Exists (l : list IntegrityIssue) :
  (0 <? length (filter isError l))%nat = true <->
  Exists (fun i => issueSeverity i = error) l.
Proof.
  induction l as [|i l IH]; simpl.
  - split; [discriminate | intros H; inversion H].
  - unfold isError at 1. destruct (issueSeverity i) eqn:Hs; simpl.
    + split; [intros _; now constructor | reflexivity].
    + rewrite IH. split; [now constructor 2 |].
      intros H; inversion H; subst; [congruence | assumption].
Qed.

Lemma filter_isError_Forall (l : list IntegrityIssue) :
  (0 <? length (filter isError l))%nat = false <->
  Forall (fun i => issueSeverity i = warning) l.
Proof.
  induction l as [|i l IH]; simpl.
  - split; [constructor | reflexivity].
  - unfold isError at 1. destruct (issueSeverity i) eqn:Hs; simpl.
    + split; [discriminate | intros H; inversion H; congruence].
    + rewrite IH. split; [now constructor | intros H; now inversion H].
Qed.

(** C2. Integrity checking is all-or-nothing.  For every contract, context,
    registry and options, [specIntegrityPass] either returns the normalized
    contract (defaults injected) with an issue list made of warnings only,
    or raises a [SpecIntegrityError] that carries every issue pushed during
    the call, warnings included; it never fails in another way, and it
    raises exactly when one of the issues found has severity [error]. *)
Theorem specIntegrityPass_all_or_nothing
        (inputSpec : VCCSpec) (ctx : RunContext)
        (registry : AdapterRegistry) (opts : option Opts) :
  ((exists r,
       specIntegrityPass inputSpec ctx registry opts = Returned r
       /\ injected inputSpec opts = Some (spec r)
       /\ issues r = issuesFound inputSpec ctx registry opts
       /\ Forall (fun i => issueSeverity i = warning) (issues r))
   \/
   (exists m,
       specIntegrityPass inputSpec ctx registry opts
       = Raised m (issuesFound inputSpec ctx registry opts)
       /\ Exists (fun i => issueSeverity i = error)
                 (issuesFound inputSpec ctx registry opts)))
  /\
  ((exists m iss, specIntegrityPass inputSpec ctx registry opts = Raised m iss)
   <-> Exists (fun i => issueSeverity i = error)
              (issuesFound inputSpec ctx registry opts)).
Proof.
  unfold specIntegrityPass, issuesFound, deepClone.
  destruct (artifacts inputSpec) as [|a rest] eqn:Harts.
  - split.
    + right. eexists. split; [reflexivity|]. constructor. reflexivity.
    + split; [intros _; constructor; reflexivity | intros _; eauto].
  - assert (Hne : artifacts inputSpec <> []) by (rewrite Harts; discriminate).
    destruct (injected_some inputSpec opts Hne) as (s1 & Hs1). rewrite Hs1.
    set (iss := structuralIssues inputSpec ctx ++ _).
    destruct (0 <? length (filter isError iss))%nat eqn:Herr.
    + pose proof (proj1 (filter_isError_Exists iss) Herr) as Hex.
      split; [right; eauto | split; eauto].
    + pose proof (proj1 (filter_isError_Forall iss) Herr) as Hall.
      split.
      * left. eexists. split; [reflexivity|]. simpl. auto.
      * split; [intros (m & l & H); discriminate|].
        intros Hex. apply filter_isError_Exists in Hex. congruence.
Qed.

(** A contract without artifacts: the pass raises at once, with the one
    issue it has pushed; no other check is made. *)
Lemma artifacts_empty_raises_alone (inputSpec : VCCSpec) (ctx : RunContext)
      (registry : AdapterRegistry) (opts : option Opts) :
  artifacts inputSpec = [] ->
  specIntegrityPass inputSpec ctx registry opts
  = Raised "VCCSpec failed integrity pass" [artifactsEmpty].
Proof. intros H. unfold specIntegrityPass, deepClone. now rewrite H. Qed.

Section MustCoverage.

Variables (inputSpec : VCCSpec) (ctx : RunContext) (registry : AdapterRegistry)
          (opts : option Opts) (spec1 : VCCSpec).

Hypothesis Hartifacts : artifacts inputSpec <> [].
Hypothesis Hrequire : optRequireMustCoverage opts = true.
Hypothesis Hinjected : injected inputSpec opts = Some spec1.

Lemma coverage_issue_raises (ac : AcceptanceCriterionSpec) (i : IntegrityIssue) (c : string) :
  In ac (acceptance spec1) -> severity ac = must ->
  In i (mustCoverageFor registry spec1 ctx ac) ->
  issueSeverity i = error -> code i = c ->
  raisesWithCode inputSpec ctx registry opts c i.
Proof.
  intros Hin Hmust Hi Hsev Hcode.
  assert (Hcov : In i (mustCoverage registry spec1 ctx)).
  { unfold mustCoverage. apply in_flat_map. exists ac. split; [|exact Hi].
    apply filter_In. split; [exact Hin|]. unfold isMust. now rewrite Hmust. }
  unfold raisesWithCode, specIntegrityPass, deepClone.
  destruct (artifacts inputSpec) as [|a rest]; [congruence|].
  rewrite Hinjected, Hrequire.
  set (iss := structuralIssues inputSpec ctx ++ mustCoverage registry spec1 ctx).
  assert (Hiss : In i iss) by (apply in_or_app; now right).
  assert (Herr : (0 <? length (filter isError iss))%nat = true).
  { apply filter_isError_Exists. apply Exists_exists. eauto. }
  rewrite Herr. eauto 6.
Qed.

End MustCoverage.

Lemma canAny_false (cands : list ValidatorAdapter) (ac : AcceptanceCriterionSpec)
      (s : VCCSpec) (ctx : RunContext) :
  (forall v, In v cands -> canValidate v ac s ctx <> Some true) ->
  canAny cands ac s ctx = false.
Proof.
  intros H. unfold canAny. apply not_true_is_false. intros Hex.
  apply existsb_exists in Hex as (v & Hv & Hacc). unfold accepts in Hacc.
  specialize (H v Hv). destruct (canValidate v ac s ctx) as [[|]|]; congruence.
Qed.

Lemma canAny_true (cands : list ValidatorAdapter) (ac : AcceptanceCriterionSpec)
      (s : VCCSpec) (ctx : RunContext) :
  (exists v, In v cands /\ canValidate v ac s ctx = Some true) ->
  canAny cands ac s ctx = true.
Proof.
  intros (v & Hv & Hc). unfold canAny. apply existsb_exists. exists v.
  split; [exact Hv|]. unfold accepts. now rewrite Hc.
Qed.

Lemma registered_false (registry : AdapterRegistry) (e : string) :
  (forall v, In v (validators registry) -> id v <> e) ->
  existsb (fun v => String.eqb (id v) e) (validators registry) = false.
Proof.
  intros H. apply not_true_is_false. intros Hex.
  apply existsb_exists in Hex as (v & Hv & Heq).
  apply String.eqb_eq in Heq. exact (H v Hv Heq).
Qed.

Lemma registered_true (registry : AdapterRegistry) (e : string) :
  (exists v, In v (validators registry) /\ id v = e) ->
  existsb (fun v => String.eqb (id v) e) (validators registry) = true.
Proof.
  intros (v & Hv & Heq). apply existsb_exists. exists v. split; [exact Hv|].
  now apply String.eqb_eq.
Qed.

(** C4. MUST-coverage proof obligation.  Let the contract have at least one
    artifact (so that the pass reaches the coverage step) and let
    [requireMustCoverage] be on.  For every MUST criterion [ac] of the
    post-injection contract [spec1]:
    - if [ac] names no adapter and no registered validator supports its
      type, the pass raises with an issue [NO_VALIDATOR_FOR_TYPE];
    - if [ac] names no adapter, some validator supports its type, and no
      supporting validator's [canValidate] answers [true] (a throw counts
      as a refusal), the pass raises with an issue [UNVERIFIABLE_MUST];
    - if some supporting validator accepts, the check of [ac] pushes
      nothing;
    - if [ac] names the adapter [e], the check of [ac] pushes
      [EXPLICIT_VALIDATOR_MISSING] (and the pass raises with it) when no
      registered validator has the id [e], and pushes nothing when one
      has. *)
Theorem must_coverage_obligation
        (inputSpec : VCCSpec) (ctx : RunContext) (registry : AdapterRegistry)
        (opts : option Opts) (spec1 : VCCSpec) (ac : AcceptanceCriterionSpec) :
  artifacts inputSpec <> [] ->
  optRequireMustCoverage opts = true ->
  injected inputSpec opts = Some spec1 ->
  In ac (acceptance spec1) ->
  severity ac = must ->
  (explicitAdapterOf ac = None ->
     (candidates registry ac = [] ->
        mustCoverageFor registry spec1 ctx ac = [noValidatorForType spec1 ac]
        /\ raisesWithCode inputSpec ctx registry opts
                          "NO_VALIDATOR_FOR_TYPE" (noValidatorForType spec1 ac))
     /\ (candidates registry ac <> [] ->
         (forall v, In v (candidates registry ac) ->
                    canValidate v ac spec1 ctx <> Some true) ->
         mustCoverageFor registry spec1 ctx ac = [unverifiableMust spec1 ac]
         /\ raisesWithCode inputSpec ctx registry opts
                           "UNVERIFIABLE_MUST" (unverifiableMust spec1 ac))
     /\ ((exists v, In v (candidates registry ac)
                    /\ canValidate v ac spec1 ctx = Some true) ->
         mustCoverageFor registry spec1 ctx ac = []))
  /\ (forall e, explicitAdapterOf ac = Some e ->
        ((forall v, In v (validators registry) -> id v <> e) ->
           mustCoverageFor registry spec1 ctx ac = [explicitValidatorMissing spec1 ac e]
           /\ raisesWithCode inputSpec ctx registry opts
                             "EXPLICIT_VALIDATOR_MISSING"
                             (explicitValidatorMissing spec1 ac e))
        /\ ((exists v, In v (validators registry) /\ id v = e) ->
            mustCoverageFor registry spec1 ctx ac = [])).
Proof.
  intros Harts Hreq Hinj Hin Hmust.
  pose proof (coverage_issue_raises inputSpec ctx registry opts spec1
                                    Harts Hreq Hinj ac) as Hraise.
  split.
  - intros Hexpl. repeat split.
    + unfold mustCoverageFor. now rewrite Hexpl, H.
    + apply Hraise; auto. unfold mustCoverageFor. rewrite Hexpl, H. now left.
    + unfold mustCoverageFor. rewrite Hexpl.
      destruct (candidates registry ac) as [|v0 vs] eqn:Hc; [congruence|].
      now rewrite (canAny_false _ _ _ _ H0).
    + apply Hraise; auto. unfold mustCoverageFor. rewrite Hexpl.
      destruct (candidates registry ac) as [|v0 vs] eqn:Hc; [congruence|].
      rewrite (canAny_false _ _ _ _ H0). now left.
    + intros Hex. unfold mustCoverageFor. rewrite Hexpl.
      destruct (candidates registry ac) as [|v0 vs] eqn:Hc.
      * destruct Hex as (v & [] & _).
      * now rewrite (canAny_true _ _ _ _ Hex).
  - intros e Hexpl. repeat split.
    + unfold mustCoverageFor. now rewrite Hexpl, (registered_false _ _ H).
    + apply Hraise; auto. unfold mustCoverageFor.
      rewrite Hexpl, (registered_false _ _ H). now left.
    + intros Hex. unfold mustCoverageFor.
      now rewrite Hexpl, (registered_true _ _ Hex).
Qed.

Lemma must_coverage_obligation_witness :
  artifacts sampleSpec <> []
  /\ injected sampleSpec None = Some sampleNormalized
  /\ In sampleCriterion (acceptance sampleNormalized)
  /\ raisesWithCode sampleSpec sampleCtx emptyRegistry None
                    "NO_VALIDATOR_FOR_TYPE"
                    (noValidatorForType sampleNormalized sampleCriterion).
Proof.
  assert (Ha : artifacts sampleSpec <> []) by discriminate.
  assert (Hi : injected sampleSpec None = Some sampleNormalized) by reflexivity.
  assert (Hin : In sampleCriterion (acceptance sampleNormalized)) by (left; reflexivity).
  repeat split; try assumption.
  exact (proj2 (proj1 (proj1
           (must_coverage_obligation sampleSpec sampleCtx emptyRegistry None
              sampleNormalized sampleCriterion Ha eq_refl Hi Hin eq_refl)
           eq_refl) eq_refl)).
Defined.

(** * Defaults injection *)

Section Injection.

#[local] Arguments String.eqb : simpl never.

(** Decide the comparisons of two string literals in the goal. *)
Ltac eval_eqb :=
  repeat match goal with
         | |- context [String.eqb ?a ?b] =>
           let v := eval vm_compute in (String.eqb a b) in
           match v with
           | true => idtac
           | false => idtac
           end;
           change (String.eqb a b) with v
         end.

Lemma setRubrics_same (s : VCCSpec) : setRubrics s (rubrics s) = s.
Proof. now destruct s. Qed.

Lemma setAcceptance_same (s : VCCSpec) : setAcceptance s (acceptance s) = s.
Proof. now destruct s. Qed.

Lemma injectDefaultRubrics_complete (s : VCCSpec) :
  rubricsComplete s = true ->
  injectDefaultRubrics s = setRubrics s (Some (orEmpty (rubrics s))).
Proof.
  unfold rubricsComplete, injectDefaultRubrics. intros H.
  apply andb_prop in H as [H1 H2].
  rewrite !has_newSet, H1, H2. reflexivity.
Qed.

Lemma injectDefaultRubrics_makes_complete (s : VCCSpec) :
  rubricsComplete (injectDefaultRubrics s) = true.
Proof.
  unfold rubricsComplete, injectDefaultRubrics. rewrite !has_newSet. simpl.
  destruct (existsb (String.eqb "RUBRIC-OVERALL-v1") (map rubricId (orEmpty (rubrics s)))) eqn:H1;
    destruct (existsb (String.eqb "RUBRIC-CLARITY-v1") (map rubricId (orEmpty (rubrics s)))) eqn:H2;
    simpl; rewrite ?map_app, ?existsb_app, ?H1, ?H2; simpl; eval_eqb;
    rewrite ?orb_true_r; reflexivity.
Qed.

Lemma injectDefaultRubrics_idempotent (s : VCCSpec) :
  injectDefaultRubrics (injectDefaultRubrics s) = injectDefaultRubrics s.
Proof.
  rewrite (injectDefaultRubrics_complete _ (injectDefaultRubrics_makes_complete s)).
  unfold injectDefaultRubrics at 2 3. simpl. reflexivity.
Qed.

Lemma injectDefaultAcceptance_complete (s : VCCSpec) (p : option string) :
  acceptanceComplete s = true -> injectDefaultAcceptance s p = Some s.
Proof.
  unfold acceptanceComplete, injectDefaultAcceptance. intros H.
  apply andb_prop in H as [H H4]. apply andb_prop in H as [H H3].
  apply andb_prop in H as [H1 H2].
  rewrite !has_newSet, H1, H2, H3, H4. simpl. now rewrite setAcceptance_same.
Qed.

Lemma injectDefaultAcceptance_makes_complete (s s1 : VCCSpec) (p : option string) :
  injectDefaultAcceptance s p = Some s1 -> acceptanceComplete s1 = true.
Proof.
  unfold injectDefaultAcceptance. rewrite !has_newSet.
  destruct (existsb (String.eqb "AC-UNIV-STRUCT-1") (map acId (acceptance s))) eqn:H1;
    destruct (existsb (String.eqb "AC-UNIV-TRACE-1") (map acId (acceptance s))) eqn:H2;
    destruct (existsb (String.eqb "AC-UNIV-CONSIST-1") (map acId (acceptance s))) eqn:H3;
    destruct (existsb (String.eqb "AC-UNIV-PROV-1") (map acId (acceptance s))) eqn:H4;
    simpl;
    destruct (findLikelySpecArtifacts s); simpl; try discriminate;
    destruct (findNarrativeArtifacts s); simpl; try discriminate;
    intros [= <-]; unfold acceptanceComplete; simpl;
    rewrite ?map_app, ?existsb_app, ?H1, ?H2, ?H3, ?H4; simpl; eval_eqb;
    rewrite ?orb_true_r; reflexivity.
Qed.

(** What the injection appends: default criteria only, after the
    criteria that were there. *)
Lemma injectDefaultAcceptance_appends (s s1 : VCCSpec) (p : option string) :
  injectDefaultAcceptance s p = Some s1 ->
  exists added,
    acceptance s1 = acceptance s ++ added
    /\ Forall (defaultCriterionOf s p) added.
Proof.
  unfold injectDefaultAcceptance.
  destruct (negb (has _ "AC-UNIV-STRUCT-1"));
    destruct (negb (has _ "AC-UNIV-TRACE-1"));
    destruct (negb (has _ "AC-UNIV-CONSIST-1"));
    destruct (negb (has _ "AC-UNIV-PROV-1"));
    destruct (findLikelySpecArtifacts s) as [t1|] eqn:E1; simpl; try discriminate;
    destruct (findNarrativeArtifacts s) as [t2|] eqn:E2; simpl; try discriminate;
    intros [= <-]; simpl; rewrite <- ?app_assoc; simpl;
    first [ exists []; split; [now rewrite app_nil_r | constructor]
          | eexists; split; [reflexivity|] ];
    repeat (apply Forall_cons; [unfold defaultCriterionOf; eauto 8|]);
    apply Forall_nil.
Qed.

End Injection.

Section SecondRun.

Lemma returned_inv (inputSpec : VCCSpec) (ctx : RunContext)
      (registry : AdapterRegistry) (opts : option Opts) (r : IntegrityResult) :
  specIntegrityPass inputSpec ctx registry opts = Returned r ->
  artifacts inputSpec <> [] /\ injected inputSpec opts = Some (spec r).
Proof.
  unfold specIntegrityPass, deepClone.
  destruct (artifacts inputSpec) as [|a rest] eqn:Ha; [discriminate|].
  destruct (injected inputSpec opts) as [s1|]; [|discriminate].
  destruct (0 <? _)%nat; [discriminate|].
  intros [= <-]. split; [discriminate | reflexivity].
Qed.

Lemma injectDefaultAcceptance_frame (s s1 : VCCSpec) (p : option string) :
  injectDefaultAcceptance s p = Some s1 ->
  rubrics s1 = rubrics s /\ artifacts s1 = artifacts s /\ packaging s1 = packaging s.
Proof.
  unfold injectDefaultAcceptance.
  destruct (if negb (has _ "AC-UNIV-STRUCT-1") then _ else _); [|discriminate].
  destruct (if negb (has _ "AC-UNIV-TRACE-1") then _ else _); [|discriminate].
  intros [= <-]. auto.
Qed.

Lemma structuralSpec_rubrics (s : VCCSpec) :
  rubrics (structuralSpec s) = Some (orEmpty (rubrics s)).
Proof. reflexivity. Qed.

Lemma structuralSpec_acceptance (s : VCCSpec) :
  acceptance (structuralSpec s) = acceptance s.
Proof. reflexivity. Qed.

Lemma rubricsComplete_ext (a b : VCCSpec) :
  orEmpty (rubrics a) = orEmpty (rubrics b) -> rubricsComplete a = rubricsComplete b.
Proof. unfold rubricsComplete. now intros ->. Qed.

Lemma acceptanceComplete_ext (a b : VCCSpec) :
  acceptance a = acceptance b -> acceptanceComplete a = acceptanceComplete b.
Proof. unfold acceptanceComplete. now intros ->. Qed.

(** A contract returned with the defaults injected carries every default
    id. *)
Lemma returned_complete (inputSpec : VCCSpec) (ctx : RunContext)
      (registry : AdapterRegistry) (opts : option Opts) (r : IntegrityResult) :
  optInject opts = true ->
  specIntegrityPass inputSpec ctx registry opts = Returned r ->
  rubricsComplete (spec r) = true /\ acceptanceComplete (spec r) = true
  /\ exists rs, rubrics (spec r) = Some rs.
Proof.
  intros Hopt Hret. apply returned_inv in Hret as [_ Hinj].
  unfold injected in Hinj. rewrite Hopt in Hinj.
  pose proof (injectDefaultAcceptance_makes_complete _ _ _ Hinj) as Hacc.
  destruct (injectDefaultAcceptance_frame _ _ _ Hinj) as (Hrub & _ & _).
  repeat split; [| exact Hacc | rewrite Hrub; simpl; eauto].
  rewrite (rubricsComplete_ext (spec r) (injectDefaultRubrics (structuralSpec inputSpec))).
  - apply injectDefaultRubrics_makes_complete.
  - now rewrite Hrub.
Qed.

End SecondRun.

(** C8. Default injection is idempotent.  Let the pass, with
    [injectUniversalDefaults] on, return the normalized contract
    [spec r].  Injecting the default rubrics again leaves [spec r] as it
    is, injecting the default criteria again leaves it as it is (whatever
    the citation pattern), and a second integrity pass over [spec r], with
    any options, verifies coverage on a contract whose rubric list and
    acceptance list are those of [spec r]: presence by id stops every
    push. *)
Theorem defaults_injection_idempotent
        (inputSpec : VCCSpec) (ctx : RunContext) (registry : AdapterRegistry)
        (opts : option Opts) (r : IntegrityResult) (opts' : option Opts) :
  optInject opts = true ->
  specIntegrityPass inputSpec ctx registry opts = Returned r ->
  injectDefaultRubrics (spec r) = spec r
  /\ injectDefaultAcceptance (spec r) (optPattern opts') = Some (spec r)
  /\ exists s2,
      injected (spec r) opts' = Some s2
      /\ rubrics s2 = rubrics (spec r)
      /\ acceptance s2 = acceptance (spec r).
Proof.
  intros Hopt Hret.
  destruct (returned_complete _ _ _ _ _ Hopt Hret) as (Hrub & Hacc & rs & Hrs).
  assert (Hfix : injectDefaultRubrics (spec r) = spec r).
  { rewrite (injectDefaultRubrics_complete _ Hrub), Hrs. simpl.
    rewrite <- Hrs. apply setRubrics_same. }
  split; [exact Hfix|].
  split; [now apply injectDefaultAcceptance_complete|].
  unfold injected. destruct (optInject opts').
  - assert (Hrub' : rubricsComplete (structuralSpec (spec r)) = true).
    { rewrite <- Hrub. apply rubricsComplete_ext.
      now rewrite structuralSpec_rubrics, Hrs. }
    rewrite (injectDefaultRubrics_complete _ Hrub').
    rewrite injectDefaultAcceptance_complete.
    + eexists. split; [reflexivity|]. simpl. now rewrite Hrs.
    + rewrite <- Hacc. now apply acceptanceComplete_ext.
  - eexists. split; [reflexivity|]. simpl. now rewrite Hrs.
Qed.

Lemma defaults_injection_idempotent_witness :
  optInject None = true
  /\ specIntegrityPass sampleSpec sampleCtx sampleRegistry None = Returned sampleResult
  /\ injectDefaultRubrics (spec sampleResult) = spec sampleResult
  /\ injectDefaultAcceptance (spec sampleResult) None = Some (spec sampleResult).
Proof.
  assert (Hret : specIntegrityPass sampleSpec sampleCtx sampleRegistry None
                 = Returned sampleResult) by (vm_compute; reflexivity).
  pose proof (defaults_injection_idempotent sampleSpec sampleCtx sampleRegistry
                None sampleResult None eq_refl Hret) as (H1 & H2 & _).
  repeat split; assumption.
Defined.

(** * Targets of the injected MUST criteria *)

Lemma findLikelySpecArtifacts_nonempty (s : VCCSpec) (t : list ArtifactId) :
  findLikelySpecArtifacts s = Some t -> t <> [].
Proof.
  unfold findLikelySpecArtifacts.
  destruct (filter required (artifacts s)) as [|r0 rs].
  - destruct (firstArtifactId (artifacts s)); [|discriminate].
    intros [= <-]. discriminate.
  - generalize (map artifactId (filter looksLikeSpec (r0 :: rs))).
    intros ids [= <-]. destruct ids; discriminate.
Qed.

(** The structural-completeness MUST is always injected with a target. *)
Lemma acUnivStruct_targets_nonempty (s s1 : VCCSpec) (p : option string)
      (ac : AcceptanceCriterionSpec) :
  injectDefaultAcceptance s p = Some s1 ->
  In ac (acceptance s1) -> ~ In ac (acceptance s) ->
  acId ac = "AC-UNIV-STRUCT-1" ->
  targetArtifacts ac <> [].
Proof.
  intros Hinj Hin Hnew Hid.
  destruct (injectDefaultAcceptance_appends _ _ _ Hinj) as (added & Heq & Hall).
  rewrite Heq in Hin. apply in_app_or in Hin as [Hin|Hin]; [contradiction|].
  rewrite Forall_forall in Hall. specialize (Hall ac Hin).
  destruct Hall as [(t & Ht & ->)|[(t & _ & ->)|[->| ->]]]; try discriminate.
  simpl. now apply (findLikelySpecArtifacts_nonempty s).
Qed.

(** The provenance MUST is injected with the packaging inputs as targets,
    whatever they are. *)
Lemma acUnivProv_targets (s s1 : VCCSpec) (p : option string)
      (ac : AcceptanceCriterionSpec) :
  injectDefaultAcceptance s p = Some s1 ->
  In ac (acceptance s1) -> ~ In ac (acceptance s) ->
  acId ac = "AC-UNIV-PROV-1" ->
  targetArtifacts ac = flat_map inputs (packaging s).
Proof.
  intros Hinj Hin Hnew Hid.
  destruct (injectDefaultAcceptance_appends _ _ _ Hinj) as (added & Heq & Hall).
  rewrite Heq in Hin. apply in_app_or in Hin as [Hin|Hin]; [contradiction|].
  rewrite Forall_forall in Hall. specialize (Hall ac Hin).
  destruct Hall as [(t & _ & ->)|[(t & _ & ->)|[->| ->]]]; try discriminate.
  reflexivity.
Qed.

(** C3. On the sample contract, which has one required artifact and no
    packaging step, the pass returns a normalized contract whose injected
    provenance MUST [AC-UNIV-PROV-1] has an empty [targetArtifacts], while
    the injected structural MUST has the first required artifact as its
    target. *)
Theorem injected_provenance_must_without_targets :
  exists r prov struct_,
    specIntegrityPass sampleSpec sampleCtx sampleRegistry None = Returned r
    /\ In prov (acceptance (spec r))
    /\ acId prov = "AC-UNIV-PROV-1" /\ severity prov = must
    /\ targetArtifacts prov = []
    /\ In struct_ (acceptance (spec r))
    /\ acId struct_ = "AC-UNIV-STRUCT-1" /\ severity struct_ = must
    /\ targetArtifacts struct_ = ["requirements"].
Proof.
  exists sampleResult, (acUnivProv [] ["inputs.enumerated"]),
         (acUnivStruct ["requirements"]).
  split; [vm_compute; reflexivity|].
  repeat split; vm_compute; auto 10.
Qed.

(** * Validators *)

Section ProvenanceProps.

Lemma filter_nil_iff {A} (f : A -> bool) (l : list A) :
  filter f l = [] <-> forall x, In x l -> f x = false.
Proof.
  induction l as [|a l IH]; simpl.
  - split; [intros _ x [] | reflexivity].
  - destruct (f a) eqn:Hfa.
    + split; [discriminate|]. intros H. specialize (H a (or_introl eq_refl)). congruence.
    + rewrite IH. split.
      * intros H x [<-|Hx]; auto.
      * intros H x Hx. apply H. now right.
Qed.

Lemma length_zero_nil {A} (l : list A) : (length l =? 0)%nat = true <-> l = [].
Proof. destruct l; simpl; split; congruence. Qed.

Lemma signalMissing_false (m : list (string * bool)) (name : string) :
  signalMissing m name = false
  <-> getKey m name = Some true \/ (getKey m name = None /\ inherited name = true).
Proof.
  unfold signalMissing. destruct (getKey m name) as [[|]|]; simpl.
  - split; auto.
  - split; [discriminate | intros [H|[H _]]; discriminate H].
  - destruct (inherited name); simpl; split; auto; intros [H|[_ H]]; discriminate H.
Qed.

(** The verdict of the provenance validator, case by case. *)
Lemma provenance_validate_cases (ac : AcceptanceCriterionSpec) (spec_ : VCCSpec)
      (ctx : RunContext) (w : Written) :
  exists r w',
    provenance_validate ac spec_ ctx w = Some (r, w')
    /\ (status r = pass \/ status r = fail)
    /\ match provenanceSignals ctx with
       | None => status r = fail
       | Some sig =>
         status r = pass <->
         (forall name, In name (orEmpty (require (rule ac))) ->
                       signalMissing (signalMap sig) name = false)
       end.
Proof.
  unfold provenance_validate.
  destruct (provenanceSignals ctx) as [sig|].
  - set (missing := filter (signalMissing (signalMap sig)) (orEmpty (require (rule ac)))).
    destruct (length missing =? 0)%nat eqn:Hlen.
    + eexists. eexists. split; [reflexivity|]. simpl. split; [now left|].
      split; [intros _ | reflexivity].
      intros name Hin.
      apply length_zero_nil in Hlen. unfold missing in Hlen.
      now apply (proj1 (filter_nil_iff _ _) Hlen).
    + eexists. eexists. split; [reflexivity|]. simpl. split; [now right|].
      split; [discriminate|]. intros Hall. exfalso.
      assert (Hnil : missing = []).
      { unfold missing. apply filter_nil_iff. intros name Hin. now apply Hall. }
      apply length_zero_nil in Hnil. congruence.
  - eexists. eexists. split; [reflexivity|]. simpl. split; [now right | reflexivity].
Qed.

End ProvenanceProps.

(** C6. The provenance validator on a criterion that requires the name
    [constructor], in a context whose signal map holds no true signal: the
    name is not a key of the map and maps to no signal, let alone a true
    one, yet the validator returns [pass], where a required name that
    misses among the signals gives [fail]. *)
Theorem provenance_inherited_name_passes :
  getKey (signalMap noSignals) "constructor" = None
  /\ (forall name, In name (map fst (signalMap noSignals)) ->
                   getKey (signalMap noSignals) name = Some false)
  /\ (exists r w',
        provenance_validate inheritedNameCriterion sampleNormalized unprovenCtx []
        = Some (r, w')
        /\ status r = pass)
  /\ (exists r w',
        provenance_validate (acUnivProv [] ["tooling.recorded"]) sampleNormalized
                            unprovenCtx []
        = Some (r, w')
        /\ status r = fail).
Proof.
  split; [reflexivity|]. split.
  - intros name Hin. simpl in Hin.
    repeat (destruct Hin as [<-|Hin]; [reflexivity|]). destruct Hin.
  - split; eexists; eexists; (split; [vm_compute; reflexivity | reflexivity]).
Qed.

Section ConsistencyProps.

Variable rt : Runtime.

Lemma replaceKey_length {V} (k : string) (v : V) (m : list (string * V)) :
  length (replaceKey k v m) = length m.
Proof.
  induction m as [|[k' v'] m IH]; simpl; [reflexivity|].
  destruct (String.eqb k' k); simpl; congruence.
Qed.

Lemma insertIndex_length {V} (n : N) (k : string) (v : V) (m : list (string * V)) :
  length (insertIndex n k v m) = S (length m).
Proof.
  induction m as [|[k' v'] m IH]; simpl; [reflexivity|].
  destruct (arrayIndex k') as [n'|]; [|reflexivity].
  destruct (n <? n')%N; simpl; congruence.
Qed.

Lemma setKey_length {V} (k : string) (v : V) (m : list (string * V)) :
  (length (setKey k v m) <= S (length m))%nat.
Proof.
  unfold setKey. destruct (String.eqb k "__proto__"); [lia|].
  destruct (hasKey m k); [rewrite replaceKey_length; lia|].
  destruct (arrayIndex k); [rewrite insertIndex_length; lia|].
  rewrite length_app. simpl. lia.
Qed.

Lemma readTexts_length (spec_ : VCCSpec) (ctx : RunContext) (targets : list ArtifactId) :
  forall texts,
    (length (readTexts spec_ ctx targets texts)
     <= length texts
        + length (filter (fun a => isSome (readArtifactText spec_ ctx a)) targets))%nat.
Proof.
  induction targets as [|a rest IH]; intros texts; simpl; [lia|].
  destruct (readArtifactText spec_ ctx a) as [t|]; simpl.
  - specialize (IH (setKey a t texts)).
    pose proof (setKey_length a t texts). lia.
  - apply IH.
Qed.

Lemma findContradictionSignals_few (texts : list (string * string)) :
  (length texts < 2)%nat -> findContradictionSignals rt texts = [].
Proof.
  intros H. unfold findContradictionSignals. rewrite length_map.
  apply Nat.ltb_lt in H. now rewrite H.
Qed.

End ConsistencyProps.

(** C10. A consistency criterion whose targets yield fewer than two
    readable texts always passes: if fewer than two of the read attempts
    succeed (no target, one target, or every read but one rejecting), the
    cross-check validator returns a result with status [pass]. *)
Theorem consistency_needs_two_texts
        (rt : Runtime) (ac : AcceptanceCriterionSpec) (spec_ : VCCSpec)
        (ctx : RunContext) (w : Written) :
  (length (filter (fun a => isSome (readArtifactText spec_ ctx a))
                  (targetArtifacts ac)) < 2)%nat ->
  exists r w',
    consistency_validate rt ac spec_ ctx w = Some (r, w')
    /\ status r = pass.
Proof.
  intros Hfew. unfold consistency_validate.
  pose proof (readTexts_length spec_ ctx (targetArtifacts ac) []) as Hlen.
  simpl in Hlen.
  rewrite (findContradictionSignals_few rt); [|lia].
  simpl. eexists. eexists. split; reflexivity.
Qed.

Lemma consistency_needs_two_texts_witness :
  (length (filter (fun a => isSome (readArtifactText sampleNormalized sampleCtx a))
                  ["requirements"; "absent"]) < 2)%nat
  /\ exists r w',
      consistency_validate literalRuntime
        (acUnivConsist ["requirements"; "absent"]) sampleNormalized sampleCtx []
      = Some (r, w')
      /\ status r = pass.
Proof.
  assert (H : (length (filter (fun a => isSome (readArtifactText sampleNormalized sampleCtx a))
                              ["requirements"; "absent"]) < 2)%nat)
    by (vm_compute; lia).
  split; [exact H|].
  exact (consistency_needs_two_texts literalRuntime
           (acUnivConsist ["requirements"; "absent"]) sampleNormalized sampleCtx [] H).
Defined.

(** The two cases the criterion's own shape decides. *)
Corollary consistency_at_most_one_target
          (rt : Runtime) (ac : AcceptanceCriterionSpec) (spec_ : VCCSpec)
          (ctx : RunContext) (w : Written) :
  (length (targetArtifacts ac) <= 1)%nat ->
  exists r w',
    consistency_validate rt ac spec_ ctx w = Some (r, w') /\ status r = pass.
Proof.
  intros Hlen. unfold consistency_validate.
  pose proof (readTexts_length spec_ ctx (targetArtifacts ac) []) as Hr.
  pose proof (filter_length_le (fun a => isSome (readArtifactText spec_ ctx a))
                               (targetArtifacts ac)) as Hf.
  simpl in Hr.
  rewrite (findContradictionSignals_few rt); [|lia].
  simpl. eexists. eexists. split; reflexivity.
Qed.

(** * The double division *)

(** A quotient of two non-negative integers is not negative. *)
Lemma binary_round_aux_unsigned (m e : Z) (l : SpecFloat.location) :
  unsigned (SpecFloat.binary_round_aux 53 1024 false m e l).
Proof.
  unfold SpecFloat.binary_round_aux.
  destruct (SpecFloat.shr_fexp 53 1024 m e l) as [mrs' e'].
  destruct (SpecFloat.shr_fexp 53 1024 _ e' SpecFloat.loc_Exact) as [mrs'' e''].
  destruct (SpecFloat.shr_m mrs''); simpl; auto.
  destruct (e'' <=? _)%Z; simpl; auto.
Qed.

Lemma ofZ_unsigned (z : Z) : (0 <= z)%Z -> unsigned (ofZ z).
Proof.
  intros Hz. unfold ofZ, SpecFloat.binary_normalize.
  destruct z as [|p|p]; simpl; auto; [|lia].
  unfold SpecFloat.binary_round.
  match goal with
  | |- context [let '(_, _) := ?t in _] => destruct t as [mz ez]
  end.
  apply binary_round_aux_unsigned.
Qed.

Lemma SFdiv_unsigned (x y : binary64) :
  unsigned x -> unsigned y -> unsigned (SpecFloat.SFdiv 53 1024 x y).
Proof.
  destruct x as [sx|sx| |sx mx ex], y as [sy|sy| |sy my ey]; simpl; auto.
  intros -> ->. simpl.
  destruct (SpecFloat.SFdiv_core_binary 53 1024 (Z.pos mx) ex (Z.pos my) ey)
    as [[m e] l].
  apply binary_round_aux_unsigned.
Qed.

Lemma valueOf_unsigned (f : binary64) : unsigned f -> 0 <= valueOf f.
Proof.
  destruct f as [s|s| |s m e]; simpl; intros H; try discriminate.
  subst s. apply Qmult_le_0_compat.
  - change 0 with (inject_Z 0). rewrite <- Zle_Qle. lia.
  - apply Qpower_0_le. discriminate.
Qed.

Lemma divide_nonneg (x y : Z) : (0 <= x)%Z -> (0 <= y)%Z -> 0 <= divide x y.
Proof.
  intros Hx Hy. unfold divide.
  apply valueOf_unsigned, SFdiv_unsigned; now apply ofZ_unsigned.
Qed.

Lemma pow2_pos (e : Z) : 0 < 2 ^ e.
Proof. apply Qpower_0_lt. reflexivity. Qed.

Lemma pow2_succ (e : Z) : 2 ^ (e + 1) == 2 * 2 ^ e.
Proof. rewrite Qpower_plus by discriminate. change (2 ^ 1) with 2. ring. Qed.

Lemma scaled_le (m m' e : Z) : (m <= m')%Z -> scaled m e <= scaled m' e.
Proof.
  intros H. unfold scaled. apply Qmult_le_compat_r.
  - now rewrite <- Zle_Qle.
  - apply Qlt_le_weak, pow2_pos.
Qed.

Lemma scaled_lt (m m' e : Z) : (m < m')%Z -> scaled m e < scaled m' e.
Proof.
  intros H. unfold scaled. apply Qmult_lt_compat_r.
  - apply pow2_pos.
  - now rewrite <- Zlt_Qlt.
Qed.

Lemma scaled_double (m e : Z) : scaled m (e + 1) == scaled (2 * m) e.
Proof. unfold scaled. rewrite pow2_succ, inject_Z_mult. ring. Qed.

Lemma scaled_exp (m e e' : Z) : e = e' -> scaled m e == scaled m e'.
Proof. intros ->. reflexivity. Qed.

Lemma shr_1_truncates (mrs : SpecFloat.shr_record) (e : Z) (x : Q) :
  truncates mrs e x -> truncates (SpecFloat.shr_1 mrs) (e + 1) x.
Proof.
  destruct mrs as [m r s]. unfold truncates. simpl. intros (Hm & Hle & Hlt).
  destruct m as [|p|p]; [| |lia].
  - simpl. split; [lia|]. split.
    + rewrite scaled_double. exact Hle.
    + intros H. rewrite scaled_double. apply Hlt. exact H.
  - destruct p as [p|p|]; simpl; (split; [lia|]); rewrite scaled_double.
    + assert (H : scaled (2 * Z.pos p) e < x).
      { eapply Qlt_le_trans; [|exact Hle]. apply scaled_lt. lia. }
      split; [now apply Qlt_le_weak | intros _; exact H].
    + change (2 * Z.pos p)%Z with (Z.pos p~0). split; [exact Hle|].
      exact Hlt.
    + assert (H : scaled (2 * 0) e < x).
      { eapply Qlt_le_trans; [|exact Hle]. apply scaled_lt. lia. }
      split; [now apply Qlt_le_weak | intros _; exact H].
Qed.

Lemma truncates_exp (mrs : SpecFloat.shr_record) (e e' : Z) (x : Q) :
  e = e' -> truncates mrs e x -> truncates mrs e' x.
Proof. intros ->. auto. Qed.

Lemma iter_shr_1_truncates (p : positive) :
  forall mrs e x,
    truncates mrs e x ->
    truncates (SpecFloat.iter_pos SpecFloat.shr_1 p mrs) (e + Z.pos p) x.
Proof.
  induction p as [p IH|p IH|]; intros mrs e x H; simpl.
  - apply (truncates_exp _ (e + 1 + Z.pos p + Z.pos p)); [lia|].
    apply IH, IH, shr_1_truncates, H.
  - apply (truncates_exp _ (e + Z.pos p + Z.pos p)); [lia|].
    apply IH, IH, H.
  - apply shr_1_truncates, H.
Qed.

Lemma shr_fexp_truncates (m e : Z) (l : SpecFloat.location) (x : Q) :
  truncates (SpecFloat.shr_record_of_loc m l) e x ->
  truncates (fst (SpecFloat.shr_fexp 53 1024 m e l))
            (snd (SpecFloat.shr_fexp 53 1024 m e l)) x
  /\ (snd (SpecFloat.shr_fexp 53 1024 m e l) = e
      \/ snd (SpecFloat.shr_fexp 53 1024 m e l)
         = SpecFloat.fexp 53 1024 (SpecFloat.Zdigits2 m + e)).
Proof.
  intros H. unfold SpecFloat.shr_fexp, SpecFloat.shr.
  destruct (SpecFloat.fexp 53 1024 (SpecFloat.Zdigits2 m + e) - e)%Z as [|p|p] eqn:E;
    simpl; auto.
  split; [now apply iter_shr_1_truncates|]. right. lia.
Qed.

Lemma fexp_le_0 (d : Z) : (d <= 53)%Z -> (SpecFloat.fexp 53 1024 d <= 0)%Z.
Proof. unfold SpecFloat.fexp, SpecFloat.emin. lia. Qed.

Lemma pow2_inv (e : Z) : (e <= 0)%Z -> 2 ^ e * inject_Z (2 ^ (- e)) == 1.
Proof.
  intros He. rewrite Zpower_Qpower by lia. change (inject_Z 2) with 2.
  rewrite <- Qpower_plus by discriminate.
  replace (e + - e)%Z with 0%Z by lia. reflexivity.
Qed.

Lemma scaled_le_1 (m e : Z) : (e <= 0)%Z -> (scaled m e <= 1 <-> (m <= 2 ^ (- e))%Z).
Proof.
  intros He. pose proof (pow2_inv e He) as Hinv. pose proof (pow2_pos e) as Hp.
  assert (HK : 0 < inject_Z (2 ^ (- e))).
  { change 0 with (inject_Z 0). rewrite <- Zlt_Qlt. apply Z.pow_pos_nonneg; lia. }
  unfold scaled. rewrite Zle_Qle. split; intros H.
  - assert (inject_Z m * 2 ^ e * inject_Z (2 ^ (- e)) <= 1 * inject_Z (2 ^ (- e))).
    { apply Qmult_le_compat_r; [exact H | now apply Qlt_le_weak]. }
    setoid_replace (inject_Z m * 2 ^ e * inject_Z (2 ^ (- e)))
      with (inject_Z m * (2 ^ e * inject_Z (2 ^ (- e)))) in H0 by ring.
    rewrite Hinv in H0. lra.
  - assert (inject_Z m * 2 ^ e <= inject_Z (2 ^ (- e)) * 2 ^ e).
    { apply Qmult_le_compat_r; [exact H | now apply Qlt_le_weak]. }
    setoid_replace (inject_Z (2 ^ (- e)) * 2 ^ e) with (2 ^ e * inject_Z (2 ^ (- e)))
      in H0 by ring.
    rewrite Hinv in H0. exact H0.
Qed.

Lemma scaled_lt_1 (m e : Z) : (e <= 0)%Z -> scaled m e < 1 -> (m < 2 ^ (- e))%Z.
Proof.
  intros He H. destruct (Z_lt_le_dec m (2 ^ (- e))) as [Hlt|Hge]; [exact Hlt|].
  exfalso. apply (Qlt_irrefl 1). eapply Qle_lt_trans; [|exact H].
  setoid_replace 1 with (scaled (2 ^ (- e)) e).
  - now apply scaled_le.
  - unfold scaled. rewrite Qmult_comm. symmetry. now apply pow2_inv.
Qed.

Lemma round_nearest_even_cases (mrs : SpecFloat.shr_record) :
  let m := SpecFloat.shr_m mrs in
  let m' := SpecFloat.round_nearest_even m (SpecFloat.loc_of_shr_record mrs) in
  m' = m
  \/ (m' = (m + 1)%Z /\ SpecFloat.shr_r mrs || SpecFloat.shr_s mrs = true).
Proof.
  destruct mrs as [m [|] [|]]; simpl; auto.
  destruct (Z.even m); auto.
Qed.

Lemma truncates_exact (m e : Z) :
  (0 <= m)%Z ->
  truncates (SpecFloat.shr_record_of_loc m SpecFloat.loc_Exact) e (scaled m e).
Proof.
  intros Hm. unfold truncates. simpl. split; [exact Hm|].
  split; [apply Qle_refl | discriminate].
Qed.

(** Rounding a value that is at most 1 gives at most 1. *)
Lemma binary_round_aux_le_1 (m e : Z) (l : SpecFloat.location) (x : Q) :
  truncates (SpecFloat.shr_record_of_loc m l) e x ->
  x <= 1 -> (e <= 0)%Z -> (SpecFloat.Zdigits2 m + e <= 53)%Z ->
  valueOf (SpecFloat.binary_round_aux 53 1024 false m e l) <= 1.
Proof.
  intros Ht Hx He Hd. unfold SpecFloat.binary_round_aux.
  destruct (shr_fexp_truncates m e l x Ht) as (Ht1 & He1).
  destruct (SpecFloat.shr_fexp 53 1024 m e l) as [mrs' e']. simpl in Ht1, He1.
  assert (He' : (e' <= 0)%Z).
  { destruct He1 as [->| ->]; [exact He | now apply fexp_le_0]. }
  set (mr := SpecFloat.round_nearest_even (SpecFloat.shr_m mrs')
                                          (SpecFloat.loc_of_shr_record mrs')).
  destruct Ht1 as (Hm' & Hle' & Hlt').
  assert (Hmr : (0 <= mr)%Z /\ scaled mr e' <= 1).
  { destruct (round_nearest_even_cases mrs') as [H|[H Hin]]; fold mr in H; rewrite H.
    - split; [exact Hm'|]. eapply Qle_trans; eassumption.
    - split; [lia|]. apply scaled_le_1; [exact He'|].
      assert (scaled (SpecFloat.shr_m mrs') e' < 1)
        by (eapply Qlt_le_trans; [apply Hlt', Hin | exact Hx]).
      apply scaled_lt_1 in H0; [lia | exact He']. }
  destruct Hmr as (Hmr0 & Hmr1).
  destruct (shr_fexp_truncates mr e' SpecFloat.loc_Exact _ (truncates_exact mr e' Hmr0))
    as ((_ & Hle'' & _) & _).
  destruct (SpecFloat.shr_fexp 53 1024 mr e' SpecFloat.loc_Exact) as [mrs'' e''].
  simpl in Hle''.
  destruct (SpecFloat.shr_m mrs'') as [|p|p]; cbn [valueOf]; try lra.
  destruct (e'' <=? 1024 - 53)%Z; cbn [valueOf]; [|lra].
  eapply Qle_trans; [exact Hle'' | exact Hmr1].
Qed.

(** The number of binary digits of a positive number. *)
Lemma digits2_pos_size (p : positive) : SpecFloat.digits2_pos p = Pos.size p.
Proof. induction p; simpl; congruence. Qed.

Lemma digits2_pos_bounds (p : positive) :
  (2 ^ (Z.pos (SpecFloat.digits2_pos p) - 1) <= Z.pos p
   < 2 ^ Z.pos (SpecFloat.digits2_pos p))%Z.
Proof.
  rewrite digits2_pos_size.
  pose proof (Pos.size_le p) as Hle. pose proof (Pos.size_gt p) as Hgt.
  assert (H2 : (2 ^ Z.pos (Pos.size p) = Z.pos (2 ^ Pos.size p))%Z)
    by (now rewrite Pos2Z.inj_pow).
  assert (H3 : (2 ^ Z.pos (Pos.size p) = 2 * 2 ^ (Z.pos (Pos.size p) - 1))%Z).
  { rewrite <- Z.pow_succ_r by lia. f_equal. lia. }
  lia.
Qed.

Lemma pow2_scaled (e : Z) : 2 ^ e == scaled 1 e.
Proof. unfold scaled. change (inject_Z 1) with 1. ring. Qed.

Lemma scaled_pow (k e : Z) : (0 <= k)%Z -> scaled (2 ^ k) e == 2 ^ (k + e).
Proof.
  intros Hk. unfold scaled. rewrite Zpower_Qpower by exact Hk.
  change (inject_Z 2) with 2. now rewrite Qpower_plus by discriminate.
Qed.

Lemma scaled_digits (p : positive) (e : Z) :
  2 ^ (Z.pos (SpecFloat.digits2_pos p) - 1 + e) <= scaled (Z.pos p) e
  /\ scaled (Z.pos p) e < 2 ^ (Z.pos (SpecFloat.digits2_pos p) + e).
Proof.
  pose proof (digits2_pos_bounds p) as (Hlo & Hhi). split.
  - rewrite <- scaled_pow by lia. now apply scaled_le.
  - rewrite <- scaled_pow by lia. now apply scaled_lt.
Qed.

Lemma pow2_le_inv (a b : Z) : 2 ^ a <= 2 ^ b -> (a <= b)%Z.
Proof. intros H. apply (Qpower_le_compat_l_inv 2); [exact H | reflexivity]. Qed.

Lemma pow2_lt_inv (a b : Z) : 2 ^ a < 2 ^ b -> (a < b)%Z.
Proof. intros H. apply (Qpower_lt_compat_l_inv 2); [exact H | reflexivity]. Qed.

Lemma new_location_exact (n k : Z) :
  SpecFloat.new_location n k = SpecFloat.loc_Exact \/ k <> 0%Z.
Proof.
  destruct (Z.eq_dec k 0) as [->|H]; [left | now right].
  unfold SpecFloat.new_location, SpecFloat.new_location_even, SpecFloat.new_location_odd.
  destruct (Z.even n); reflexivity.
Qed.

Lemma record_of_loc_inexact (m : Z) (l : SpecFloat.location) :
  SpecFloat.shr_m (SpecFloat.shr_record_of_loc m l) = m
  /\ (SpecFloat.shr_r (SpecFloat.shr_record_of_loc m l)
      || SpecFloat.shr_s (SpecFloat.shr_record_of_loc m l) = true ->
      l <> SpecFloat.loc_Exact).
Proof.
  destruct l as [|[| |]]; simpl; split; auto; discriminate.
Qed.

(** A quotient of a positive double by one that is not smaller is at most
    1 after rounding. *)
Lemma SFdiv_le_1 (m1 m2 : positive) (e1 e2 : Z) :
  scaled (Z.pos m1) e1 <= scaled (Z.pos m2) e2 ->
  valueOf (SpecFloat.SFdiv 53 1024 (SpecFloat.S754_finite false m1 e1)
                           (SpecFloat.S754_finite false m2 e2)) <= 1.
Proof.
  intros Hxy. unfold SpecFloat.SFdiv, SpecFloat.SFdiv_core_binary.
  cbn [xorb SpecFloat.Zdigits2].
  set (d1 := Z.pos (SpecFloat.digits2_pos m1)).
  set (d2 := Z.pos (SpecFloat.digits2_pos m2)).
  set (e' := Z.min (SpecFloat.fexp 53 1024 (d1 + e1 - (d2 + e2))) (e1 - e2)).
  destruct (scaled_digits m1 e1) as (Hlo1 & _).
  destruct (scaled_digits m2 e2) as (_ & Hhi2).
  fold d1 in Hlo1. fold d2 in Hhi2.
  assert (Hd : (d1 + e1 - (d2 + e2) <= 0)%Z).
  { assert (H : 2 ^ (d1 - 1 + e1) < 2 ^ (d2 + e2)).
    { eapply Qle_lt_trans; [exact Hlo1|]. eapply Qle_lt_trans; eassumption. }
    apply pow2_lt_inv in H. lia. }
  assert (He' : (e' <= -53)%Z).
  { unfold e', SpecFloat.fexp, SpecFloat.emin. lia. }
  assert (Hs : (0 <= e1 - e2 - e')%Z) by (unfold e'; lia).
  set (m' := match (e1 - e2 - e')%Z with
             | 0%Z => Z.pos m1
             | Z.pos _ => Z.shiftl (Z.pos m1) (e1 - e2 - e')
             | Z.neg _ => 0%Z
             end).
  assert (Hm' : m' = (Z.pos m1 * 2 ^ (e1 - e2 - e'))%Z).
  { unfold m'. destruct (e1 - e2 - e')%Z as [|p|p] eqn:E; [simpl; lia | | lia].
    rewrite Z.shiftl_mul_pow2 by lia. reflexivity. }
  pose proof (Z_div_mod m' (Z.pos m2) eq_refl) as Hdiv.
  destruct (Z.div_eucl m' (Z.pos m2)) as [q r]. destruct Hdiv as (Hqr & Hr).
  assert (Hq : (0 <= q)%Z).
  { assert (0 <= m')%Z by (rewrite Hm'; apply Z.mul_nonneg_nonneg; [lia|];
                           apply Z.pow_nonneg; lia). nia. }
  set (x := scaled (Z.pos m1) e1 / scaled (Z.pos m2) e2).
  assert (Hy : 0 < scaled (Z.pos m2) e2).
  { unfold scaled. apply Qmult_lt_0_compat; [reflexivity | apply pow2_pos]. }
  assert (Hx1 : x <= 1).
  { unfold x. apply Qle_shift_div_r; [exact Hy|]. now rewrite Qmult_1_l. }
  assert (Hprod : forall k, scaled k e' * scaled (Z.pos m2) e2
                            == scaled (k * Z.pos m2) (e' + e2)).
  { intros k. unfold scaled. rewrite inject_Z_mult, Qpower_plus by discriminate. ring. }
  assert (Hnum : scaled (Z.pos m1) e1 == scaled m' (e' + e2)).
  { rewrite Hm'. unfold scaled. rewrite inject_Z_mult, Zpower_Qpower by exact Hs.
    change (inject_Z 2) with 2.
    rewrite <- Qmult_assoc, <- Qpower_plus by discriminate.
    replace (e1 - e2 - e' + (e' + e2))%Z with e1 by lia. reflexivity. }
  assert (Hqx : scaled q e' <= x).
  { unfold x. apply Qle_shift_div_l; [exact Hy|]. rewrite Hprod, Hnum.
    apply scaled_le. lia. }
  apply (binary_round_aux_le_1 q e' _ x).
  - destruct (record_of_loc_inexact q (SpecFloat.new_location (Z.pos m2) r)) as (Hm & Hin).
    unfold truncates. rewrite Hm. split; [exact Hq|]. split; [exact Hqx|].
    intros H. apply Hin in H.
    destruct (new_location_exact (Z.pos m2) r) as [Hex|Hr0]; [contradiction|].
    unfold x. apply Qlt_shift_div_l; [exact Hy|]. rewrite Hprod, Hnum.
    apply scaled_lt. lia.
  - exact Hx1.
  - lia.
  - destruct q as [|p|p]; [simpl; lia | | lia].
    cbn [SpecFloat.Zdigits2].
    destruct (scaled_digits p e') as (Hlo & _).
    assert (H : 2 ^ (Z.pos (SpecFloat.digits2_pos p) - 1 + e') <= 2 ^ 0).
    { eapply Qle_trans; [exact Hlo|]. eapply Qle_trans; [exact Hqx | exact Hx1]. }
    apply pow2_le_inv in H. lia.
Qed.

Lemma iter_xO_value (k p : positive) : Z.pos (Pos.iter xO p k) = (Z.pos p * 2 ^ Z.pos k)%Z.
Proof.
  revert p. induction k as [|k IH] using Pos.peano_ind; intros p.
  - simpl. lia.
  - rewrite Pos.iter_succ, Pos2Z.inj_succ, Z.pow_succ_r by lia.
    change (Z.pos (Pos.iter xO p k)~0) with (2 * Z.pos (Pos.iter xO p k))%Z.
    rewrite IH. lia.
Qed.

Lemma iter_xO_digits (k p : positive) :
  SpecFloat.digits2_pos (Pos.iter xO p k) = (SpecFloat.digits2_pos p + k)%positive.
Proof.
  revert p. induction k as [|k IH] using Pos.peano_ind; intros p.
  - simpl. lia.
  - rewrite Pos.iter_succ. simpl. rewrite IH. lia.
Qed.

(** A mantissa of 53 bits at an exponent in range is left as it is. *)
Lemma binary_round_aux_canonical (m : positive) (e : Z) :
  SpecFloat.digits2_pos m = 53%positive -> (-1074 <= e <= 0)%Z ->
  SpecFloat.binary_round_aux 53 1024 false (Z.pos m) e SpecFloat.loc_Exact
  = SpecFloat.S754_finite false m e.
Proof.
  intros Hd He.
  assert (Hsh : SpecFloat.shr_fexp 53 1024 (Z.pos m) e SpecFloat.loc_Exact
                = (SpecFloat.shr_record_of_loc (Z.pos m) SpecFloat.loc_Exact, e)).
  { unfold SpecFloat.shr_fexp. cbn [SpecFloat.Zdigits2]. rewrite Hd.
    replace (SpecFloat.fexp 53 1024 (53 + e) - e)%Z with 0%Z
      by (unfold SpecFloat.fexp, SpecFloat.emin; lia).
    reflexivity. }
  unfold SpecFloat.binary_round_aux. rewrite Hsh.
  cbn [SpecFloat.shr_record_of_loc SpecFloat.shr_m SpecFloat.loc_of_shr_record
       SpecFloat.round_nearest_even].
  rewrite Hsh. cbn [SpecFloat.shr_record_of_loc SpecFloat.shr_m].
  destruct (e <=? 1024 - 53)%Z eqn:E; [reflexivity|].
  apply Z.leb_gt in E. lia.
Qed.

(** An integer below 2^53 is a double. *)
Lemma ofZ_exact (p : positive) :
  (Z.pos p < 2 ^ 53)%Z ->
  exists m e, ofZ (Z.pos p) = SpecFloat.S754_finite false m e
              /\ scaled (Z.pos m) e == inject_Z (Z.pos p).
Proof.
  intros Hp. unfold ofZ, SpecFloat.binary_normalize, SpecFloat.binary_round.
  pose proof (digits2_pos_bounds p) as (Hlo & _).
  set (d := SpecFloat.digits2_pos p) in *.
  assert (Hd : (Z.pos d <= 53)%Z).
  { destruct (Z_le_gt_dec (Z.pos d) 53) as [H|H]; [exact H | exfalso].
    assert (2 ^ 53 <= 2 ^ (Z.pos d - 1))%Z by (apply Z.pow_le_mono_r; lia). lia. }
  replace (SpecFloat.fexp 53 1024 (Z.pos d + 0)) with (Z.pos d - 53)%Z
    by (unfold SpecFloat.fexp, SpecFloat.emin; lia).
  unfold SpecFloat.shl_align.
  destruct (Z.pos d - 53 - 0)%Z as [|k|k] eqn:E; [| lia |].
  - exists p, 0%Z. split.
    + apply binary_round_aux_canonical; [|lia]. fold d. lia.
    + unfold scaled. change (2 ^ 0) with 1. ring.
  - exists (Pos.iter xO p k), (Z.pos d - 53)%Z. split.
    + apply binary_round_aux_canonical; [|lia]. rewrite iter_xO_digits. fold d. lia.
    + rewrite iter_xO_value. unfold scaled.
      rewrite inject_Z_mult, Zpower_Qpower by lia. change (inject_Z 2) with 2.
      rewrite <- Qmult_assoc, <- Qpower_plus by discriminate.
      replace (Z.pos k + (Z.pos d - 53))%Z with 0%Z by lia.
      change (2 ^ 0) with 1. ring.
Qed.

(** The rounded quotient of two counts below 2^53, the first at most the
    second, is at most 1. *)
Lemma divide_le_1 (x y : Z) :
  (0 <= x <= y)%Z -> (y < 2 ^ 53)%Z -> divide x y <= 1.
Proof.
  intros Hxy Hy. unfold divide.
  destruct x as [|p|p]; [| |lia].
  - destruct (ofZ y) as [s|s| |s m e]; cbn; lra.
  - destruct y as [|q|q]; [lia| |lia].
    destruct (ofZ_exact p) as (m1 & e1 & -> & H1); [lia|].
    destruct (ofZ_exact q) as (m2 & e2 & -> & H2); [lia|].
    apply SFdiv_le_1. rewrite H1, H2, <- Zle_Qle. lia.
Qed.

(** The quotient 5 / 7 as the division rounds it: the double of
    0.7142857142857143, which the exact quotient does not reach. *)
Example divide_5_7 :
  divide 5 7 == 6433713753386423 # 9007199254740992
  /\ divide 7142857142857143 10000000000000000 == divide 5 7
  /\ Qle_bool (7142857142857143 # 10000000000000000) (5 # 7) = false.
Proof. repeat split; vm_compute; reflexivity. Qed.

Section TraceabilityProps.

Variable rt : Runtime.

Lemma fold_Qmin_glb (l : list ArtifactCoverage) :
  forall (m0 c : Q),
    c <= fold_left (fun m x => Qmin m (coverage x)) l m0
    <-> c <= m0 /\ forall x, In x l -> c <= coverage x.
Proof.
  induction l as [|y l IH]; intros m0 c; simpl.
  - split; [intros H; split; [exact H | intros x []] | intros [H _]; exact H].
  - rewrite IH, Q.min_glb_iff. split.
    + intros [[H0 Hy] Hl]. split; [exact H0|]. intros x [<-|Hx]; auto.
    + intros [H0 Hl]. repeat split; auto.
Qed.

Lemma coverageOf_record (spec_ : VCCSpec) (ctx : RunContext) (patternSource : string)
      (a : ArtifactId) (text_ : string) :
  readArtifactText spec_ ctx a = Some text_ ->
  coverageRecord rt spec_ ctx patternSource a (coverageOf rt patternSource a text_).
Proof.
  intros Hread. exists text_.
  pose proof (filter_length_le (isCited rt patternSource) (sentencesOf rt text_)) as Hf.
  pose proof (Nat.le_max_l 1 (length (sentencesOf rt text_))) as H1.
  pose proof (Nat.le_max_r 1 (length (sentencesOf rt text_))) as H2.
  unfold coverageOf.
  cbn [covArtifactId cited total coverage].
  split; [exact Hread|]. split; [reflexivity|]. split; [reflexivity|].
  split; [reflexivity|]. split; [exact H1|].
  split; [apply (Nat.le_trans _ _ _ Hf H2)|].
  split; [reflexivity|].
  split; [apply divide_nonneg; lia|].
  intros Hsmall. apply divide_le_1; lia.
Qed.

Lemma perArtifactCoverage_records (spec_ : VCCSpec) (ctx : RunContext)
      (patternSource : string) (targets : list ArtifactId) :
  forall perArtifact,
    perArtifactCoverage rt spec_ ctx patternSource targets = Some perArtifact ->
    Forall2 (coverageRecord rt spec_ ctx patternSource) targets perArtifact.
Proof.
  induction targets as [|a rest IH]; intros perArtifact; simpl.
  - intros [= <-]. constructor.
  - destruct (readArtifactText spec_ ctx a) as [t|] eqn:Hread; [|discriminate].
    destruct (perArtifactCoverage rt spec_ ctx patternSource rest) as [more|];
      [|discriminate].
    intros [= <-]. constructor; [now apply coverageOf_record | now apply IH].
Qed.


End TraceabilityProps.



Section RubricProps.

Variable rt : Runtime.

(** Reading the content for the judge rejects when there is a first
    target to read, and gives the empty content, writing nothing, when
    there is none. *)
Lemma safeReadText_rejects (ctx : RunContext) (uri_ : string) (w : Written) :
  safeReadText ctx uri_ w = None.
Proof. reflexivity. Qed.

Lemma rubric_content_cases (ac : AcceptanceCriterionSpec) (ctx : RunContext) (w : Written) :
  (rubric_content ac ctx w = None
   /\ exists t, rubric_target ac = Some t /\ t <> "")
  \/ (rubric_content ac ctx w = Some ("", w)
      /\ (rubric_target ac = None \/ rubric_target ac = Some "")).
Proof.
  unfold rubric_content. destruct (rubric_target ac) as [t|]; [|right; auto].
  destruct t as [|c t]; simpl; [right; auto|].
  left. split; [reflexivity|]. eexists. split; [reflexivity | discriminate].
Qed.

(** A rubric that carries only the declared properties never supplies the
    rubric text. *)
Lemma rubric_text_declared_only (ac : AcceptanceCriterionSpec) (spec_ : VCCSpec) :
  (forall r, In r (orEmpty (rubrics spec_)) -> text r = None) ->
  rubric_text ac spec_
  = "Rubric " +++ showOpt (rubricRef (rule ac)) +++ " not found in spec.".
Proof.
  intros Hall. unfold rubric_text.
  destruct (rubric_resolve ac spec_) as [r|] eqn:Hres; [|reflexivity].
  unfold rubric_resolve in Hres. destruct (rubricRef (rule ac)); [|discriminate].
  apply find_some in Hres as [Hin _]. now rewrite (Hall r Hin).
Qed.

(** Without a first target to read and without a judge the validator
    skips, and writes why. *)
Lemma rubric_skip_without_judge (ac : AcceptanceCriterionSpec) (spec_ : VCCSpec)
      (ctx : RunContext) (w : Written) :
  rubric_target ac = None \/ rubric_target ac = Some "" ->
  aiJudge ctx = None ->
  exists r note,
    rubric_validate rt ac spec_ ctx w = Some (r, (evidenceUriFor (acId ac), note) :: w)
    /\ status r = skip
    /\ refUri (resEvidence r) = evidenceUriFor (acId ac)
    /\ String.prefix "SKIP: No aiJudge configured in RunContext." note = true.
Proof.
  intros Ht Hj. unfold rubric_validate. rewrite Hj.
  destruct (rubric_content_cases ac ctx w) as [[_ (t & Ht' & Hne)]|[-> _]].
  - exfalso. destruct Ht as [Ht|Ht]; rewrite Ht in Ht'; [discriminate|].
    injection Ht' as <-. now apply Hne.
  - eexists. eexists. split; [reflexivity|]. simpl. auto.
Qed.

(** Without a first target to read and with a judge the verdict is the
    comparison of the score with the threshold, the judge being given the
    empty content. *)
Lemma rubric_pass_iff_score (ac : AcceptanceCriterionSpec) (spec_ : VCCSpec)
      (ctx : RunContext) (w : Written) (judge : AiJudgeArgs -> AiJudgeScore) :
  rubric_target ac = None \/ rubric_target ac = Some "" ->
  aiJudge ctx = Some judge ->
  exists r note,
    rubric_validate rt ac spec_ ctx w = Some (r, (evidenceUriFor (acId ac), note) :: w)
    /\ (status r = pass \/ status r = fail)
    /\ (status r = pass
        <-> rubric_passThreshold ac <= score (judge (rubric_judgeArgs ac spec_ ""))).
Proof.
  intros Ht Hj. unfold rubric_validate. rewrite Hj.
  destruct (rubric_content_cases ac ctx w) as [[_ (t & Ht' & Hne)]|[-> _]].
  - exfalso. destruct Ht as [Ht|Ht]; rewrite Ht in Ht'; [discriminate|].
    injection Ht' as <-. now apply Hne.
  - destruct (Qle_bool (rubric_passThreshold ac)
                       (score (judge (rubric_judgeArgs ac spec_ "")))) eqn:Hb.
    + eexists. eexists. split; [reflexivity|]. simpl.
      apply Qle_bool_iff in Hb. tauto.
    + eexists. eexists. split; [reflexivity|]. simpl.
      split; [now right|]. split; [discriminate|].
      intros H. apply Qle_bool_iff in H. congruence.
Qed.

(** With a first target to read the validator rejects, whether a judge is
    configured or not. *)
Lemma rubric_rejects_on_target (ac : AcceptanceCriterionSpec) (spec_ : VCCSpec)
      (ctx : RunContext) (w : Written) (t : ArtifactId) :
  rubric_target ac = Some t -> t <> "" ->
  rubric_validate rt ac spec_ ctx w = None.
Proof.
  intros Ht Hne. unfold rubric_validate.
  destruct (rubric_content_cases ac ctx w) as [[-> _]|[_ [H|H]]].
  - reflexivity.
  - congruence.
  - rewrite Ht in H. injection H as ->. now contradiction Hne.
Qed.

End RubricProps.

(** C5. The rubric validator on a criterion bound to the default rubric
    [RUBRIC-OVERALL-v1], whose first target [requirements] is declared,
    readable and not empty: the rubric resolves, the target has content
    and the sample judge passes that content, yet [validate] rejects, with
    a judge configured and without one alike: the judge is never invoked
    and no skip is returned.  The read of the first target rejects, and
    the handler meant to absorb that rejects in turn. *)
Theorem rubric_validate_rejects_on_target :
  rubric_canValidate rubricCriterion sampleNormalized judgedCtx = Some true
  /\ rubric_resolve rubricCriterion sampleNormalized = Some rubricOverall
  /\ readArtifactText sampleNormalized judgedCtx "requirements" = Some "Scope UNSOURCED"
  /\ Qle_bool (rubric_passThreshold rubricCriterion)
              (score (strictJudge {| rubricText := rubric_text rubricCriterion sampleNormalized;
                                     content := "Scope UNSOURCED";
                                     judgePassThreshold := rubric_passThreshold rubricCriterion;
                                     judgeAcId := "AC-RUBRIC-1" |})) = true
  /\ aiJudge judgedCtx = Some strictJudge
  /\ rubric_validate literalRuntime rubricCriterion sampleNormalized judgedCtx [] = None
  /\ aiJudge sampleCtx = None
  /\ rubric_validate literalRuntime rubricCriterion sampleNormalized sampleCtx [] = None.
Proof.
  repeat split; reflexivity.
Qed.

(** * Run Until Correct *)

Lemma passesAllowed_spec (rc : ResourceConstraints) (t : nat) :
  (t < passesAllowed rc)%nat
  <-> exists m, maxIterations rc = Some m /\ inject_Z (Z.of_nat t) < m.
Proof.
  unfold passesAllowed. destruct (maxIterations rc) as [m|].
  - pose proof (Qle_ceiling m) as Hle. pose proof (Qceiling_lt m) as Hlt.
    split.
    + intros H. exists m. split; [reflexivity|].
      apply Qle_lt_trans with (inject_Z (Qceiling m - 1)); [|exact Hlt].
      rewrite <- Zle_Qle. lia.
    + intros (m' & [= <-] & H).
      assert (inject_Z (Z.of_nat t) < inject_Z (Qceiling m))
        by (eapply Qlt_le_trans; eauto).
      rewrite <- Zlt_Qlt in H0. lia.
  - split; [lia | intros (m & Hm & _); discriminate].
Qed.

Section LoopProps.

Variables Outputs History : Type.
Variable evaluateMustCriteria : VCCSpec -> Outputs -> list string.
Variable isStagnant : list string -> History -> bool * History.
Variable refine : Outputs -> list string -> Outputs.

#[local] Abbreviation loop_ := (@loop Outputs History evaluateMustCriteria isStagnant refine).
#[local] Abbreviation passOn_ := (@passOn Outputs History evaluateMustCriteria isStagnant refine).
#[local] Abbreviation failingAt_ := (@failingAt Outputs History evaluateMustCriteria isStagnant refine).
#[local] Abbreviation stagnantAt_ := (@stagnantAt Outputs History evaluateMustCriteria isStagnant refine).
#[local] Abbreviation goesOn_ := (@goesOn Outputs History evaluateMustCriteria isStagnant refine).
#[local] Abbreviation reached_ := (@reached Outputs History evaluateMustCriteria isStagnant refine).

Lemma reached_0 (s : VCCSpec) (n : nat) (st : Outputs * History) :
  reached_ s (S n) st 0.
Proof. split; [lia | intros j Hj; lia]. Qed.

Lemma reached_S (s : VCCSpec) (n k : nat) (st : Outputs * History) :
  reached_ s (S n) st (S k) <-> goesOn_ s st 0 /\ reached_ s n (passOn_ s st) k.
Proof.
  unfold reached. split.
  - intros [Hk Hall]. split; [apply Hall; lia|]. split; [lia|].
    intros j Hj. apply (Hall (S j)). lia.
  - intros [H0 [Hk Hall]]. split; [lia|].
    intros [|j] Hj; [exact H0|]. apply (Hall j). lia.
Qed.

Lemma failingAt_S (s : VCCSpec) (k : nat) (st : Outputs * History) :
  failingAt_ s (S k) st = failingAt_ s k (passOn_ s st).
Proof. reflexivity. Qed.

Lemma stagnantAt_S (s : VCCSpec) (k : nat) (st : Outputs * History) :
  stagnantAt_ s (S k) st = stagnantAt_ s k (passOn_ s st).
Proof. reflexivity. Qed.

Lemma length_eqb_0 {A} (l : list A) : (length l =? 0)%nat = true <-> l = [].
Proof. destruct l; simpl; split; congruence. Qed.

(** Where the loop exits, in terms of the passes it makes. *)
Lemma loop_exit (s : VCCSpec) :
  forall (n t0 : nat) (o : Outputs) (h : History),
    (forall t, loop_ s n t0 o h = SuccessAt t
               <-> exists k, t = (t0 + k)%nat /\ reached_ s n (o, h) k
                             /\ failingAt_ s k (o, h) = [])
    /\ (forall t, loop_ s n t0 o h = StagnantAt t
                  <-> exists k, t = (t0 + k)%nat /\ reached_ s n (o, h) k
                                /\ failingAt_ s k (o, h) <> []
                                /\ stagnantAt_ s k (o, h) = true)
    /\ (loop_ s n t0 o h = LoopEnd
        <-> forall k, (k < n)%nat -> goesOn_ s (o, h) k).
Proof.
  induction n as [|n IH]; intros t0 o h.
  - simpl. split; [intros t; split | split; [intros t; split | split]];
      try discriminate; try reflexivity.
    + intros (k & _ & [Hk _] & _). lia.
    + intros (k & _ & [Hk _] & _). lia.
    + intros _ k Hk. lia.
  - destruct (IH (S t0) (refine o (evaluateMustCriteria s o))
                 (snd (isStagnant (evaluateMustCriteria s o) h))) as (IHs & IHg & IHe).
    clear IH.
    assert (Hf0 : failingAt_ s 0 (o, h) = evaluateMustCriteria s o) by reflexivity.
    assert (Hs0 : stagnantAt_ s 0 (o, h) = fst (isStagnant (evaluateMustCriteria s o) h))
      by reflexivity.
    assert (Hpass : passOn_ s (o, h)
                    = (refine o (evaluateMustCriteria s o),
                       snd (isStagnant (evaluateMustCriteria s o) h))) by reflexivity.
    simpl loop.
    destruct (length (evaluateMustCriteria s o) =? 0)%nat eqn:Hlen.
    + (* the pass succeeds *)
      apply length_eqb_0 in Hlen.
      assert (Hno : ~ goesOn_ s (o, h) 0).
      { intros [Hne _]. rewrite Hf0 in Hne. contradiction. }
      split; [intros t; split | split; [intros t; split | split]].
      * intros [= <-]. exists 0%nat. rewrite Nat.add_0_r.
        split; [reflexivity|]. split; [apply reached_0 | now rewrite Hf0].
      * intros ([|k] & -> & Hr & _).
        -- now rewrite Nat.add_0_r.
        -- apply reached_S in Hr as [Hgo _]. contradiction.
      * discriminate.
      * intros ([|k] & -> & Hr & Hne & _).
        -- rewrite Hf0 in Hne. contradiction.
        -- apply reached_S in Hr as [Hgo _]. contradiction.
      * discriminate.
      * intros Hall. exfalso. apply Hno. apply Hall. lia.
    + assert (Hne : evaluateMustCriteria s o <> []).
      { intros H. apply length_eqb_0 in H. congruence. }
      destruct (isStagnant (evaluateMustCriteria s o) h) as [stagnant h'] eqn:Hst.
      simpl in *. destruct stagnant.
      * (* the pass stagnates *)
        assert (Hno : ~ goesOn_ s (o, h) 0).
        { intros [_ Hs]. rewrite Hs0 in Hs. discriminate. }
        split; [intros t; split | split; [intros t; split | split]].
        -- discriminate.
        -- intros ([|k] & -> & Hr & Hnil).
           ++ rewrite Hf0 in Hnil. contradiction.
           ++ apply reached_S in Hr as [Hgo _]. contradiction.
        -- intros [= <-]. exists 0%nat. rewrite Nat.add_0_r.
           split; [reflexivity|]. split; [apply reached_0|].
           split; [now rewrite Hf0 | now rewrite Hs0].
        -- intros ([|k] & -> & Hr & _).
           ++ now rewrite Nat.add_0_r.
           ++ apply reached_S in Hr as [Hgo _]. contradiction.
        -- discriminate.
        -- intros Hall. exfalso. apply Hno. apply Hall. lia.
      * (* the pass goes on *)
        assert (Hgo : goesOn_ s (o, h) 0).
        { split; [now rewrite Hf0 | now rewrite Hs0]. }
        split; [intros t; split | split; [intros t; split | split]].
        -- intros H. apply IHs in H as (k & -> & Hr & Hnil).
           exists (S k). split; [lia|]. split.
           ++ apply reached_S. rewrite Hpass. now split.
           ++ now rewrite failingAt_S, Hpass.
        -- intros ([|k] & -> & Hr & Hnil).
           ++ rewrite Hf0 in Hnil. contradiction.
           ++ apply IHs. exists k. split; [lia|].
              apply reached_S in Hr as [_ Hr]. rewrite Hpass in Hr.
              rewrite failingAt_S, Hpass in Hnil. now split.
        -- intros H. apply IHg in H as (k & -> & Hr & Hnn & Hs).
           exists (S k). split; [lia|]. split.
           ++ apply reached_S. rewrite Hpass. now split.
           ++ rewrite failingAt_S, stagnantAt_S, Hpass. now split.
        -- intros ([|k] & -> & Hr & Hnn & Hs).
           ++ rewrite Hs0 in Hs. discriminate.
           ++ apply IHg. exists k. split; [lia|].
              apply reached_S in Hr as [_ Hr]. rewrite Hpass in Hr.
              rewrite failingAt_S, Hpass in Hnn.
              rewrite stagnantAt_S, Hpass in Hs. now split.
        -- intros H [|k] Hk; [exact Hgo|].
           pose proof (proj1 IHe H k) as Hk'.
           unfold goesOn. rewrite failingAt_S, stagnantAt_S, Hpass.
           apply Hk'. lia.
        -- intros Hall. apply IHe. intros k Hk.
           pose proof (Hall (S k)) as Hk'.
           unfold goesOn in Hk'. rewrite failingAt_S, stagnantAt_S, Hpass in Hk'.
           apply Hk'. lia.
Qed.

End LoopProps.

(** X25. The exits of the loop.  For every run whose contract carries
    resource constraints, the loop leaves through exactly one exit, and:
    - in every pass [t] the loop makes, it returns SUCCESS in that pass
      exactly when the failing-MUST set evaluated in that pass is empty;
      the test comes first in the pass, before the stagnation test and
      before the loop bound is tested again;
    - the run reports SUCCESS exactly when some pass it makes evaluates an
      empty failing-MUST set;
    - when [maxIterations] admits at least one pass, a contract whose MUST
      criteria all pass on the first evaluation succeeds in pass 0,
      whatever the rest of the budget;
    - the FAILURE that follows the loop (the passes are exhausted) is
      reported exactly when every pass [t < maxIterations] was made with a
      non-empty failing-MUST set and no stagnation;
    - the loop bound is tested before the first evaluation: when
      [maxIterations] admits no pass, that FAILURE is reported without
      evaluating any criterion. *)
Theorem run_until_correct_law
        (Outputs History : Type)
        (evaluateMustCriteria : VCCSpec -> Outputs -> list string)
        (isStagnant : list string -> History -> bool * History)
        (refine : Outputs -> list string -> Outputs)
        (s : VCCSpec) (rc : ResourceConstraints)
        (outputs : Outputs) (history : History) :
  resourceConstraints s = Some rc ->
  exists e,
    runUntilCorrect evaluateMustCriteria isStagnant refine s outputs history = Some e
    /\ (forall t,
          reached evaluateMustCriteria isStagnant refine s (passesAllowed rc)
                  (outputs, history) t ->
          (e = SuccessAt t
           <-> failingAt evaluateMustCriteria isStagnant refine s t (outputs, history)
               = []))
    /\ (verdictOf e = SUCCESS
        <-> exists t,
            reached evaluateMustCriteria isStagnant refine s (passesAllowed rc)
                    (outputs, history) t
            /\ failingAt evaluateMustCriteria isStagnant refine s t (outputs, history)
               = [])
    /\ ((1 <= passesAllowed rc)%nat ->
        evaluateMustCriteria s outputs = [] -> e = SuccessAt 0)
    /\ (e = LoopEnd
        <-> forall t, (t < passesAllowed rc)%nat ->
                      goesOn evaluateMustCriteria isStagnant refine s
                             (outputs, history) t)
    /\ (passesAllowed rc = 0%nat -> e = LoopEnd).
Proof.
  intros Hrc. unfold runUntilCorrect. rewrite Hrc.
  eexists. split; [reflexivity|].
  destruct (loop_exit Outputs History evaluateMustCriteria isStagnant refine s
                      (passesAllowed rc) 0 outputs history) as (Hs & Hg & He).
  split; [|split; [|split; [|split]]].
  - intros t Hr. rewrite Hs. split.
    + intros (k & -> & _ & Hnil). exact Hnil.
    + intros Hnil. exists t. auto.
  - split.
    + clear Hs Hg He.
      destruct (loop evaluateMustCriteria isStagnant refine s (passesAllowed rc)
                     0 outputs history) as [t| |] eqn:Hl; try discriminate.
      intros _.
      apply (proj1 (loop_exit Outputs History evaluateMustCriteria isStagnant refine s
                              (passesAllowed rc) 0 outputs history)) in Hl
        as (k & _ & Hr & Hnil).
      eauto.
    + intros (t & Hr & Hnil).
      assert (Hl : loop evaluateMustCriteria isStagnant refine s (passesAllowed rc)
                        0 outputs history = SuccessAt t)
        by (apply Hs; exists t; auto).
      now rewrite Hl.
  - intros Hn Hnil. apply Hs. exists 0%nat. split; [reflexivity|].
    split; [|exact Hnil]. split; [lia | intros j Hj; lia].
  - exact He.
  - intros Hz. apply He. intros t Ht. lia.
Qed.

Lemma run_until_correct_law_witness :
  resourceConstraints sampleSpec
  = Some {| maxIterations := Some 5; maxTimeMs := None; maxCostUsd := None;
            stagnationWindow := Some 2 |}
  /\ runUntilCorrect sampleEvaluate neverStagnant sampleRefine sampleSpec 0%nat tt
     = Some (SuccessAt 2).
Proof.
  assert (H : resourceConstraints sampleSpec
              = Some {| maxIterations := Some 5; maxTimeMs := None; maxCostUsd := None;
                        stagnationWindow := Some 2 |}) by reflexivity.
  split; [exact H|].
  destruct (run_until_correct_law nat unit sampleEvaluate neverStagnant sampleRefine
              sampleSpec _ 0%nat tt H) as (e & He & Hat & _).
  rewrite He. f_equal. apply (Hat 2%nat).
  - split; [vm_compute; lia|].
    intros [|[|j]] Hj; try lia; split; try discriminate; reflexivity.
  - reflexivity.
Defined.

(** C1. The loop on a contract whose budget admits no pass, with outputs
    on which every MUST criterion passes: with [maxIterations = 0], and
    with [maxIterations] not configured, the failing-MUST set of the
    outputs in hand is empty and the run reports FAILURE, through the exit
    that follows the loop, because the loop bound is tested before the
    first evaluation; the same outputs under a budget of five passes give
    SUCCESS in pass 0. *)
Theorem run_until_correct_fails_with_musts_satisfied :
  allPass (withConstraints sampleSpec zeroBudget) tt = []
  /\ allPass (withConstraints sampleSpec noBudget) tt = []
  /\ runUntilCorrect allPass neverStagnant keepOutputs
                     (withConstraints sampleSpec zeroBudget) tt tt
     = Some LoopEnd
  /\ runUntilCorrect allPass neverStagnant keepOutputs
                     (withConstraints sampleSpec noBudget) tt tt
     = Some LoopEnd
  /\ verdictOf LoopEnd = FAILURE
  /\ runUntilCorrect allPass neverStagnant keepOutputs sampleSpec tt tt
     = Some (SuccessAt 0)
  /\ verdictOf (SuccessAt 0) = SUCCESS.
Proof. repeat split. Qed.

(** * The pass at the level of references *)

Module RefsFacts.

Import Refs.

Section Heaps.

Variable n0 : nat.

Lemma parseAll_appends {J V} (ok : V -> Prop) (f : J -> Heap -> V * Heap)
      (js : list J) :
  Forall (appends n0 ok f) js ->
  forall h, (n0 <= length h)%nat ->
    exists ext, snd (parseAll f js h) = h ++ ext
                /\ Forall ok (fst (parseAll f js h)) /\ Forall (closed n0) ext.
Proof.
  induction 1 as [|j js Hj _ IH]; intros h Hh; simpl.
  - exists []. rewrite app_nil_r. auto.
  - destruct (Hj h Hh) as (e1 & He1 & Hok & Hc1).
    destruct (f j h) as [v h1]. simpl in *. subst h1.
    assert (Hh1 : (n0 <= length (h ++ e1))%nat) by (rewrite length_app; lia).
    destruct (IH _ Hh1) as (e2 & He2 & Hoks & Hc2).
    destruct (parseAll f js (h ++ e1)) as [vs h2]. simpl in *. subst h2.
    exists (e1 ++ e2). rewrite app_assoc. split; [reflexivity|].
    split; [now constructor | now apply Forall_app].
Qed.

Lemma parse_appends (j : Json) : appends n0 (fresh n0) parse j.
Proof.
  induction j as [| b | q | s | items IH | members IH] using Json_induction;
    intros h Hh; simpl;
    try solve [exists []; rewrite app_nil_r; simpl; auto].
  - destruct (parseAll_appends (fresh n0) parse items IH h Hh)
      as (ext & He & Hvs & Hc).
    destruct (parseAll parse items h) as [vs h1]. simpl in *. subst h1.
    exists (ext ++ [OArray vs]). rewrite app_assoc. split; [reflexivity|].
    split; [rewrite length_app; lia|].
    apply Forall_app. split; [exact Hc | constructor; [exact Hvs | constructor]].
  - set (f := fun (m : string * Json) (h' : Heap) =>
                let '(v, h'') := parse (snd m) h' in ((fst m, v), h'')).
    assert (Hf : Forall (appends n0 (fun kv : string * Val => fresh n0 (snd kv)) f) members).
    { eapply Forall_impl; [|exact IH]. intros m Hm h' Hh'.
      destruct (Hm h' Hh') as (ext & He & Hv & Hc). unfold f.
      destruct (parse (snd m) h') as [v h'']. simpl in *. eauto. }
    destruct (parseAll_appends _ f members Hf h Hh) as (ext & He & Hkvs & Hc).
    destruct (parseAll f members h) as [kvs h1]. simpl in *. subst h1.
    exists (ext ++ [OObject kvs]). rewrite app_assoc. split; [reflexivity|].
    split; [rewrite length_app; lia|].
    apply Forall_app. split; [exact Hc|]. constructor; [|constructor].
    unfold closed. simpl. now apply Forall_map.
Qed.

End Heaps.

Section RoundTrip.

Lemma parse_defined (j : Json) (h : Heap) : fst (parse j h) <> VUndefined.
Proof.
  destruct j; simpl; try discriminate.
  - destruct (parseAll parse items h). discriminate.
  - destruct (parseAll _ members h). discriminate.
Qed.

Lemma parse_grows (j : Json) (h : Heap) :
  exists ext, snd (parse j h) = h ++ ext.
Proof.
  destruct (parse_appends 0 j h (Nat.le_0_l _)) as (ext & He & _). eauto.
Qed.

Lemma parseAll_grows (items : list Json) (h : Heap) :
  exists ext, snd (parseAll parse items h) = h ++ ext.
Proof.
  destruct (parseAll_appends 0 (fresh 0) parse items) with (h := h)
    as (ext & He & _); [|lia|eauto].
  apply Forall_forall. intros j _. apply parse_appends.
Qed.

Lemma parseMembers_grows (members : list (string * Json)) (h : Heap) :
  exists ext,
    snd (parseAll (fun m h' => let '(v, h'') := parse (snd m) h' in ((fst m, v), h''))
                  members h) = h ++ ext.
Proof.
  revert h. induction members as [|m rest IH]; intros h; simpl.
  - exists []. now rewrite app_nil_r.
  - destruct (parse_grows (snd m) h) as (e1 & He1).
    destruct (parse (snd m) h) as [v h1]. simpl in He1. subst h1.
    destruct (IH (h ++ e1)) as (e2 & He2).
    destruct (parseAll _ rest (h ++ e1)) as [kvs h2]. simpl in *. subst h2.
    exists (e1 ++ e2). now rewrite app_assoc.
Qed.

Lemma stringifyFuel_unfold_array (fuel : nat) (h : Heap) (l : loc) (elems : list Val) :
  nth_error h l = Some (OArray elems) ->
  stringifyFuel (S fuel) h (VRef l)
  = option_map JArr (traverse (stringifyItem fuel h) elems).
Proof. intros H. simpl. now rewrite H. Qed.

Lemma stringifyFuel_unfold_object (fuel : nat) (h : Heap) (l : loc)
      (props : list (string * Val)) :
  nth_error h l = Some (OObject props) ->
  stringifyFuel (S fuel) h (VRef l)
  = option_map JObj (traverse (stringifyMember fuel h) (filter defined props)).
Proof. intros H. simpl. now rewrite H. Qed.

Lemma readsBack_items (items : list Json) (fuel : nat) :
  Forall readsBack items ->
  Forall (fun j => (depth j < fuel)%nat) items ->
  forall h more,
    traverse (stringifyItem fuel (snd (parseAll parse items h) ++ more))
             (fst (parseAll parse items h)) = Some items.
Proof.
  induction 1 as [|j rest Hj _ IH]; intros Hd h more; simpl; [reflexivity|].
  inversion Hd as [|? ? Hdj Hdrest]; subst.
  pose proof (Hj h) as Hback. pose proof (parse_defined j h) as Hdef.
  destruct (parse j h) as [v h1]. simpl in *.
  destruct (parseAll_grows rest h1) as (ext & He).
  specialize (IH Hdrest h1 more).
  destruct (parseAll parse rest h1) as [vs h2]. simpl in *. subst h2.
  rewrite IH.
  assert (Hv : stringifyItem fuel ((h1 ++ ext) ++ more) v = Some j).
  { rewrite <- app_assoc. destruct v; try contradiction; simpl; now apply Hback. }
  now rewrite Hv.
Qed.

Lemma readsBack_members (members : list (string * Json)) (fuel : nat) :
  Forall (fun m => readsBack (snd m)) members ->
  Forall (fun m => (depth (snd m) < fuel)%nat) members ->
  forall h more,
    let r := parseAll (fun m h' => let '(v, h'') := parse (snd m) h' in ((fst m, v), h''))
                      members h in
    filter defined (fst r) = fst r
    /\ traverse (stringifyMember fuel (snd r ++ more)) (fst r) = Some members.
Proof.
  induction 1 as [|m rest Hm _ IH]; intros Hd h more; simpl; [auto|].
  inversion Hd as [|? ? Hdm Hdrest]; subst.
  pose proof (Hm h) as Hback. pose proof (parse_defined (snd m) h) as Hdef.
  destruct (parse (snd m) h) as [v h1]. simpl in *.
  destruct (parseMembers_grows rest h1) as (ext & He).
  destruct (IH Hdrest h1 more) as [IHf IHt].
  destruct (parseAll _ rest h1) as [kvs h2]. simpl in *. subst h2.
  split.
  - unfold defined at 1. simpl. destruct v; try contradiction; now rewrite IHf.
  - rewrite IHt. unfold stringifyMember at 1. simpl.
    rewrite <- app_assoc. rewrite (Hback (ext ++ more) fuel Hdm).
    simpl. now destruct m.
Qed.

Lemma fold_max_lt {T} (f : T -> nat) (xs : list T) (n : nat) :
  (fold_right (fun x m => Nat.max (f x) m) 0 xs < n)%nat ->
  Forall (fun x => (f x < n)%nat) xs.
Proof.
  induction xs as [|x xs IH]; simpl; intros H; constructor; [lia | apply IH; lia].
Qed.

Lemma parse_readsBack (j : Json) : readsBack j.
Proof.
  induction j as [| b | q | s | items IH | members IH] using Json_induction;
    intros h more fuel Hd;
    (destruct fuel as [|fuel]; [simpl in Hd; lia|]); try reflexivity.
  - simpl in Hd. apply Nat.succ_lt_mono in Hd. apply fold_max_lt in Hd.
    pose proof (readsBack_items items fuel IH Hd h ([OArray (fst (parseAll parse items h))] ++ more))
      as Ht.
    simpl parse. destruct (parseAll parse items h) as [vs h1]. simpl fst in *. simpl snd in *.
    rewrite (stringifyFuel_unfold_array fuel _ _ vs).
    + rewrite <- app_assoc. simpl in Ht. simpl. now rewrite Ht.
    + rewrite <- app_assoc. rewrite nth_error_app2 by lia.
      now rewrite Nat.sub_diag.
  - simpl in Hd. apply Nat.succ_lt_mono in Hd.
    apply (fold_max_lt (fun m : string * Json => depth (snd m))) in Hd.
    set (f := fun (m : string * Json) (h' : Heap) =>
                let '(v, h'') := parse (snd m) h' in ((fst m, v), h'')).
    destruct (readsBack_members members fuel IH Hd h
                ([OObject (fst (parseAll f members h))] ++ more)) as [Hf Ht].
    fold f in Hf, Ht.
    simpl parse. fold f. destruct (parseAll f members h) as [kvs h1].
    simpl fst in *. simpl snd in *.
    rewrite (stringifyFuel_unfold_object fuel _ _ kvs).
    + rewrite Hf. rewrite <- app_assoc. simpl in Ht. simpl. now rewrite Ht.
    + rewrite <- app_assoc. rewrite nth_error_app2 by lia.
      now rewrite Nat.sub_diag.
Qed.

(** [parse] allocates at least one object per level of nesting. *)
Lemma parseAll_depth {T V} (f : T -> Heap -> V * Heap) (d : T -> nat) (xs : list T) :
  Forall (fun x => forall h, (length h + d x <= length (snd (f x h)))%nat) xs ->
  (forall x h, (length h <= length (snd (f x h)))%nat) ->
  forall h,
    (length h + fold_right (fun x m => Nat.max (d x) m) 0 xs
     <= length (snd (parseAll f xs h)))%nat.
Proof.
  intros Hall Hmono. induction Hall as [|x xs Hx _ IH]; intros h; simpl; [lia|].
  specialize (Hx h). pose proof (Hmono x h) as Hm.
  destruct (f x h) as [v h1]. simpl in *.
  specialize (IH h1).
  assert (Hm2 : (length h1 <= length (snd (parseAll f xs h1)))%nat).
  { clear -Hmono. revert h1. induction xs as [|y ys IHy]; intros h1; simpl; [lia|].
    pose proof (Hmono y h1). destruct (f y h1) as [v' h2]. simpl in *.
    specialize (IHy h2). destruct (parseAll f ys h2). simpl in *. lia. }
  destruct (parseAll f xs h1) as [vs h2]. simpl in *. lia.
Qed.

Lemma parse_mono (j : Json) (h : Heap) : (length h <= length (snd (parse j h)))%nat.
Proof.
  destruct (parse_grows j h) as (ext & ->). rewrite length_app. lia.
Qed.

Lemma parse_depth (j : Json) :
  forall h, (length h + depth j <= length (snd (parse j h)))%nat.
Proof.
  induction j as [| b | q | s | items IH | members IH] using Json_induction;
    intros h; simpl; try lia.
  - pose proof (parseAll_depth parse depth items IH parse_mono h) as Hd.
    destruct (parseAll parse items h) as [vs h1]. simpl in *.
    rewrite length_app. simpl. lia.
  - set (f := fun (m : string * Json) (h' : Heap) =>
                let '(v, h'') := parse (snd m) h' in ((fst m, v), h'')).
    assert (Hall : Forall (fun m => forall h, (length h + depth (snd m)
                                               <= length (snd (f m h)))%nat) members).
    { eapply Forall_impl; [|exact IH]. intros m Hm h'. unfold f.
      specialize (Hm h'). destruct (parse (snd m) h'). exact Hm. }
    assert (Hmono : forall m h', (length h' <= length (snd (f m h')))%nat).
    { intros m h'. unfold f. pose proof (parse_mono (snd m) h').
      destruct (parse (snd m) h'). exact H. }
    pose proof (parseAll_depth f (fun m => depth (snd m)) members Hall Hmono h) as Hd.
    destruct (parseAll f members h) as [kvs h1]. simpl in *.
    rewrite length_app. simpl. lia.
Qed.

(** The deep copy is a copy: it reads as the same document as the value
    copied. *)
Lemma deepClone_same_document (h h' : Heap) (x v : Val) :
  deepClone h x = Some (v, h') -> stringify h' v = stringify h x.
Proof.
  unfold deepClone. destruct (stringify h x) as [j|] eqn:Hj; [|discriminate].
  intros [= Hp]. unfold stringify at 1.
  pose proof (parse_readsBack j h [] (S (length h'))) as Hback.
  pose proof (parse_depth j h) as Hd.
  rewrite Hp in Hback, Hd. simpl in Hback, Hd. rewrite app_nil_r in Hback.
  apply Hback. lia.
Qed.

End RoundTrip.

Section Extension.

Variable h0 : Heap.

#[local] Abbreviation n0 := (length h0).

Lemma extends_refl : extends h0 h0.
Proof.
  split; [apply firstn_all|].
  intros l obj Hl Hnth. exfalso.
  assert (nth_error h0 l <> None) by congruence.
  apply nth_error_Some in H. lia.
Qed.

Lemma extends_length (h : Heap) : extends h0 h -> (n0 <= length h)%nat.
Proof.
  intros [Hf _]. rewrite <- Hf at 1. rewrite length_firstn. lia.
Qed.

Lemma extends_app (h ext : Heap) :
  extends h0 h -> Forall (closed n0) ext -> extends h0 (h ++ ext).
Proof.
  intros Hext Hc. pose proof (extends_length h Hext) as Hlen.
  destruct Hext as [Hf Hcl]. split.
  - rewrite firstn_app. replace (n0 - length h)%nat with 0%nat by lia.
    simpl. rewrite app_nil_r. exact Hf.
  - intros l obj Hl Hnth.
    destruct (Nat.lt_ge_cases l (length h)) as [Hlt|Hge].
    + rewrite nth_error_app1 in Hnth by exact Hlt. eauto.
    + rewrite nth_error_app2 in Hnth by exact Hge.
      apply nth_error_In in Hnth. rewrite Forall_forall in Hc. now apply Hc.
Qed.

Lemma update_length (l : loc) (f : Obj -> Obj) (h : Heap) :
  length (update l f h) = length h.
Proof.
  revert l. induction h as [|o h IH]; intros [|l]; simpl; auto.
Qed.

Lemma update_nth (l : loc) (f : Obj -> Obj) (h : Heap) (l' : loc) :
  nth_error (update l f h) l'
  = if (l' =? l)%nat then option_map f (nth_error h l') else nth_error h l'.
Proof.
  revert l l'. induction h as [|o h IH]; intros [|l] [|l']; simpl; auto.
  all: try solve [destruct (l' =? l)%nat; reflexivity].
Qed.

Lemma update_firstn (l : loc) (f : Obj -> Obj) (h : Heap) (n : nat) :
  (n <= l)%nat -> firstn n (update l f h) = firstn n h.
Proof.
  revert l n. induction h as [|o h IH]; intros [|l] [|n] Hn; simpl; auto; try lia.
  f_equal. apply IH. lia.
Qed.

Lemma update_extends (l : loc) (f : Obj -> Obj) (h : Heap) :
  extends h0 h -> (n0 <= l)%nat ->
  (forall obj, closed n0 obj -> closed n0 (f obj)) ->
  extends h0 (update l f h).
Proof.
  intros [Hf Hcl] Hl Hfc. split.
  - rewrite update_firstn by exact Hl. exact Hf.
  - intros l' obj Hl' Hnth. rewrite update_nth in Hnth.
    destruct (l' =? l)%nat.
    + destruct (nth_error h l') as [o|] eqn:Ho; [|discriminate].
      injection Hnth as <-. apply Hfc. eapply Hcl; eauto.
    + eauto.
Qed.

Lemma lookup_fresh (k : string) (props : list (string * Val)) :
  Forall (fresh n0) (map snd props) -> fresh n0 (lookup k props).
Proof.
  induction props as [|[k' v] props IH]; simpl; intros H; [exact I|].
  inversion H; subst. destruct (String.eqb k' k); auto.
Qed.

Lemma assign_fresh (k : string) (v : Val) (props : list (string * Val)) :
  fresh n0 v -> Forall (fresh n0) (map snd props) ->
  Forall (fresh n0) (map snd (assign k v props)).
Proof.
  intros Hv. induction props as [|[k' v'] props IH]; simpl; intros H.
  - constructor; [exact Hv | constructor].
  - inversion H; subst. destruct (String.eqb k' k); simpl; constructor; auto.
Qed.

Lemma getProp_fresh (h : Heap) (o : Val) (k : string) (v : Val) :
  extends h0 h -> fresh n0 o -> getProp h o k = Some v -> fresh n0 v.
Proof.
  intros [_ Hcl] Ho. unfold getProp.
  destruct o as [| | b | q | s | l]; try discriminate; try (intros [= <-]; exact I).
  destruct (nth_error h l) as [[props|elems]|] eqn:Hnth; intros [= <-]; try exact I.
  apply lookup_fresh. exact (Hcl l _ Ho Hnth).
Qed.

Lemma getElems_fresh (h : Heap) (o : Val) (vs : list Val) :
  extends h0 h -> fresh n0 o -> getElems h o = Some vs -> Forall (fresh n0) vs.
Proof.
  intros [_ Hcl] Ho. unfold getElems.
  destruct o as [| | b | q | s | l]; try discriminate.
  destruct (nth_error h l) as [[props|elems]|] eqn:Hnth; try discriminate.
  intros [= <-]. exact (Hcl l _ Ho Hnth).
Qed.

Lemma setProp_extends (h h' : Heap) (o : Val) (k : string) (v : Val) :
  extends h0 h -> fresh n0 o -> fresh n0 v -> setProp h o k v = Some h' ->
  extends h0 h'.
Proof.
  intros Hext Ho Hv. unfold setProp.
  destruct o as [| | b | q | s | l]; try discriminate; try (intros [= <-]; exact Hext).
  intros [= <-]. apply update_extends; auto.
  intros [props|elems] Hc; [|exact Hc]. now apply assign_fresh.
Qed.

Lemma push_extends (h h' : Heap) (arr v : Val) :
  extends h0 h -> fresh n0 arr -> fresh n0 v -> push h arr v = Some h' ->
  extends h0 h'.
Proof.
  intros Hext Ho Hv. unfold push.
  destruct arr as [| | b | q | s | l]; try discriminate.
  destruct (nth_error h l) as [[props|elems]|]; try discriminate.
  intros [= <-]. apply update_extends; auto.
  intros [props'|elems'] Hc; [exact Hc|].
  unfold closed in *. simpl in *. apply Forall_app. split; [exact Hc|].
  constructor; [exact Hv | constructor].
Qed.

Lemma deepClone_extends (h h' : Heap) (x v : Val) :
  extends h0 h -> deepClone h x = Some (v, h') ->
  extends h0 h' /\ fresh n0 v.
Proof.
  intros Hext. unfold deepClone. destruct (stringify h x) as [j|]; [|discriminate].
  intros [= Hp]. pose proof (extends_length h Hext) as Hlen.
  destruct (parse_appends n0 j h Hlen) as (ext & He & Hv & Hc).
  rewrite Hp in He, Hv. simpl in *. subst h'. split; [|exact Hv].
  now apply extends_app.
Qed.

(** A safe program keeps the heap an extension of [h0], at its end and at
    every heap on the way, and its result satisfies its postcondition. *)
Lemma run_safe {A} (Q : A -> Prop) (p : Prog A) :
  Safe n0 Q p ->
  forall h, extends h0 h ->
    extends h0 (snd (run p h))
    /\ (forall a, fst (run p h) = Some a -> Q a)
    /\ Forall (extends h0) (heaps p h).
Proof.
  induction 1 as [a Ha | | x k Hk IH | o name k Ho Hk IH | o k Ho Hk IH
                  | o k Hk IH | o name v k Ho Hv Hk IH | arr v k Ho Hv Hk IH
                  | obj k Hobj Hk IH];
    intros h Hext; simpl.
  - split; [exact Hext | split; [now intros a' [= <-] | now constructor]].
  - split; [exact Hext | split; [discriminate | now constructor]].
  - destruct (deepClone h x) as [[v h']|] eqn:Hc;
      [| split; [exact Hext | split; [discriminate | now constructor]]].
    destruct (deepClone_extends _ _ _ _ Hext Hc) as [Hext' Hv].
    destruct (IH v Hv h' Hext') as (H1 & H2 & H3). auto.
  - destruct (getProp h o name) as [v|] eqn:Hc;
      [| split; [exact Hext | split; [discriminate | now constructor]]].
    pose proof (getProp_fresh _ _ _ _ Hext Ho Hc) as Hv.
    destruct (IH _ Hv h Hext) as (H1 & H2 & H3). auto.
  - destruct (getElems h o) as [vs|] eqn:Hc;
      [| split; [exact Hext | split; [discriminate | now constructor]]].
    pose proof (getElems_fresh _ _ _ Hext Ho Hc) as Hvs.
    destruct (IH _ Hvs h Hext) as (H1 & H2 & H3). auto.
  - destruct (IH (isSome (getElems h o)) h Hext) as (H1 & H2 & H3). auto.
  - destruct (setProp h o name v) as [h'|] eqn:Hc;
      [| split; [exact Hext | split; [discriminate | now constructor]]].
    pose proof (setProp_extends _ _ _ _ _ Hext Ho Hv Hc) as Hext'.
    destruct (IH _ Hext') as (H1 & H2 & H3). auto.
  - destruct (push h arr v) as [h'|] eqn:Hc;
      [| split; [exact Hext | split; [discriminate | now constructor]]].
    pose proof (push_extends _ _ _ _ Hext Ho Hv Hc) as Hext'.
    destruct (IH _ Hext') as (H1 & H2 & H3). auto.
  - assert (Hext' : extends h0 (h ++ [obj])).
    { apply extends_app; [exact Hext | constructor; [exact Hobj | constructor]]. }
    assert (Hv : fresh n0 (VRef (length h))).
    { simpl. now apply extends_length. }
    destruct (IH _ Hv _ Hext') as (H1 & H2 & H3). auto.
Qed.

(** From a fresh value, only fresh objects are reachable. *)
Lemma reach_fresh (h : Heap) (v : Val) (l : loc) :
  extends h0 h -> fresh n0 v -> reach h v l -> (n0 <= l)%nat.
Proof.
  intros [_ Hcl] Hv Hr. induction Hr as [l | l obj v l' Hnth Hin _ IH].
  - exact Hv.
  - apply IH. pose proof (Hcl l obj Hv Hnth) as Hc.
    rewrite Forall_forall in Hc. now apply Hc.
Qed.

End Extension.

Section SafePrograms.

Variable n0 : nat.

Lemma Safe_bind {A B} (Q : A -> Prop) (R : B -> Prop) (p : Prog A) (f : A -> Prog B) :
  Safe n0 Q p -> (forall a, Q a -> Safe n0 R (f a)) -> Safe n0 R (bind p f).
Proof.
  intros Hp Hf. induction Hp; simpl; try (constructor; auto); auto.
Qed.

Lemma Safe_get (o : Val) (name : string) :
  fresh n0 o -> Safe n0 (fresh n0) (Get o name (fun v => Ret v)).
Proof. intros Ho. apply Safe_Get; [exact Ho|]. intros v Hv. now apply Safe_Ret. Qed.

Lemma Safe_elems (o : Val) :
  fresh n0 o -> Safe n0 (Forall (fresh n0)) (Elems o (fun vs => Ret vs)).
Proof. intros Ho. apply Safe_Elems; [exact Ho|]. intros v Hv. now apply Safe_Ret. Qed.

Lemma Safe_new (obj : Obj) :
  Forall (fresh n0) (valsOf obj) -> Safe n0 (fresh n0) (New obj (fun a => Ret a)).
Proof. intros Ho. apply Safe_New; [exact Ho|]. intros v Hv. now apply Safe_Ret. Qed.

Lemma Safe_orNewArray (v : Val) :
  fresh n0 v -> Safe n0 (fresh n0) (orNewArray v).
Proof.
  intros Hv. destruct v; simpl;
    try (apply Safe_new; constructor); now apply Safe_Ret.
Qed.

Lemma Safe_defaultArray (spec_ : Val) (name : string) :
  fresh n0 spec_ -> Safe n0 (fun _ => True) (defaultArray spec_ name).
Proof.
  intros Hs. unfold defaultArray.
  eapply Safe_bind; [now apply Safe_get|]. intros v Hv.
  eapply Safe_bind; [now apply Safe_orNewArray|]. intros a Ha.
  apply Safe_Set; auto. now apply Safe_Ret.
Qed.

Lemma Safe_repairDependsOn (arts : list Val) :
  Forall (fresh n0) arts -> Safe n0 (fun _ => True) (repairDependsOn arts).
Proof.
  induction 1 as [|a rest Ha _ IH]; simpl; [now apply Safe_Ret|].
  apply Safe_Get; [exact Ha|]. intros id_ _.
  destruct id_; try exact IH. destruct (truthy s); [|exact IH].
  apply Safe_Get; [exact Ha|]. intros d _.
  apply Safe_IsArray. intros [|]; [exact IH|].
  apply Safe_New; [constructor|]. intros e He.
  apply Safe_Set; auto.
Qed.

Lemma Safe_mapGet (name : string) (xs : list Val) :
  Forall (fresh n0) xs -> Safe n0 (Forall (fresh n0)) (mapGet name xs).
Proof.
  induction 1 as [|x rest Hx _ IH]; simpl; [apply Safe_Ret; constructor|].
  apply Safe_Get; [exact Hx|]. intros v Hv.
  eapply Safe_bind; [exact IH|]. intros vs Hvs. apply Safe_Ret. now constructor.
Qed.

Lemma Safe_filterM (test : Val -> Prog bool) (xs : list Val) :
  (forall x, fresh n0 x -> Safe n0 (fun _ => True) (test x)) ->
  Forall (fresh n0) xs -> Safe n0 (Forall (fresh n0)) (filterM test xs).
Proof.
  intros Ht. induction 1 as [|x rest Hx _ IH]; simpl; [apply Safe_Ret; constructor|].
  eapply Safe_bind; [now apply Ht|]. intros b _.
  eapply Safe_bind; [exact IH|]. intros vs Hvs. apply Safe_Ret.
  destruct b; [now constructor | exact Hvs].
Qed.

Lemma Safe_someM (test : Val -> Prog bool) (xs : list Val) :
  (forall x, fresh n0 x -> Safe n0 (fun _ => True) (test x)) ->
  Forall (fresh n0) xs -> Safe n0 (fun _ => True) (someM test xs).
Proof.
  intros Ht. induction 1 as [|x rest Hx _ IH]; simpl; [now apply Safe_Ret|].
  eapply Safe_bind; [now apply Ht|]. intros b _.
  destruct b; [now apply Safe_Ret | exact IH].
Qed.

Lemma Safe_orEmptyString (v : Val) : Safe n0 (fun _ => True) (orEmptyString v).
Proof. destruct v; simpl; try apply Safe_Throw; now apply Safe_Ret. Qed.

Lemma Safe_newRubric (rubricId_ : string) (anchors_ : list (string * string)) :
  Safe n0 (fresh n0) (newRubric rubricId_ anchors_).
Proof.
  unfold newRubric.
  apply Safe_New; [repeat constructor|]. intros scale_ Hs.
  apply Safe_New.
  { simpl. rewrite map_map. simpl. apply Forall_map. apply Forall_forall.
    intros kv _. exact I. }
  intros an Han.
  apply Safe_New; [simpl; repeat constructor; assumption|]. intros r Hr.
  now apply Safe_Ret.
Qed.

Lemma Safe_injectDefaultRubrics (spec_ : Val) :
  fresh n0 spec_ -> Safe n0 (fun _ => True) (injectDefaultRubrics spec_).
Proof.
  intros Hs. unfold injectDefaultRubrics.
  eapply Safe_bind; [now apply Safe_get|]. intros r0 Hr0.
  eapply Safe_bind with (Q := fresh n0).
  { destruct r0; try now apply Safe_Ret.
    - apply Safe_New; [constructor|]. intros a Ha. apply Safe_Set; auto.
      now apply Safe_Ret.
    - apply Safe_New; [constructor|]. intros a Ha. apply Safe_Set; auto.
      now apply Safe_Ret. }
  intros rubrics_ Hrub.
  eapply Safe_bind; [now apply Safe_elems|]. intros items Hitems.
  eapply Safe_bind; [now apply Safe_mapGet|]. intros ids _.
  eapply Safe_bind with (Q := fun _ => True).
  { destruct (negb (has _ "RUBRIC-OVERALL-v1")); [|now apply Safe_Ret].
    eapply Safe_bind; [apply Safe_newRubric|]. intros r Hr.
    apply Safe_Push; auto. now apply Safe_Ret. }
  intros _ _.
  destruct (negb (has _ "RUBRIC-CLARITY-v1")); [|now apply Safe_Ret].
  eapply Safe_bind; [apply Safe_newRubric|]. intros r Hr.
  apply Safe_Push; auto. now apply Safe_Ret.
Qed.

Lemma Safe_isRequired (a : Val) :
  fresh n0 a -> Safe n0 (fun _ => True) (isRequired a).
Proof. intros Ha. apply Safe_Get; [exact Ha|]. intros v _. now apply Safe_Ret. Qed.

Lemma Safe_looksLikeSpec (a : Val) :
  fresh n0 a -> Safe n0 (fun _ => True) (looksLikeSpec a).
Proof.
  intros Ha. unfold looksLikeSpec.
  eapply Safe_bind; [now apply Safe_get|]. intros kv _.
  eapply Safe_bind; [apply Safe_orEmptyString|]. intros k _.
  eapply Safe_bind; [now apply Safe_get|]. intros sv _.
  eapply Safe_bind; [apply Safe_orEmptyString|]. intros st _.
  now apply Safe_Ret.
Qed.

Lemma Safe_isNarrative (a : Val) :
  fresh n0 a -> Safe n0 (fun _ => True) (isNarrative a).
Proof.
  intros Ha. unfold isNarrative.
  eapply Safe_bind; [now apply Safe_get|]. intros fv Hfv.
  eapply Safe_bind; [now apply Safe_elems|]. intros fs Hfs.
  apply Safe_someM; [|exact Hfs]. intros f Hf.
  eapply Safe_bind; [now apply Safe_get|]. intros mv _.
  eapply Safe_bind; [apply Safe_orEmptyString|]. intros m _.
  now apply Safe_Ret.
Qed.

Lemma Safe_firstArtifactId (xs : list Val) :
  Forall (fresh n0) xs -> Safe n0 (Forall (fresh n0)) (firstArtifactId xs).
Proof.
  intros [|x rest Hx _]; simpl; [apply Safe_Throw|].
  apply Safe_Get; [exact Hx|]. intros v Hv. apply Safe_Ret. now repeat constructor.
Qed.

Lemma Safe_findLikelySpecArtifacts (arts : list Val) :
  Forall (fresh n0) arts -> Safe n0 (Forall (fresh n0)) (findLikelySpecArtifacts arts).
Proof.
  intros Harts. unfold findLikelySpecArtifacts.
  eapply Safe_bind; [apply Safe_filterM; [apply Safe_isRequired | exact Harts]|].
  intros required_ Hreq.
  destruct required_ as [|r0 rs]; [now apply Safe_firstArtifactId|].
  eapply Safe_bind; [apply Safe_filterM; [apply Safe_looksLikeSpec | exact Hreq]|].
  intros likely Hl.
  eapply Safe_bind; [now apply Safe_mapGet|]. intros ids Hids.
  destruct ids; [now apply Safe_firstArtifactId | now apply Safe_Ret].
Qed.

Lemma Safe_findNarrativeArtifacts (arts : list Val) :
  Forall (fresh n0) arts -> Safe n0 (Forall (fresh n0)) (findNarrativeArtifacts arts).
Proof.
  intros Harts. unfold findNarrativeArtifacts.
  eapply Safe_bind; [apply Safe_filterM; [apply Safe_isRequired | exact Harts]|].
  intros required_ Hreq.
  destruct required_ as [|r0 rs]; [now apply Safe_firstArtifactId|].
  eapply Safe_bind; [apply Safe_filterM; [apply Safe_isNarrative | exact Hreq]|].
  intros narrative Hn.
  eapply Safe_bind; [now apply Safe_mapGet|]. intros ids Hids.
  destruct ids; [now apply Safe_mapGet | now apply Safe_Ret].
Qed.

Lemma Safe_flatInputs (ps : list Val) :
  Forall (fresh n0) ps -> Safe n0 (Forall (fresh n0)) (flatInputs ps).
Proof.
  induction 1 as [|p rest Hp _ IH]; simpl; [apply Safe_Ret; constructor|].
  apply Safe_Get; [exact Hp|]. intros i Hi.
  apply Safe_IsArray. intros isArr.
  eapply Safe_bind with (Q := Forall (fresh n0)).
  { destruct isArr; [now apply Safe_elems | apply Safe_Ret; now repeat constructor]. }
  intros here Hhere.
  eapply Safe_bind; [exact IH|]. intros more Hmore.
  apply Safe_Ret. now apply Forall_app.
Qed.

Lemma Safe_newCriterion (acId_ : string) (targets : list Val) (type_ severity_ : string)
      (ruleProps : list (string * Val)) (evidenceType_ : string) :
  Forall (fresh n0) targets -> Forall (fresh n0) (map snd ruleProps) ->
  Safe n0 (fresh n0)
       (newCriterion acId_ targets type_ severity_ ruleProps evidenceType_).
Proof.
  intros Ht Hr. unfold newCriterion.
  apply Safe_New; [exact Ht|]. intros ta Hta.
  apply Safe_New; [exact Hr|]. intros ru Hru.
  apply Safe_New; [repeat constructor|]. intros ev Hev.
  apply Safe_New; [simpl; repeat constructor; assumption|]. intros ac Hac.
  now apply Safe_Ret.
Qed.

Lemma Safe_injectDefaultAcceptance (spec_ : Val) (pattern : option string) :
  fresh n0 spec_ -> Safe n0 (fun _ => True) (injectDefaultAcceptance spec_ pattern).
Proof.
  intros Hs. unfold injectDefaultAcceptance.
  eapply Safe_bind; [now apply Safe_get|]. intros acc Hacc.
  eapply Safe_bind; [now apply Safe_elems|]. intros accItems Hitems.
  eapply Safe_bind; [now apply Safe_mapGet|]. intros ids _.
  eapply Safe_bind; [now apply Safe_get|]. intros artsV HartsV.
  eapply Safe_bind; [now apply Safe_elems|]. intros arts Harts.
  eapply Safe_bind with (Q := fun _ => True).
  { destruct (negb (has _ "AC-UNIV-STRUCT-1")); [|now apply Safe_Ret].
    eapply Safe_bind; [now apply Safe_findLikelySpecArtifacts|]. intros targets Ht.
    eapply Safe_bind; [apply Safe_new; repeat constructor|]. intros sections Hsec.
    eapply Safe_bind;
      [apply Safe_newCriterion; [exact Ht | simpl; now repeat constructor]|].
    intros ac Hac. apply Safe_Push; auto. now apply Safe_Ret. }
  intros _ _.
  eapply Safe_bind with (Q := fun _ => True).
  { destruct (negb (has _ "AC-UNIV-TRACE-1")); [|now apply Safe_Ret].
    eapply Safe_bind; [now apply Safe_findNarrativeArtifacts|]. intros targets Ht.
    eapply Safe_bind;
      [apply Safe_newCriterion; [exact Ht | simpl; now repeat constructor]|].
    intros ac Hac. apply Safe_Push; auto. now apply Safe_Ret. }
  intros _ _.
  eapply Safe_bind with (Q := fun _ => True).
  { destruct (negb (has _ "AC-UNIV-CONSIST-1")); [|now apply Safe_Ret].
    eapply Safe_bind; [apply Safe_filterM; [apply Safe_isRequired | exact Harts]|].
    intros required_ Hreq.
    eapply Safe_bind; [now apply Safe_mapGet|]. intros targets Ht.
    eapply Safe_bind;
      [apply Safe_newCriterion; [exact Ht | simpl; now repeat constructor]|].
    intros ac Hac. apply Safe_Push; auto. now apply Safe_Ret. }
  intros _ _.
  destruct (negb (has _ "AC-UNIV-PROV-1")); [|now apply Safe_Ret].
  eapply Safe_bind; [now apply Safe_get|]. intros pk Hpk.
  eapply Safe_bind; [now apply Safe_elems|]. intros ps Hps.
  eapply Safe_bind; [now apply Safe_flatInputs|]. intros targets Ht.
  eapply Safe_bind; [now apply Safe_get|]. intros policy Hpol.
  eapply Safe_bind; [now apply Safe_get|]. intros req Hreq.
  eapply Safe_bind;
    [apply Safe_newCriterion; [exact Ht | simpl; now repeat constructor]|].
  intros ac Hac. apply Safe_Push; auto. now apply Safe_Ret.
Qed.

(** Every write of the pass goes to the copy or to an object made for it. *)
Lemma Safe_specIntegrityPass (inputSpec : Val) (inject : bool) (pattern : option string) :
  Safe n0 (fresh n0) (specIntegrityPass inputSpec inject pattern).
Proof.
  unfold specIntegrityPass. apply Safe_Clone. intros spec_ Hs.
  eapply Safe_bind; [now apply Safe_get|]. intros artsV HartsV.
  destruct (negb (truthyVal artsV)); [apply Safe_Throw|].
  eapply Safe_bind; [now apply Safe_elems|]. intros arts Harts.
  destruct arts as [|a0 rest]; [apply Safe_Throw|].
  eapply Safe_bind; [now apply Safe_defaultArray|]. intros _ _.
  eapply Safe_bind; [now apply Safe_defaultArray|]. intros _ _.
  eapply Safe_bind; [now apply Safe_defaultArray|]. intros _ _.
  eapply Safe_bind; [now apply Safe_repairDependsOn|]. intros _ _.
  eapply Safe_bind with (Q := fun _ => True).
  { destruct inject; [|now apply Safe_Ret].
    eapply Safe_bind; [now apply Safe_injectDefaultRubrics|]. intros _ _.
    now apply Safe_injectDefaultAcceptance. }
  intros _ _. now apply Safe_Ret.
Qed.

End SafePrograms.

(** C9. The pass never writes to the caller's contract.  For every heap
    [h0], every value [inputSpec] in it, and all options: the heap at the
    end of the pass begins with [h0] unchanged, and so does every heap on
    the way (wherever the call raises, the input is as it was); every
    object of [h0] reads the same afterwards; and no object reachable from
    the normalized contract handed back is an object of [h0]: the copy and
    what the pass adds to it share nothing with the input; and the copy
    the pass works on reads as the same document as the input. *)
Theorem pass_leaves_input_intact
        (h0 : Heap) (inputSpec : Val) (inject : bool) (pattern : option string) :
  firstn (length h0) (snd (run (specIntegrityPass inputSpec inject pattern) h0)) = h0
  /\ (forall l, (l < length h0)%nat ->
        nth_error (snd (run (specIntegrityPass inputSpec inject pattern) h0)) l
        = nth_error h0 l)
  /\ Forall (fun h => firstn (length h0) h = h0)
            (heaps (specIntegrityPass inputSpec inject pattern) h0)
  /\ (forall spec_ l,
        fst (run (specIntegrityPass inputSpec inject pattern) h0) = Some spec_ ->
        reach (snd (run (specIntegrityPass inputSpec inject pattern) h0)) spec_ l ->
        (length h0 <= l)%nat)
  /\ (forall copy h1,
        deepClone h0 inputSpec = Some (copy, h1) ->
        stringify h1 copy = stringify h0 inputSpec).
Proof.
  destruct (run_safe h0 (fresh (length h0)) _
                     (Safe_specIntegrityPass (length h0) inputSpec inject pattern)
                     h0 (extends_refl h0)) as (Hext & Hres & Hall).
  split; [exact (proj1 Hext)|]. split; [|split; [|split]];
    [| | | intros copy h1; apply deepClone_same_document].
  - intros l Hl. rewrite <- (proj1 Hext) at 2.
    rewrite nth_error_firstn. apply Nat.ltb_lt in Hl. now rewrite Hl.
  - eapply Forall_impl; [|exact Hall]. intros h Hh. exact (proj1 Hh).
  - intros spec_ l Hr Hreach.
    exact (reach_fresh h0 _ _ _ Hext (Hres _ Hr) Hreach).
Qed.

(** On the sample contracts the reference-level pass and
    [specIntegrityPass] agree: run on the document of the contract, the
    former hands over the document of the contract the latter verifies
    coverage on, up to the order of the members. *)
Example passOnDocument_sampleSpec :
  option_map sortMembers (passOnDocument (jsonOfSpec sampleSpec) true None)
  = option_map (fun s => sortMembers (jsonOfSpec s)) (injected sampleSpec None).
Proof. vm_compute. reflexivity. Qed.

Example passOnDocument_richSpec :
  option_map sortMembers (passOnDocument (jsonOfSpec richSpec) true (Some "\[\d+\]"))
  = option_map (fun s => sortMembers (jsonOfSpec s))
               (injected richSpec
                         (Some {| injectUniversalDefaults := None;
                                  requireMustCoverage := None;
                                  optCitationPattern := Some "\[\d+\]" |})).
Proof. vm_compute. reflexivity. Qed.

Example passOnDocument_richSpec_no_defaults :
  option_map sortMembers (passOnDocument (jsonOfSpec richSpec) false None)
  = option_map (fun s => sortMembers (jsonOfSpec s))
               (injected richSpec
                         (Some {| injectUniversalDefaults := Some false;
                                  requireMustCoverage := None;
                                  optCitationPattern := None |})).
Proof. vm_compute. reflexivity. Qed.

End RefsFacts.

(** * What a returned contract satisfies *)

(** An issue of severity [error] among warnings. *)
Ltac bad_issue H :=
  exfalso; inversion H as [|? ? Hw ?]; unfold isWarning in Hw; simpl in Hw;
  discriminate Hw.

Section ReturnedContract.

Lemma has_In (s : StrSet) (x : string) : has s x = true <-> In x s.
Proof.
  unfold has. rewrite existsb_exists. split.
  - intros (y & Hy & Heq). apply String.eqb_eq in Heq. now subst.
  - intros H. exists x. split; [exact H | apply String.eqb_refl].
Qed.

Lemma has_false_notIn (s : StrSet) (x : string) : has s x = false <-> ~ In x s.
Proof.
  rewrite <- has_In. destruct (has s x); split; congruence.
Qed.

Lemma add_fresh (s : StrSet) (x : string) : has s x = false -> add s x = s ++ [x].
Proof. unfold add. now intros ->. Qed.

Lemma warning_not_error (i : IntegrityIssue) :
  issueSeverity i = error -> ~ isWarning i.
Proof. unfold isWarning. congruence. Qed.

(** The artifact loop without an error: identifiers present and distinct,
    formats present, and the set is the list of the identifiers. *)
Lemma checkArtifacts_clean (arts : list ArtifactSpec) :
  forall i set,
    Forall isWarning (snd (checkArtifacts i arts set)) ->
    Forall (fun a => truthy (artifactId a) = true /\ formats a <> []) arts
    /\ snd (fst (checkArtifacts i arts set)) = set ++ map artifactId arts
    /\ (forall a, In a arts -> ~ In (artifactId a) set)
    /\ NoDup (map artifactId arts)
    /\ Forall (fun a => dependsOn a <> None) (fst (fst (checkArtifacts i arts set))).
Proof.
  induction arts as [|a rest IH]; intros i set; simpl.
  - intros _. rewrite app_nil_r. repeat split; try constructor. intros a [].
  - destruct (truthy (artifactId a)) eqn:Hid; simpl.
    + specialize (IH (S i) (add set (artifactId a))).
      destruct (checkArtifacts (S i) rest (add set (artifactId a))) as [[r s] l].
      simpl in *. intros Hall.
      destruct (has set (artifactId a)) eqn:Hhas.
      { bad_issue Hall. }
      simpl in Hall.
      destruct (formats a) as [|f fs] eqn:Hf.
      { bad_issue Hall. }
      simpl in Hall.
      assert (Hrest : Forall isWarning l).
      { destruct (owners a); [now inversion Hall | exact Hall]. }
      destruct (IH Hrest) as (H1 & H2 & H3 & H4 & H5).
      rewrite (add_fresh _ _ Hhas) in H2, H3.
      apply has_false_notIn in Hhas.
      split; [constructor; [cbv beta; split; [exact Hid | rewrite Hf; discriminate] | exact H1]|].
      split; [now rewrite H2, <- app_assoc|].
      split.
      { intros b [<-|Hb]; [exact Hhas|]. intros Hin. apply (H3 b Hb).
        apply in_or_app. now left. }
      split.
      { constructor; [|exact H4]. intros Hin. apply in_map_iff in Hin as (b & Hb & Hin).
        apply (H3 b Hin). apply in_or_app. right. left. now symmetry. }
      constructor; [|exact H5]. cbv beta. destruct (dependsOn a) eqn:Hd; simpl; [rewrite Hd|]; discriminate.
    + destruct (checkArtifacts (S i) rest set) as [[r s] l]. simpl.
      intros Hall. bad_issue Hall.
Qed.

Lemma checkRefs_clean (mk : nat -> string -> IntegrityIssue) (set : StrSet)
      (ids : list string) :
  (forall j x, issueSeverity (mk j x) = error) ->
  forall j, Forall isWarning (checkRefs mk set j ids) ->
            forall x, In x ids -> In x set.
Proof.
  intros Hmk. induction ids as [|y ids IH]; intros j Hall x; simpl in *; [intros []|].
  destruct (has set y) eqn:Hy; simpl in Hall.
  - intros [<-|Hx]; [now apply has_In | eauto].
  - inversion Hall; subst. exfalso. eapply warning_not_error; eauto.
Qed.

Lemma forIndexed_clean {A} (body : nat -> A -> list IntegrityIssue) (xs : list A) :
  forall i, Forall isWarning (forIndexed body i xs) ->
            forall x, In x xs -> exists k, Forall isWarning (body k x).
Proof.
  induction xs as [|y xs IH]; intros i Hall x; simpl in *; [intros []|].
  apply Forall_app in Hall as [Hy Hrest].
  intros [<-|Hx]; [eauto | eapply IH; eauto].
Qed.

Lemma checkAcceptance_clean (set : StrSet) (acs : list AcceptanceCriterionSpec) :
  forall i acIdSet,
    Forall isWarning (checkAcceptance set i acs acIdSet) ->
    (forall ac t, In ac acs -> In t (targetArtifacts ac) -> In t set)
    /\ (forall ac, In ac acs -> ~ In (acId ac) acIdSet)
    /\ NoDup (map acId acs).
Proof.
  induction acs as [|ac rest IH]; intros i acIdSet; simpl.
  - intros _. split; [intros ? ? []|split; [intros ? []|constructor]].
  - intros Hall. destruct (has acIdSet (acId ac)) eqn:Hhas.
    { bad_issue Hall. }
    simpl in Hall. apply Forall_app in Hall as [Ht Hrest].
    destruct (IH _ _ Hrest) as (H1 & H2 & H3).
    rewrite (add_fresh _ _ Hhas) in H2. apply has_false_notIn in Hhas.
    split; [|split].
    + intros b t [<-|Hb] Hin; [|eauto].
      eapply checkRefs_clean; [|exact Ht|exact Hin]. reflexivity.
    + intros b [<-|Hb]; [exact Hhas|]. intros Hin. apply (H2 b Hb).
      apply in_or_app. now left.
    + constructor; [|exact H3]. intros Hin.
      apply in_map_iff in Hin as (b & Hb & Hin).
      apply (H2 b Hin). apply in_or_app. right. left. now symmetry.
Qed.


Lemma mustCoverage_errors (registry : AdapterRegistry) (s : VCCSpec) (ctx : RunContext) :
  Forall (fun i => issueSeverity i = error) (mustCoverage registry s ctx).
Proof.
  unfold mustCoverage. apply Forall_flat_map, Forall_forall. intros ac _.
  unfold mustCoverageFor.
  destruct (explicitAdapterOf ac).
  - destruct (negb _); repeat constructor.
  - destruct (candidates registry ac); [repeat constructor|].
    destruct (negb _); repeat constructor.
Qed.

Lemma warnings_errors_nil (l : list IntegrityIssue) :
  Forall isWarning l -> Forall (fun i => issueSeverity i = error) l -> l = [].
Proof.
  destruct l as [|i l]; [reflexivity|]. intros Hw He.
  inversion Hw; inversion He; subst. unfold isWarning in *. congruence.
Qed.

(** What a call that returns went through. *)
Lemma returned_clean (inputSpec : VCCSpec) (ctx : RunContext)
      (registry : AdapterRegistry) (opts : option Opts) (r : IntegrityResult) :
  specIntegrityPass inputSpec ctx registry opts = Returned r ->
  Forall isWarning (structuralIssues inputSpec ctx)
  /\ (optRequireMustCoverage opts = true -> mustCoverage registry (spec r) ctx = [])
  /\ issues r = structuralIssues inputSpec ctx
  /\ artifactIds (normalized r) = snd (fst (checkArtifacts 0 (artifacts inputSpec) []))
  /\ mustACs (normalized r) = map acId (filter isMust (acceptance (spec r))).
Proof.
  unfold specIntegrityPass, deepClone.
  change (artifacts (normalizeArrays inputSpec)) with (artifacts inputSpec).
  destruct (artifacts inputSpec) as [|a rest] eqn:Ha; [discriminate|].
  destruct (injected inputSpec opts) as [s1|]; [|discriminate].
  destruct (0 <? _)%nat eqn:Hz; [discriminate|].
  intros [= <-]. cbn [spec issues normalized artifactIds mustACs].
  apply filter_isError_Forall in Hz. apply Forall_app in Hz as [H1 H2].
  assert (Hcov : (if optRequireMustCoverage opts
                  then mustCoverage registry s1 ctx else []) = []).
  { destruct (optRequireMustCoverage opts); [|reflexivity].
    apply warnings_errors_nil; [exact H2 | apply mustCoverage_errors]. }
  split; [exact H1|]. split; [intros Hreq; now rewrite Hreq in Hcov|].
  split; [now rewrite Hcov, app_nil_r|]. split; reflexivity.
Qed.

Lemma has_newSet_In (xs : list string) (x : string) :
  has (newSet xs) x = true <-> In x xs.
Proof. rewrite has_newSet. apply has_In. Qed.

(** What the structural checks establish when they push no error. *)
Lemma structuralIssues_clean (s : VCCSpec) (ctx : RunContext) :
  Forall isWarning (structuralIssues s ctx) ->
  vccVersion s = "sdlaf.vcc/v1"
  /\ Forall (fun a => truthy (artifactId a) = true /\ formats a <> []) (artifacts s)
  /\ NoDup (map artifactId (artifacts s))
  /\ snd (fst (checkArtifacts 0 (artifacts s) [])) = map artifactId (artifacts s)
  /\ Forall (fun a => dependsOn a <> None) (artifacts (structuralSpec s))
  /\ (forall a dep, In a (artifacts (structuralSpec s)) ->
                    In dep (orEmpty (dependsOn a)) ->
                    In dep (map artifactId (artifacts s)))
  /\ (forall p x, In p (packaging s) -> In x (inputs p) ->
                  In x (map artifactId (artifacts s)))
  /\ (forall ac t, In ac (acceptance s) -> In t (targetArtifacts ac) ->
                   In t (map artifactId (artifacts s)))
  /\ NoDup (map acId (acceptance s))
  /\ (forall ac ref, In ac (acceptance s) -> rubricRef (rule ac) = Some ref ->
                     truthy ref = true ->
                     In ref (map rubricId (orEmpty (rubrics s))))
  /\ (forall g ra ref, In g (orEmpty (gates s)) -> In ra (requiredApprovals g) ->
                       approvalRubricId ra = Some ref -> truthy ref = true ->
                       In ref (map rubricId (orEmpty (rubrics s)))).
Proof.
  unfold structuralIssues, structuralSpec.
  change (artifacts (normalizeArrays s)) with (artifacts s).
  pose proof (checkArtifacts_clean (artifacts s) 0 []) as Hc.
  destruct (checkArtifacts 0 (artifacts s) []) as [[arts set] issA].
  cbn [fst snd] in *.
  change (artifacts (setArtifacts (normalizeArrays s) arts)) with arts.
  change (packaging (setArtifacts (normalizeArrays s) arts)) with (packaging s).
  change (acceptance (setArtifacts (normalizeArrays s) arts)) with (acceptance s).
  change (orEmpty (rubrics (setArtifacts (normalizeArrays s) arts)))
    with (orEmpty (rubrics s)).
  change (orEmpty (gates (setArtifacts (normalizeArrays s) arts)))
    with (orEmpty (gates s)).
  intros Hall.
  apply Forall_app in Hall as [Hv Hall].
  apply Forall_app in Hall as [HA Hall].
  apply Forall_app in Hall as [HD Hall].
  apply Forall_app in Hall as [HP Hall].
  apply Forall_app in Hall as [HC Hall].
  apply Forall_app in Hall as [HR Hall].
  apply Forall_app in Hall as [HG _].
  destruct (Hc HA) as (H1 & H2 & _ & H4 & H5). simpl in H2. subst set.
  split.
  { unfold versionCheck in Hv.
    destruct (String.eqb (vccVersion s) "sdlaf.vcc/v1") eqn:E;
      [now apply String.eqb_eq in E | bad_issue Hv]. }
  split; [exact H1|]. split; [exact H4|]. split; [reflexivity|].
  split; [exact H5|].
  split.
  { intros a dep Ha Hdep.
    destruct (forIndexed_clean _ _ _ HD a Ha) as (k & Hk).
    eapply checkRefs_clean; [|exact Hk|exact Hdep]. reflexivity. }
  split.
  { intros p x Hp Hx.
    destruct (forIndexed_clean _ _ _ HP p Hp) as (k & Hk).
    eapply checkRefs_clean; [|exact Hk|exact Hx]. reflexivity. }
  destruct (checkAcceptance_clean _ _ _ _ HC) as (Ht & _ & Hnd).
  split; [exact Ht|]. split; [exact Hnd|].
  split.
  { intros ac ref Hac Href Htr.
    destruct (forIndexed_clean _ _ _ HR ac Hac) as (k & Hk).
    rewrite Href, Htr in Hk. simpl in Hk.
    destruct (has _ ref) eqn:Hh; [now apply has_newSet_In in Hh | bad_issue Hk]. }
  intros g ra ref Hg Hra Href Htr.
  destruct (forIndexed_clean _ _ _ HG g Hg) as (k & Hk).
  destruct (forIndexed_clean _ _ _ Hk ra Hra) as (j & Hj).
  rewrite Href, Htr in Hj. simpl in Hj.
  destruct (has _ ref) eqn:Hh; [now apply has_newSet_In in Hh | bad_issue Hj].
Qed.

Lemma sameButDeps_ids (xs ys : list ArtifactSpec) :
  Forall2 sameButDeps xs ys -> map artifactId ys = map artifactId xs.
Proof.
  induction 1 as [|x y xs ys Hxy _ IH]; [reflexivity|]. simpl.
  destruct Hxy as (-> & _). now rewrite IH.
Qed.

Lemma structuralSpec_ids (s : VCCSpec) :
  map artifactId (artifacts (structuralSpec s)) = map artifactId (artifacts s).
Proof.
  apply sameButDeps_ids. unfold structuralSpec.
  change (artifacts (normalizeArrays s)) with (artifacts s).
  apply checkArtifacts_shape.
Qed.

(** Decide the comparisons of two string literals in the goal. *)
Ltac eval_eqb_lit :=
  repeat match goal with
         | |- context [String.eqb ?a ?b] =>
           let v := eval vm_compute in (String.eqb a b) in
           match v with
           | true => idtac
           | false => idtac
           end;
           change (String.eqb a b) with v
         end.

Lemma fresh_id (ids : list string) (x : string) :
  negb (has (newSet ids) x) = true -> ~ In x ids.
Proof.
  intros H Hin. apply has_newSet_In in Hin. rewrite Hin in H. discriminate.
Qed.

(** The injected criteria: defaults of the contract, with identifiers that
    are pairwise distinct and new. *)
Lemma injectDefaultAcceptance_fresh (s s1 : VCCSpec) (p : option string) :
  injectDefaultAcceptance s p = Some s1 ->
  exists added,
    acceptance s1 = acceptance s ++ added
    /\ Forall (defaultCriterionOf s p) added
    /\ NoDup (map acId added)
    /\ Forall (fun ac => ~ In (acId ac) (map acId (acceptance s))) added.
Proof.
  unfold injectDefaultAcceptance.
  destruct (negb (has _ "AC-UNIV-STRUCT-1")) eqn:H1;
    destruct (negb (has _ "AC-UNIV-TRACE-1")) eqn:H2;
    destruct (negb (has _ "AC-UNIV-CONSIST-1")) eqn:H3;
    destruct (negb (has _ "AC-UNIV-PROV-1")) eqn:H4;
    try apply fresh_id in H1; try apply fresh_id in H2;
    try apply fresh_id in H3; try apply fresh_id in H4;
    destruct (findLikelySpecArtifacts s) as [t1|] eqn:E1; simpl; try discriminate;
    destruct (findNarrativeArtifacts s) as [t2|] eqn:E2; simpl; try discriminate;
    intros [= <-]; simpl; rewrite <- ?app_assoc; simpl;
    first [ exists []; split; [now rewrite app_nil_r |]
          | eexists; split; [reflexivity|] ];
    (split; [repeat (apply Forall_cons; [unfold defaultCriterionOf; eauto 8|]);
             apply Forall_nil|]);
    (split; [simpl; repeat (constructor; [simpl; intuition discriminate|]);
             constructor|]);
    repeat (apply Forall_cons; [assumption|]); apply Forall_nil.
Qed.

Lemma findLikelySpecArtifacts_declared (s : VCCSpec) (t : list ArtifactId) :
  findLikelySpecArtifacts s = Some t -> incl t (map artifactId (artifacts s)).
Proof.
  unfold findLikelySpecArtifacts.
  destruct (filter required (artifacts s)) as [|r0 rs] eqn:Hreq.
  - destruct (artifacts s) as [|a0 rest]; [discriminate|]. simpl.
    intros [= <-] x [<-|[]]. now left.
  - assert (Hin : incl (r0 :: rs) (artifacts s)).
    { rewrite <- Hreq. intros x Hx. now apply filter_In in Hx. }
    destruct (map artifactId (filter looksLikeSpec (r0 :: rs))) as [|i is_] eqn:Hids;
      intros [= <-].
    + intros x [<-|[]]. apply in_map, Hin. now left.
    + rewrite <- Hids. intros x Hx. apply in_map_iff in Hx as (a & <- & Ha).
      apply in_map, Hin. now apply filter_In in Ha.
Qed.

Lemma findNarrativeArtifacts_declared (s : VCCSpec) (t : list ArtifactId) :
  findNarrativeArtifacts s = Some t -> incl t (map artifactId (artifacts s)).
Proof.
  unfold findNarrativeArtifacts.
  destruct (filter required (artifacts s)) as [|r0 rs] eqn:Hreq.
  - destruct (artifacts s) as [|a0 rest]; [discriminate|]. simpl.
    intros [= <-] x [<-|[]]. now left.
  - assert (Hin : incl (r0 :: rs) (artifacts s)).
    { rewrite <- Hreq. intros x Hx. now apply filter_In in Hx. }
    destruct (map artifactId (filter isNarrative (r0 :: rs))) as [|i is_] eqn:Hids;
      intros [= <-].
    + intros x Hx.
      change (artifactId r0 :: map artifactId rs) with (map artifactId (r0 :: rs)) in Hx.
      apply in_map_iff in Hx as (a & <- & Ha). now apply in_map, Hin.
    + rewrite <- Hids. intros x Hx. apply in_map_iff in Hx as (a & <- & Ha).
      apply in_map, Hin. now apply filter_In in Ha.
Qed.

(** The targets of a default criterion are declared artifacts as soon as
    the packaging inputs are. *)
Lemma defaultCriterionOf_targets (s : VCCSpec) (p : option string)
      (ac : AcceptanceCriterionSpec) :
  (forall pk x, In pk (packaging s) -> In x (inputs pk) ->
                In x (map artifactId (artifacts s))) ->
  defaultCriterionOf s p ac ->
  incl (targetArtifacts ac) (map artifactId (artifacts s))
  /\ rubricRef (rule ac) = None /\ adapter (rule ac) = None.
Proof.
  intros Hpk [(t & Ht & ->)|[(t & Ht & ->)|[->| ->]]]; simpl; (split; [|split; reflexivity]).
  - now apply findLikelySpecArtifacts_declared.
  - now apply findNarrativeArtifacts_declared.
  - intros x Hx. apply in_map_iff in Hx as (a & <- & Ha).
    apply in_map. now apply filter_In in Ha.
  - intros x Hx. apply in_flat_map in Hx as (pk & Hpk1 & Hx). eauto.
Qed.

(** How the returned contract is made from the input. *)
Lemma injected_fields (s s1 : VCCSpec) (opts : option Opts) :
  injected s opts = Some s1 ->
  vccVersion s1 = vccVersion s
  /\ artifacts s1 = artifacts (structuralSpec s)
  /\ relationships s1 = Some (orEmpty (relationships s))
  /\ gates s1 = Some (orEmpty (gates s))
  /\ packaging s1 = packaging s
  /\ provenancePolicy s1 = provenancePolicy s
  /\ resourceConstraints s1 = resourceConstraints s
  /\ (exists addedR,
         rubrics s1 = Some (orEmpty (rubrics s) ++ addedR)
         /\ (optInject opts = false -> addedR = [])
         /\ Forall (fun rb => rb = rubricOverall \/ rb = rubricClarity) addedR
         /\ Forall (fun rb => ~ In (rubricId rb) (map rubricId (orEmpty (rubrics s))))
                   addedR)
  /\ (exists added,
         acceptance s1 = acceptance s ++ added
         /\ (optInject opts = false -> added = [])
         /\ Forall (defaultCriterionOf (injectDefaultRubrics (structuralSpec s))
                                       (optPattern opts)) added
         /\ NoDup (map acId added)
         /\ Forall (fun ac => ~ In (acId ac) (map acId (acceptance s))) added).
Proof.
  unfold injected. destruct (optInject opts).
  - intros H.
    destruct (injectDefaultAcceptance_fresh _ _ _ H) as (added & Ha & Hd & Hn & Hf).
    unfold injectDefaultAcceptance in H.
    destruct (if negb (has _ "AC-UNIV-STRUCT-1") then _ else _); [|discriminate].
    destruct (if negb (has _ "AC-UNIV-TRACE-1") then _ else _); [|discriminate].
    injection H as <-. cbn [acceptance setAcceptance] in Ha.
    repeat (split; [reflexivity|]).
    split.
    + cbn [rubrics setAcceptance injectDefaultRubrics setRubrics].
      change (orEmpty (rubrics (structuralSpec s))) with (orEmpty (rubrics s)).
      destruct (negb (has _ "RUBRIC-OVERALL-v1")) eqn:H1;
        destruct (negb (has _ "RUBRIC-CLARITY-v1")) eqn:H2;
        try apply fresh_id in H1; try apply fresh_id in H2;
        rewrite <- ?app_assoc; simpl;
        first [ exists []; split; [now rewrite app_nil_r|]
              | eexists; split; [reflexivity|] ];
        (split; [discriminate|]);
        (split; [repeat (apply Forall_cons; [auto|]); apply Forall_nil|]);
        repeat (apply Forall_cons; [assumption|]); apply Forall_nil.
    + exists added. split; [exact Ha|]. split; [discriminate|]. auto.
  - intros [= <-]. repeat (split; [reflexivity|]). split.
    + exists []. split; [now rewrite app_nil_r|]. repeat split; constructor.
    + exists []. split; [now rewrite app_nil_r|]. repeat split; constructor.
Qed.

End ReturnedContract.

Section ReturnedTheorems.

Variable inputSpec : VCCSpec.
Variable ctx : RunContext.
Variable registry : AdapterRegistry.
Variable opts : option Opts.
Variable r : IntegrityResult.
Hypothesis Hret : specIntegrityPass inputSpec ctx registry opts = Returned r.

Lemma truthy_nonempty (x : string) : truthy x = true -> x <> "".
Proof.
  unfold truthy. intros H ->. discriminate.
Qed.

Lemma returned_artifacts : artifacts (spec r) = artifacts (structuralSpec inputSpec).
Proof.
  destruct (returned_inv _ _ _ _ _ Hret) as (_ & Hinj).
  now destruct (injected_fields _ _ _ Hinj) as (_ & H & _).
Qed.

Lemma returned_ids :
  map artifactId (artifacts (spec r)) = map artifactId (artifacts inputSpec).
Proof. rewrite returned_artifacts. apply structuralSpec_ids. Qed.

Lemma sameButDeps_Forall (xs ys : list ArtifactSpec) :
  Forall2 sameButDeps xs ys ->
  Forall (fun a => truthy (artifactId a) = true /\ formats a <> []) xs ->
  Forall (fun a => artifactId a <> "" /\ formats a <> []) ys.
Proof.
  induction 1 as [|x y xs ys Hxy _ IH]; intros Hall; [constructor|].
  inversion Hall as [|? ? (Hid & Hf) Hrest]; subst.
  destruct Hxy as (Hi & _ & _ & Hfm & _).
  constructor; [|auto]. rewrite <- Hi, <- Hfm. split; [now apply truthy_nonempty | exact Hf].
Qed.

Lemma mustIds_NoDup (acs : list AcceptanceCriterionSpec) :
  NoDup (map acId acs) -> NoDup (map acId (filter isMust acs)).
Proof.
  induction acs as [|ac acs IH]; simpl; [auto|]. intros Hnd.
  inversion Hnd as [|? ? Hx Hl]; subst.
  destruct (isMust ac); simpl; [|auto]. constructor; [|auto].
  intros Hin. apply Hx. apply in_map_iff in Hin as (y & Hy & Hin).
  apply in_map_iff. exists y. split; [exact Hy|]. now apply filter_In in Hin.
Qed.

Lemma flat_map_nil {A B} (f : A -> list B) (l : list A) :
  flat_map f l = [] -> forall x, In x l -> f x = [].
Proof.
  induction l as [|y l IH]; simpl; [intros _ x []|].
  intros H x [<-|Hx]; apply app_eq_nil in H as [H1 H2]; auto.
Qed.

End ReturnedTheorems.

(** X1. A contract the pass returns is well formed in its artifacts: the
    version tag is the supported one, there is at least one artifact, every
    artifact has a non-empty identifier, at least one format and a
    [dependsOn] array, no identifier occurs twice, and
    [normalized.artifactIds] lists the identifiers in the order of the
    artifacts. *)
Theorem returned_artifacts_wellformed
        (inputSpec : VCCSpec) (ctx : RunContext) (registry : AdapterRegistry)
        (opts : option Opts) (r : IntegrityResult) :
  specIntegrityPass inputSpec ctx registry opts = Returned r ->
  vccVersion (spec r) = "sdlaf.vcc/v1"
  /\ artifacts (spec r) <> []
  /\ Forall (fun a => artifactId a <> "" /\ formats a <> []) (artifacts (spec r))
  /\ Forall (fun a => exists deps, dependsOn a = Some deps) (artifacts (spec r))
  /\ NoDup (map artifactId (artifacts (spec r)))
  /\ artifactIds (normalized r) = map artifactId (artifacts (spec r)).
Proof.
  intros Hret.
  destruct (returned_inv _ _ _ _ _ Hret) as (Hne & Hinj).
  destruct (returned_clean _ _ _ _ _ Hret) as (Hclean & _ & _ & Hids & _).
  destruct (structuralIssues_clean _ _ Hclean)
    as (Hv & Hwf & Hnd & Hset & Hdeps & _).
  destruct (injected_fields _ _ _ Hinj) as (Hver & Harts & _).
  rewrite (returned_ids _ _ _ _ _ Hret), Harts.
  split; [congruence|].
  split; [now apply structuralSpec_artifacts_nonempty|].
  split.
  { eapply sameButDeps_Forall; [|exact Hwf]. unfold structuralSpec.
    change (artifacts (normalizeArrays inputSpec)) with (artifacts inputSpec).
    apply checkArtifacts_shape. }
  split.
  { eapply Forall_impl; [|exact Hdeps]. intros a Ha. cbv beta in Ha.
    destruct (dependsOn a) as [d|]; [now exists d | now elim Ha]. }
  split; [exact Hnd | congruence].
Qed.

Lemma returned_artifacts_wellformed_witness :
  specIntegrityPass linkedSpec sampleCtx sampleRegistry None = Returned linkedResult
  /\ NoDup (map artifactId (artifacts (spec linkedResult)))
  /\ artifactIds (normalized linkedResult) = ["requirements"; "report"].
Proof.
  assert (H : specIntegrityPass linkedSpec sampleCtx sampleRegistry None
              = Returned linkedResult) by (vm_compute; reflexivity).
  split; [exact H|].
  destruct (returned_artifacts_wellformed linkedSpec sampleCtx sampleRegistry None
              linkedResult H) as (_ & _ & _ & _ & Hnd & Hids).
  split; [exact Hnd|]. rewrite Hids. vm_compute. reflexivity.
Defined.

(** X2. In a contract the pass returns every reference to an artifact
    resolves: the entries of every [dependsOn], the inputs of every
    packaging step and the targets of every acceptance criterion, the
    injected defaults included, are identifiers of declared artifacts. *)
Theorem returned_references_resolve
        (inputSpec : VCCSpec) (ctx : RunContext) (registry : AdapterRegistry)
        (opts : option Opts) (r : IntegrityResult) :
  specIntegrityPass inputSpec ctx registry opts = Returned r ->
  (forall a dep, In a (artifacts (spec r)) -> In dep (orEmpty (dependsOn a)) ->
                 declared (spec r) dep)
  /\ (forall p x, In p (packaging (spec r)) -> In x (inputs p) ->
                  declared (spec r) x)
  /\ (forall ac t, In ac (acceptance (spec r)) -> In t (targetArtifacts ac) ->
                   declared (spec r) t).
Proof.
  intros Hret. unfold declared.
  destruct (returned_inv _ _ _ _ _ Hret) as (Hne & Hinj).
  destruct (returned_clean _ _ _ _ _ Hret) as (Hclean & _).
  destruct (structuralIssues_clean _ _ Hclean)
    as (_ & _ & _ & _ & _ & Hdep & Hpk & Htg & _).
  destruct (injected_fields _ _ _ Hinj)
    as (_ & Harts & _ & _ & Hpack & _ & _ & _ & (added & Hacc & _ & Hdef & _)).
  rewrite (returned_ids _ _ _ _ _ Hret), Harts, Hpack, Hacc.
  split; [exact Hdep|]. split; [exact Hpk|].
  intros ac t Hac Ht. apply in_app_or in Hac as [Hac|Hac]; [eauto|].
  rewrite Forall_forall in Hdef. specialize (Hdef ac Hac).
  apply defaultCriterionOf_targets in Hdef as (Hincl & _).
  - apply Hincl in Ht.
    change (artifacts (injectDefaultRubrics (structuralSpec inputSpec)))
      with (artifacts (structuralSpec inputSpec)) in Ht.
    now rewrite structuralSpec_ids in Ht.
  - change (artifacts (injectDefaultRubrics (structuralSpec inputSpec)))
      with (artifacts (structuralSpec inputSpec)).
    rewrite structuralSpec_ids. exact Hpk.
Qed.

Lemma returned_references_resolve_witness :
  specIntegrityPass linkedSpec sampleCtx sampleRegistry None = Returned linkedResult
  /\ (forall ac t, In ac (acceptance (spec linkedResult)) ->
                   In t (targetArtifacts ac) -> declared (spec linkedResult) t).
Proof.
  assert (H : specIntegrityPass linkedSpec sampleCtx sampleRegistry None
              = Returned linkedResult) by (vm_compute; reflexivity).
  split; [exact H|].
  exact (proj2 (proj2 (returned_references_resolve linkedSpec sampleCtx sampleRegistry
                         None linkedResult H))).
Defined.

(** X3. In a contract the pass returns no two acceptance criteria share an
    identifier, the injected defaults included, and [normalized.mustACs]
    names each MUST criterion once. *)
Theorem returned_criterion_ids_distinct
        (inputSpec : VCCSpec) (ctx : RunContext) (registry : AdapterRegistry)
        (opts : option Opts) (r : IntegrityResult) :
  specIntegrityPass inputSpec ctx registry opts = Returned r ->
  NoDup (map acId (acceptance (spec r)))
  /\ NoDup (mustACs (normalized r))
  /\ (forall ac, In ac (acceptance (spec r)) -> severity ac = must ->
                 In (acId ac) (mustACs (normalized r))).
Proof.
  intros Hret.
  destruct (returned_inv _ _ _ _ _ Hret) as (Hne & Hinj).
  destruct (returned_clean _ _ _ _ _ Hret) as (Hclean & _ & _ & _ & Hmust).
  destruct (structuralIssues_clean _ _ Hclean)
    as (_ & _ & _ & _ & _ & _ & _ & _ & Hnd & _).
  destruct (injected_fields _ _ _ Hinj)
    as (_ & _ & _ & _ & _ & _ & _ & _ & (added & Hacc & _ & _ & Hnda & Hfresh)).
  assert (Hall : NoDup (map acId (acceptance (spec r)))).
  { rewrite Hacc, map_app. apply NoDup_app; [exact Hnd | exact Hnda|].
    intros x Hx Hx'. apply in_map_iff in Hx' as (ac & <- & Hac).
    rewrite Forall_forall in Hfresh. now apply (Hfresh ac Hac). }
  split; [exact Hall|]. rewrite Hmust.
  split; [now apply mustIds_NoDup|].
  intros ac Hac Hsev. apply in_map, filter_In. split; [exact Hac|].
  unfold isMust. now rewrite Hsev.
Qed.

Lemma returned_criterion_ids_distinct_witness :
  specIntegrityPass linkedSpec sampleCtx sampleRegistry None = Returned linkedResult
  /\ NoDup (map acId (acceptance (spec linkedResult)))
  /\ mustACs (normalized linkedResult)
     = ["AC-1"; "AC-QA-1"; "AC-UNIV-STRUCT-1"; "AC-UNIV-PROV-1"].
Proof.
  assert (H : specIntegrityPass linkedSpec sampleCtx sampleRegistry None
              = Returned linkedResult) by (vm_compute; reflexivity).
  split; [exact H|].
  split; [exact (proj1 (returned_criterion_ids_distinct linkedSpec sampleCtx
                          sampleRegistry None linkedResult H))|].
  vm_compute. reflexivity.
Defined.

Lemma nonempty_truthy (x : string) : x <> "" -> truthy x = true.
Proof.
  unfold truthy. intros H. destruct (String.eqb x "") eqn:E; [|reflexivity].
  apply String.eqb_eq in E. contradiction.
Qed.

(** X4. In a contract the pass returns every rubric reference resolves: a
    criterion whose rule names a rubric, and a gate approval that names
    one, name a rubric of the returned contract; the rubric validator's
    [canValidate] then accepts such a criterion. *)
Theorem returned_rubric_refs_resolve
        (inputSpec : VCCSpec) (ctx : RunContext) (registry : AdapterRegistry)
        (opts : option Opts) (r : IntegrityResult) :
  specIntegrityPass inputSpec ctx registry opts = Returned r ->
  (forall ac ref, In ac (acceptance (spec r)) ->
                  rubricRef (rule ac) = Some ref -> ref <> "" ->
                  rubricDeclared (spec r) ref
                  /\ rubric_canValidate ac (spec r) ctx = Some true)
  /\ (forall g ra ref, In g (orEmpty (gates (spec r))) ->
                       In ra (requiredApprovals g) ->
                       approvalRubricId ra = Some ref -> ref <> "" ->
                       rubricDeclared (spec r) ref).
Proof.
  intros Hret.
  destruct (returned_inv _ _ _ _ _ Hret) as (Hne & Hinj).
  destruct (returned_clean _ _ _ _ _ Hret) as (Hclean & _).
  destruct (structuralIssues_clean _ _ Hclean)
    as (_ & _ & _ & _ & _ & _ & Hpk & _ & _ & Hrub & Hgate).
  destruct (injected_fields _ _ _ Hinj)
    as (_ & _ & _ & Hg & _ & _ & _ & (addedR & HR & _) & (added & Hacc & _ & Hdef & _)).
  assert (Hdecl : forall ref, In ref (map rubricId (orEmpty (rubrics inputSpec))) ->
                              rubricDeclared (spec r) ref).
  { intros ref Hin. apply in_map_iff in Hin as (rb & Hid & Hin).
    exists rb. split; [|exact Hid]. rewrite HR. simpl. apply in_or_app. now left. }
  split.
  - intros ac ref Hac Href Hne'.
    assert (Hd : rubricDeclared (spec r) ref).
    { rewrite Hacc in Hac. apply in_app_or in Hac as [Hac|Hac].
      - apply Hdecl. eapply Hrub; eauto using nonempty_truthy.
      - rewrite Forall_forall in Hdef. specialize (Hdef ac Hac).
        apply defaultCriterionOf_targets in Hdef as (_ & Hnone & _).
        + congruence.
        + change (artifacts (injectDefaultRubrics (structuralSpec inputSpec)))
            with (artifacts (structuralSpec inputSpec)).
          rewrite structuralSpec_ids. exact Hpk. }
    split; [exact Hd|]. unfold rubric_canValidate. rewrite Href.
    rewrite (nonempty_truthy _ Hne'). simpl. f_equal.
    destruct Hd as (rb & Hin & Hid). apply existsb_exists. exists rb.
    split; [exact Hin|]. now apply String.eqb_eq.
  - intros g ra ref Hgin Hra Href Hne'. apply Hdecl.
    rewrite Hg in Hgin. simpl in Hgin. eapply Hgate; eauto using nonempty_truthy.
Qed.

Lemma returned_rubric_refs_resolve_witness :
  specIntegrityPass linkedSpec sampleCtx sampleRegistry None = Returned linkedResult
  /\ In qaCriterion (acceptance (spec linkedResult))
  /\ rubricDeclared (spec linkedResult) "RUBRIC-QA"
  /\ rubric_canValidate qaCriterion (spec linkedResult) sampleCtx = Some true.
Proof.
  assert (H : specIntegrityPass linkedSpec sampleCtx sampleRegistry None
              = Returned linkedResult) by (vm_compute; reflexivity).
  assert (Hin : In qaCriterion (acceptance (spec linkedResult)))
    by (vm_compute; auto).
  split; [exact H|]. split; [exact Hin|].
  apply (proj1 (returned_rubric_refs_resolve linkedSpec sampleCtx sampleRegistry
                  None linkedResult H) qaCriterion "RUBRIC-QA" Hin);
    [reflexivity | discriminate].
Defined.

(** X5. When the pass returns with the MUST coverage check on, every MUST
    criterion of the returned contract can be scored: the adapter its rule
    names is registered or, when it names none, a registered validator that
    supports its type answers [true] to [canValidate]. *)
Theorem returned_must_covered
        (inputSpec : VCCSpec) (ctx : RunContext) (registry : AdapterRegistry)
        (opts : option Opts) (r : IntegrityResult) :
  optRequireMustCoverage opts = true ->
  specIntegrityPass inputSpec ctx registry opts = Returned r ->
  forall ac, In ac (acceptance (spec r)) -> severity ac = must ->
             covered registry (spec r) ctx ac.
Proof.
  intros Hreq Hret ac Hac Hsev.
  destruct (returned_clean _ _ _ _ _ Hret) as (_ & Hcov & _).
  specialize (Hcov Hreq). unfold mustCoverage in Hcov.
  assert (Hnil : mustCoverageFor registry (spec r) ctx ac = []).
  { apply (flat_map_nil _ _ Hcov). apply filter_In. split; [exact Hac|].
    unfold isMust. now rewrite Hsev. }
  unfold mustCoverageFor in Hnil. unfold covered.
  destruct (explicitAdapterOf ac) as [e|].
  - destruct (existsb _ (validators registry)) eqn:Hex; [|discriminate].
    apply existsb_exists in Hex as (v & Hv & Heq).
    exists v. split; [exact Hv | now apply String.eqb_eq].
  - destruct (candidates registry ac) as [|c cs] eqn:Hc; [discriminate|].
    destruct (canAny (c :: cs) ac (spec r) ctx) eqn:Hany; [|discriminate].
    unfold canAny in Hany. apply existsb_exists in Hany as (v & Hv & Hacc).
    exists v. split; [exact Hv|]. unfold accepts in Hacc.
    destruct (canValidate v ac (spec r) ctx) as [[|]|]; congruence.
Qed.

Lemma returned_must_covered_witness :
  optRequireMustCoverage None = true
  /\ specIntegrityPass linkedSpec sampleCtx sampleRegistry None = Returned linkedResult
  /\ covered sampleRegistry (spec linkedResult) sampleCtx qaCriterion.
Proof.
  assert (H : specIntegrityPass linkedSpec sampleCtx sampleRegistry None
              = Returned linkedResult) by (vm_compute; reflexivity).
  split; [reflexivity|]. split; [exact H|].
  apply (returned_must_covered linkedSpec sampleCtx sampleRegistry None linkedResult
           eq_refl H qaCriterion); [vm_compute; auto | reflexivity].
Defined.

Lemma checkArtifacts_deps (arts : list ArtifactSpec) :
  forall i set,
    Forall2 (fun a a' => orEmpty (dependsOn a') = orEmpty (dependsOn a))
            arts (fst (fst (checkArtifacts i arts set))).
Proof.
  induction arts as [|a rest IH]; intros i set; simpl; [constructor|].
  destruct (negb (truthy (artifactId a))).
  - specialize (IH (S i) set).
    destruct (checkArtifacts (S i) rest set) as [[r s] l]. simpl in *.
    constructor; [reflexivity | exact IH].
  - specialize (IH (S i) (add set (artifactId a))).
    destruct (checkArtifacts (S i) rest (add set (artifactId a))) as [[r s] l].
    simpl in *. constructor; [|exact IH].
    destruct (dependsOn a) eqn:Hd; simpl; [now rewrite Hd | reflexivity].
Qed.

Lemma sameButDeps_and_deps (arts arts' : list ArtifactSpec) :
  Forall2 sameButDeps arts arts' ->
  Forall2 (fun a a' => orEmpty (dependsOn a') = orEmpty (dependsOn a)) arts arts' ->
  Forall2 (fun a a' => sameButDeps a a'
                       /\ orEmpty (dependsOn a') = orEmpty (dependsOn a))
          arts arts'.
Proof.
  induction 1 as [|a a' l l' Ha _ IH]; intros Hd; [constructor|].
  inversion Hd; subst. constructor; auto.
Qed.

(** X6. The pass only completes a contract.  The returned contract keeps
    the version tag, the packaging steps, the provenance policy and the
    resource constraints of the input; its artifacts are the input's with
    at most an absent [dependsOn] replaced by the empty list, the entries
    of a [dependsOn] that is present being kept; [relationships] and
    [gates] are the input's arrays, or empty arrays; the rubrics and the criteria of the
    input come first, unchanged and in order, followed only by defaults
    whose identifiers the input does not use, and by nothing at all when
    the injection is off. *)
Theorem returned_contract_extends_input
        (inputSpec : VCCSpec) (ctx : RunContext) (registry : AdapterRegistry)
        (opts : option Opts) (r : IntegrityResult) :
  specIntegrityPass inputSpec ctx registry opts = Returned r ->
  vccVersion (spec r) = vccVersion inputSpec
  /\ Forall2 (fun a a' => sameButDeps a a'
                           /\ orEmpty (dependsOn a') = orEmpty (dependsOn a))
             (artifacts inputSpec) (artifacts (spec r))
  /\ relationships (spec r) = Some (orEmpty (relationships inputSpec))
  /\ gates (spec r) = Some (orEmpty (gates inputSpec))
  /\ packaging (spec r) = packaging inputSpec
  /\ provenancePolicy (spec r) = provenancePolicy inputSpec
  /\ resourceConstraints (spec r) = resourceConstraints inputSpec
  /\ (exists addedR,
         rubrics (spec r) = Some (orEmpty (rubrics inputSpec) ++ addedR)
         /\ (optInject opts = false -> addedR = [])
         /\ Forall (fun rb => (rb = rubricOverall \/ rb = rubricClarity)
                              /\ ~ In (rubricId rb)
                                      (map rubricId (orEmpty (rubrics inputSpec))))
                   addedR)
  /\ (exists added,
         acceptance (spec r) = acceptance inputSpec ++ added
         /\ (optInject opts = false -> added = [])
         /\ Forall (fun ac => In (acId ac) defaultAcIds
                              /\ ~ In (acId ac) (map acId (acceptance inputSpec)))
                   added).
Proof.
  intros Hret.
  destruct (returned_inv _ _ _ _ _ Hret) as (Hne & Hinj).
  destruct (injected_fields _ _ _ Hinj)
    as (Hv & Harts & Hrel & Hg & Hpk & Hpol & Hrc
        & (addedR & HR & HRoff & HRdef & HRfresh)
        & (added & Hacc & Hoff & Hdef & _ & Hfresh)).
  split; [exact Hv|].
  split.
  { rewrite Harts. unfold structuralSpec.
    change (artifacts (normalizeArrays inputSpec)) with (artifacts inputSpec).
    apply sameButDeps_and_deps;
      [apply checkArtifacts_shape | apply checkArtifacts_deps]. }
  repeat (split; [assumption|]).
  split.
  - exists addedR. split; [exact HR|]. split; [exact HRoff|].
    rewrite Forall_forall in *. intros rb Hrb. split; auto.
  - exists added. split; [exact Hacc|]. split; [exact Hoff|].
    rewrite Forall_forall in *. intros ac Hac. split; [|auto].
    destruct (Hdef ac Hac) as [(t & _ & ->)|[(t & _ & ->)|[->| ->]]];
      simpl; auto 6.
Qed.

Lemma returned_contract_extends_input_witness :
  specIntegrityPass linkedSpec sampleCtx sampleRegistry None = Returned linkedResult
  /\ exists added,
      acceptance (spec linkedResult) = acceptance linkedSpec ++ added
      /\ Forall (fun ac => In (acId ac) defaultAcIds
                           /\ ~ In (acId ac) (map acId (acceptance linkedSpec)))
                added.
Proof.
  assert (H : specIntegrityPass linkedSpec sampleCtx sampleRegistry None
              = Returned linkedResult) by (vm_compute; reflexivity).
  split; [exact H|].
  destruct (returned_contract_extends_input linkedSpec sampleCtx sampleRegistry None
              linkedResult H)
    as (_ & _ & _ & _ & _ & _ & _ & _ & (added & Hacc & _ & Hall)).
  exists added. split; [exact Hacc | exact Hall].
Defined.

(** X7. The MUST coverage check can only reject: when the pass returns a
    result with the check on or off, a call that differs only by having
    the check off returns the very same result, issues included. *)
Theorem coverage_off_same_result
        (inputSpec : VCCSpec) (ctx : RunContext) (registry : AdapterRegistry)
        (opts opts' : option Opts) (r : IntegrityResult) :
  optInject opts' = optInject opts ->
  optPattern opts' = optPattern opts ->
  optRequireMustCoverage opts' = false ->
  specIntegrityPass inputSpec ctx registry opts = Returned r ->
  specIntegrityPass inputSpec ctx registry opts' = Returned r.
Proof.
  intros Hi Hp Hoff Hret.
  destruct (returned_clean _ _ _ _ _ Hret) as (Hclean & _ & Hiss & Hids & Hmust).
  destruct (returned_inv _ _ _ _ _ Hret) as (Hne & Hinj).
  assert (Hinj' : injected inputSpec opts' = Some (spec r)).
  { unfold injected in *. now rewrite Hi, Hp. }
  unfold specIntegrityPass, deepClone.
  change (artifacts (normalizeArrays inputSpec)) with (artifacts inputSpec).
  destruct (artifacts inputSpec) as [|a rest] eqn:Ha; [congruence|].
  rewrite Hinj', Hoff, app_nil_r.
  replace (0 <? length (filter isError (structuralIssues inputSpec ctx)))%nat
    with false.
  - f_equal. destruct r as [s i n]. destruct n as [ai ma]. simpl in *.
    now subst.
  - symmetry. apply filter_isError_Forall. exact Hclean.
Qed.

Lemma coverage_off_same_result_witness :
  specIntegrityPass linkedSpec sampleCtx sampleRegistry None = Returned linkedResult
  /\ specIntegrityPass linkedSpec sampleCtx sampleRegistry noCoverage
     = Returned linkedResult.
Proof.
  assert (H : specIntegrityPass linkedSpec sampleCtx sampleRegistry None
              = Returned linkedResult) by (vm_compute; reflexivity).
  split; [exact H|].
  exact (coverage_off_same_result linkedSpec sampleCtx sampleRegistry None noCoverage
           linkedResult eq_refl eq_refl eq_refl H).
Defined.

(** * The issues the pass can push *)

Section IssueCodes.

Ltac single :=
  first [apply Forall_nil | apply Forall_cons; [|apply Forall_nil]].

Ltac in_codes := simpl; repeat (first [left; reflexivity | right]).

Ltac error_issue := left; split; [reflexivity | in_codes].
Ltac warning_issue := right; split; [reflexivity | in_codes].

Lemma forIndexed_Forall {A} (P : IntegrityIssue -> Prop)
      (body : nat -> A -> list IntegrityIssue) (xs : list A) :
  (forall k x, In x xs -> Forall P (body k x)) ->
  forall i, Forall P (forIndexed body i xs).
Proof.
  induction xs as [|y xs IH]; intros Hb i; simpl; [constructor|].
  apply Forall_app. split; [apply Hb; now left|].
  apply IH. intros k x Hx. apply Hb. now right.
Qed.

Lemma checkRefs_Forall (P : IntegrityIssue -> Prop)
      (mk : nat -> string -> IntegrityIssue) (set : StrSet) (ids : list string) :
  (forall j x, P (mk j x)) -> forall j, Forall P (checkRefs mk set j ids).
Proof.
  intros Hmk. induction ids as [|x ids IH]; intros j; simpl; [constructor|].
  apply Forall_app. split; [|apply IH].
  destruct (has set x); single. apply Hmk.
Qed.

Lemma checkArtifacts_classified (arts : list ArtifactSpec) :
  forall i set, Forall classified (snd (checkArtifacts i arts set)).
Proof.
  induction arts as [|a rest IH]; intros i set; simpl; [constructor|].
  destruct (negb (truthy (artifactId a))).
  - specialize (IH (S i) set).
    destruct (checkArtifacts (S i) rest set) as [[r s] l]. simpl in *.
    constructor; [error_issue | exact IH].
  - specialize (IH (S i) (add set (artifactId a))).
    destruct (checkArtifacts (S i) rest (add set (artifactId a))) as [[r s] l].
    simpl in *.
    repeat (apply Forall_app; split); [| | |exact IH].
    + destruct (has set (artifactId a)); single. error_issue.
    + destruct (formats a); single. error_issue.
    + destruct (owners a); single. warning_issue.
Qed.

Lemma checkAcceptance_classified (set : StrSet) (acs : list AcceptanceCriterionSpec) :
  forall i acIdSet, Forall classified (checkAcceptance set i acs acIdSet).
Proof.
  induction acs as [|ac rest IH]; intros i acIdSet; simpl; [constructor|].
  repeat (apply Forall_app; split); [| |apply IH].
  - destruct (has acIdSet (acId ac)); single. error_issue.
  - apply checkRefs_Forall. intros j x. error_issue.
Qed.

Lemma structuralIssues_classified (s : VCCSpec) (ctx : RunContext) :
  Forall classified (structuralIssues s ctx).
Proof.
  unfold structuralIssues.
  pose proof (checkArtifacts_classified (artifacts (normalizeArrays s)) 0 []) as HA.
  destruct (checkArtifacts 0 (artifacts (normalizeArrays s)) []) as [[arts set] issA].
  simpl in HA.
  repeat (apply Forall_app; split).
  - unfold versionCheck. destruct (negb _); single. error_issue.
  - exact HA.
  - apply forIndexed_Forall. intros k a _. apply checkRefs_Forall.
    intros j x. error_issue.
  - apply forIndexed_Forall. intros k p _. apply checkRefs_Forall.
    intros j x. error_issue.
  - apply checkAcceptance_classified.
  - apply forIndexed_Forall. intros k ac _.
    destruct (rubricRef (rule ac)) as [ref|]; [|constructor].
    destruct (truthy ref && negb _); single. error_issue.
  - apply forIndexed_Forall. intros k g _. apply forIndexed_Forall. intros j ra _.
    destruct (approvalRubricId ra) as [ref|]; [|constructor].
    destruct (truthy ref && negb _); single. error_issue.
  - apply forIndexed_Forall. intros k a _. apply forIndexed_Forall. intros j o _.
    destruct (_ && _); single. warning_issue.
Qed.

Lemma mustCoverage_classified (registry : AdapterRegistry) (s : VCCSpec)
      (ctx : RunContext) :
  Forall classified (mustCoverage registry s ctx).
Proof.
  unfold mustCoverage. apply Forall_flat_map, Forall_forall. intros ac _.
  unfold mustCoverageFor.
  destruct (explicitAdapterOf ac).
  - destruct (negb _); single. error_issue.
  - destruct (candidates registry ac); [single; error_issue|].
    destruct (negb _); single. error_issue.
Qed.

(** X8. Every issue the pass pushes carries one of sixteen codes, and the
    code fixes the severity: [ARTIFACT_OWNERS_EMPTY] and [ROLE_NOT_IN_TEAM]
    are warnings, the fourteen other codes are errors.  Hence the issues of
    a returned result carry one of the two warning codes. *)
Theorem issue_codes_classified
        (inputSpec : VCCSpec) (ctx : RunContext) (registry : AdapterRegistry)
        (opts : option Opts) :
  Forall classified (issuesFound inputSpec ctx registry opts)
  /\ (forall i, In i (issuesFound inputSpec ctx registry opts) ->
                (issueSeverity i = warning <-> In (code i) warningCodes)
                /\ (issueSeverity i = error <-> In (code i) errorCodes))
  /\ (forall r, specIntegrityPass inputSpec ctx registry opts = Returned r ->
                Forall (fun i => In (code i) warningCodes) (issues r)).
Proof.
  assert (Hall : Forall classified (issuesFound inputSpec ctx registry opts)).
  { unfold issuesFound. destruct (artifacts inputSpec).
    - single. error_issue.
    - apply Forall_app. split; [apply structuralIssues_classified|].
      destruct (injected inputSpec opts); [|constructor].
      destruct (optRequireMustCoverage opts); [|constructor].
      apply mustCoverage_classified. }
  split; [exact Hall|]. split.
  - intros i Hi. rewrite Forall_forall in Hall.
    destruct (Hall i Hi) as [(Hs & Hc)|(Hs & Hc)]; rewrite Hs; split; split;
      try discriminate; try (intros _; assumption); try reflexivity; intros Hin;
      exfalso; revert Hc Hin; generalize (code i); intros c; simpl;
      intuition (subst; discriminate).
  - intros r Hret.
    destruct (returned_clean _ _ _ _ _ Hret) as (Hclean & _ & Hiss & _).
    rewrite Hiss. pose proof (structuralIssues_classified inputSpec ctx) as Hcl.
    rewrite Forall_forall in *. intros i Hi.
    destruct (Hcl i Hi) as [(Hs & _)|(_ & Hc)]; [|exact Hc].
    specialize (Hclean i Hi). unfold isWarning in Hclean. congruence.
Qed.

End IssueCodes.

(** * What makes the pass raise *)

Section Raising.

Lemma structural_issue_raises (inputSpec : VCCSpec) (ctx : RunContext)
      (registry : AdapterRegistry) (opts : option Opts)
      (i : IntegrityIssue) (c : string) :
  artifacts inputSpec <> [] ->
  In i (structuralIssues inputSpec ctx) ->
  issueSeverity i = error -> code i = c ->
  raisesWithCode inputSpec ctx registry opts c i.
Proof.
  intros Hne Hi Hsev Hcode.
  destruct (injected_some inputSpec opts Hne) as (s1 & Hs1).
  unfold raisesWithCode, specIntegrityPass, deepClone.
  destruct (artifacts inputSpec) as [|a rest]; [congruence|].
  rewrite Hs1.
  set (iss := structuralIssues inputSpec ctx ++ _).
  assert (Hiss : In i iss) by (apply in_or_app; now left).
  assert (Herr : (0 <? length (filter isError iss))%nat = true).
  { apply filter_isError_Exists. apply Exists_exists. eauto. }
  rewrite Herr. eauto 6.
Qed.

Lemma forIndexed_In {A} (body : nat -> A -> list IntegrityIssue) (xs : list A) (x : A) :
  In x xs -> forall i, exists k, incl (body k x) (forIndexed body i xs).
Proof.
  induction xs as [|y xs IH]; [intros []|]. intros [<-|Hx] i; simpl.
  - exists i. intros z Hz. apply in_or_app. now left.
  - destruct (IH Hx (S i)) as (k & Hk). exists k.
    intros z Hz. apply in_or_app. right. now apply Hk.
Qed.

Lemma In_structural_rubricRefs (s : VCCSpec) (ctx : RunContext) (i : IntegrityIssue) :
  In i (checkRubricRefs (newSet (map rubricId (orEmpty (rubrics s)))) (acceptance s)) ->
  In i (structuralIssues s ctx).
Proof.
  intros Hi. unfold structuralIssues.
  destruct (checkArtifacts 0 (artifacts (normalizeArrays s)) []) as [[arts set] issA].
  do 5 (apply in_or_app; right). apply in_or_app. left. exact Hi.
Qed.

Lemma injectDefaultAcceptance_prov (s s1 : VCCSpec) (p : option string) :
  injectDefaultAcceptance s p = Some s1 ->
  ~ In "AC-UNIV-PROV-1" (map acId (acceptance s)) ->
  In (acUnivProv (flat_map inputs (packaging s)) (policyRequire (provenancePolicy s)))
     (acceptance s1).
Proof.
  unfold injectDefaultAcceptance. intros H Hfresh.
  destruct (if negb (has _ "AC-UNIV-STRUCT-1") then _ else _) as [acc1|]; [|discriminate].
  destruct (if negb (has _ "AC-UNIV-TRACE-1") then _ else _) as [acc2|]; [|discriminate].
  destruct (has (newSet (map acId (acceptance s))) "AC-UNIV-PROV-1") eqn:Hh.
  { apply has_newSet_In in Hh. contradiction. }
  injection H as <-. simpl. apply in_or_app. right. now left.
Qed.

End Raising.

(** X9. With the default registry, the defaults injected and the MUST
    coverage check on, a run context without [provenanceSignals] makes the
    pass raise [UNVERIFIABLE_MUST] for the injected criterion
    [AC-UNIV-PROV-1], whatever the contract, unless the contract defines a
    criterion of that identifier itself. *)
Theorem default_provenance_needs_signals
        (rt : Runtime) (inputSpec : VCCSpec) (ctx : RunContext) (opts : option Opts) :
  artifacts inputSpec <> [] ->
  optInject opts = true ->
  optRequireMustCoverage opts = true ->
  provenanceSignals ctx = None ->
  ~ In "AC-UNIV-PROV-1" (map acId (acceptance inputSpec)) ->
  exists i,
    raisesWithCode inputSpec ctx (buildDefaultRegistry rt) opts "UNVERIFIABLE_MUST" i
    /\ message i
       = "MUST criterion AC-UNIV-PROV-1 appears unverifiable by registered validators (type='provenance').".
Proof.
  intros Hne Hinj Hreq Hsig Hfresh.
  destruct (injected_some inputSpec opts Hne) as (s1 & Hs1).
  pose proof Hs1 as Hs1'. unfold injected in Hs1'. rewrite Hinj in Hs1'.
  apply injectDefaultAcceptance_prov in Hs1'; [|exact Hfresh].
  set (ac := acUnivProv _ _) in Hs1'.
  exists (unverifiableMust s1 ac). split; [|reflexivity].
  apply (coverage_issue_raises inputSpec ctx (buildDefaultRegistry rt) opts s1
           Hne Hreq Hs1 ac); try reflexivity; [exact Hs1'|].
  unfold mustCoverageFor, canAny, accepts. subst ac. cbn.
  rewrite Hsig. now left.
Qed.

Lemma default_provenance_needs_signals_witness :
  exists i,
    raisesWithCode sampleSpec
      {| aiJudge := None; team := []; ctxArtifacts := sampleStore;
         provenanceSignals := None |}
      (buildDefaultRegistry literalRuntime) None "UNVERIFIABLE_MUST" i
    /\ message i
       = "MUST criterion AC-UNIV-PROV-1 appears unverifiable by registered validators (type='provenance').".
Proof.
  apply (default_provenance_needs_signals literalRuntime sampleSpec
           {| aiJudge := None; team := []; ctxArtifacts := sampleStore;
              provenanceSignals := None |} None);
    try reflexivity; [discriminate|].
  simpl. intros [H|[]]. discriminate H.
Defined.

(** X10. What the default registry can score.  A criterion that names no
    adapter is covered by the default registry exactly when its type and
    rule are as follows: [structure] with a non-empty [requiredSections];
    [traceability] with a [minCitationCoverage] or a [citationPattern];
    [consistency] always; [provenance] with a [require] array and
    [provenanceSignals] in the context; [rubric] with a [rubricRef] that
    names a rubric of the contract.  The types [schema], [constraint],
    [execution], [security] and [custom] have no validator at all. *)
Theorem default_registry_coverage
        (rt : Runtime) (s : VCCSpec) (ctx : RunContext) (ac : AcceptanceCriterionSpec) :
  explicitAdapterOf ac = None ->
  (covered (buildDefaultRegistry rt) s ctx ac <->
   match type ac with
   | structure => exists x xs, requiredSections (rule ac) = Some (x :: xs)
   | traceability =>
     minCitationCoverage (rule ac) <> None \/ citationPattern (rule ac) <> None
   | consistency => True
   | provenance => require (rule ac) <> None /\ provenanceSignals ctx <> None
   | rubric =>
     exists ref, rubricRef (rule ac) = Some ref /\ ref <> "" /\ rubricDeclared s ref
   | schema | constraint | execution | security | custom => False
   end)
  /\ (candidates (buildDefaultRegistry rt) ac = []
      <-> In (type ac) [schema; constraint; execution; security; custom]).
Proof.
  intros Hex. unfold covered, candidates. rewrite Hex.
  destruct (type ac) eqn:Hty; cbn [buildDefaultRegistry validators filter existsb
    supportedTypes CriterionType_eqb orb StructureRequiredSectionsValidator
    TraceabilityCitationCoverageValidator ConsistencySimpleCrossCheckValidator
    ProvenanceRequiredFieldsValidator RubricAiJudgeValidator];
    (split;
     [ split;
       [ intros (v & Hv & Hcan); simpl in Hv
       | intros Hrhs ]
     | split; [intros H; try discriminate H; simpl; tauto
              | intros H; simpl in H; try reflexivity;
                exfalso; intuition discriminate ] ]);
    try contradiction.
  - (* structure *)
    destruct Hv as [<-|[]]. cbn in Hcan. unfold structure_canValidate in Hcan.
    destruct (requiredSections (rule ac)) as [[|x xs]|]; try discriminate. eauto.
  - destruct Hrhs as (x & xs & Hrs). eexists. split; [now left|].
    cbn. unfold structure_canValidate. now rewrite Hrs.
  - (* traceability *)
    destruct Hv as [<-|[]]. cbn in Hcan. unfold traceability_canValidate in Hcan.
    destruct (minCitationCoverage (rule ac)); [left; discriminate|].
    destruct (citationPattern (rule ac)); [right; discriminate | discriminate].
  - eexists. split; [now left|]. cbn. unfold traceability_canValidate.
    destruct (minCitationCoverage (rule ac)); [reflexivity|].
    destruct (citationPattern (rule ac)); [reflexivity|]. destruct Hrhs; congruence.
  - (* consistency *)
    exact I.
  - eexists. split; [now left|]. reflexivity.
  - (* rubric *)
    destruct Hv as [<-|[]]. cbn in Hcan. unfold rubric_canValidate in Hcan.
    destruct (rubricRef (rule ac)) as [ref|]; [|discriminate].
    destruct (truthy ref) eqn:Htr; [|discriminate]. simpl in Hcan.
    injection Hcan as Hcan. apply existsb_exists in Hcan as (rb & Hin & Heq).
    exists ref. split; [reflexivity|]. split; [now apply truthy_nonempty|].
    exists rb. split; [exact Hin | now apply String.eqb_eq].
  - destruct Hrhs as (ref & Href & Hne & rb & Hin & Hid).
    eexists. split; [now left|]. cbn. unfold rubric_canValidate.
    rewrite Href, (nonempty_truthy _ Hne). simpl. f_equal.
    apply existsb_exists. exists rb. split; [exact Hin | now apply String.eqb_eq].
  - (* provenance *)
    destruct Hv as [<-|[]]. cbn in Hcan. unfold provenance_canValidate in Hcan.
    destruct (require (rule ac)); [|discriminate].
    destruct (provenanceSignals ctx); [split; discriminate | discriminate].
  - destruct Hrhs as (Hr & Hs). eexists. split; [now left|].
    cbn. unfold provenance_canValidate.
    destruct (require (rule ac)); [|congruence].
    destruct (provenanceSignals ctx); [reflexivity | congruence].
Qed.

Lemma default_registry_coverage_witness :
  explicitAdapterOf qaCriterion = None
  /\ (covered (buildDefaultRegistry literalRuntime) linkedSpec sampleCtx qaCriterion
      <-> exists ref, rubricRef (rule qaCriterion) = Some ref /\ ref <> ""
                      /\ rubricDeclared linkedSpec ref).
Proof.
  split; [reflexivity|].
  exact (proj1 (default_registry_coverage literalRuntime linkedSpec sampleCtx
                  qaCriterion eq_refl)).
Defined.

(** X11. Rubric references are resolved against the rubrics the contract
    declares itself, before the defaults are injected: a criterion whose
    rule names a rubric the input does not declare makes the pass raise
    [RUBRIC_REF_MISSING], also when the name is that of a default rubric
    the injection would add. *)
Theorem rubric_ref_checked_before_injection
        (inputSpec : VCCSpec) (ctx : RunContext) (registry : AdapterRegistry)
        (opts : option Opts) (ac : AcceptanceCriterionSpec) (ref : string) :
  artifacts inputSpec <> [] ->
  In ac (acceptance inputSpec) ->
  rubricRef (rule ac) = Some ref -> ref <> "" ->
  ~ In ref (map rubricId (orEmpty (rubrics inputSpec))) ->
  exists i,
    raisesWithCode inputSpec ctx registry opts "RUBRIC_REF_MISSING" i
    /\ message i
       = "Acceptance " +++ acId ac +++ " references missing rubricId: " +++ ref.
Proof.
  intros Hne Hac Href Hnon Hmiss.
  destruct (forIndexed_In
              (fun i ac =>
                 match rubricRef (rule ac) with
                 | Some r =>
                   if truthy r && negb (has (newSet (map rubricId (orEmpty (rubrics inputSpec)))) r)
                   then [mkIssue error "RUBRIC_REF_MISSING"
                           ("Acceptance " +++ acId ac +++ " references missing rubricId: " +++ r)
                           ("/acceptance/" +++ showNat i +++ "/rule/rubricRef")]
                   else []
                 | None => []
                 end) (acceptance inputSpec) ac Hac 0) as (k & Hk).
  cbv beta in Hk. rewrite Href, (nonempty_truthy _ Hnon) in Hk.
  destruct (has (newSet (map rubricId (orEmpty (rubrics inputSpec)))) ref) eqn:Hh.
  { apply has_newSet_In in Hh. contradiction. }
  cbn [andb negb] in Hk.
  match type of Hk with incl [?x] _ => exists x end. split.
  - apply structural_issue_raises; [exact Hne| |reflexivity|reflexivity].
    apply In_structural_rubricRefs. apply Hk. now left.
  - reflexivity.
Qed.

Lemma rubric_ref_checked_before_injection_witness :
  exists i,
    raisesWithCode (setAcceptance sampleSpec [rubricCriterion]) sampleCtx sampleRegistry
                   None "RUBRIC_REF_MISSING" i
    /\ message i
       = "Acceptance AC-RUBRIC-1 references missing rubricId: RUBRIC-OVERALL-v1".
Proof.
  apply (rubric_ref_checked_before_injection
           (setAcceptance sampleSpec [rubricCriterion]) sampleCtx sampleRegistry None
           rubricCriterion "RUBRIC-OVERALL-v1");
    [discriminate | now left | reflexivity | discriminate | simpl; tauto].
Defined.

(** * When the pass returns *)

Ltac one_issue :=
  first [apply Forall_nil | apply Forall_cons; [|apply Forall_nil]].

Section Returns.

Lemma checkRefs_nil (mk : nat -> string -> IntegrityIssue) (set : StrSet)
      (ids : list string) :
  (forall x, In x ids -> In x set) -> forall j, checkRefs mk set j ids = [].
Proof.
  induction ids as [|x ids IH]; intros Hin j; simpl; [reflexivity|].
  rewrite (proj2 (has_In set x)) by (apply Hin; now left). simpl.
  apply IH. intros y Hy. apply Hin. now right.
Qed.

Lemma checkArtifacts_warnings (arts : list ArtifactSpec) :
  forall i set,
    Forall (fun a => artifactId a <> "" /\ formats a <> []) arts ->
    NoDup (map artifactId arts) ->
    (forall a, In a arts -> ~ In (artifactId a) set) ->
    Forall isWarning (snd (checkArtifacts i arts set)).
Proof.
  induction arts as [|a rest IH]; intros i set Hwf Hnd Hfresh; [constructor|].
  cbn [checkArtifacts].
  inversion Hwf as [|? ? (Hid & Hf) Hrest]; subst.
  inversion Hnd as [|? ? Hnotin Hnd']; subst.
  rewrite (nonempty_truthy _ Hid). cbn [negb].
  assert (Hh : has set (artifactId a) = false).
  { apply has_false_notIn. apply Hfresh. now left. }
  pose proof (IH (S i) (add set (artifactId a)) Hrest Hnd') as IH'.
  rewrite (add_fresh _ _ Hh) in IH'. rewrite Hh, (add_fresh _ _ Hh).
  destruct (checkArtifacts (S i) rest _) as [[r s] l].
  cbn [fst snd app] in *.
  destruct (formats a) as [|f fs]; [congruence|]. simpl.
  assert (Hl : Forall isWarning l).
  { apply IH'. intros b Hb Hin. apply in_app_or in Hin as [Hin|[Heq|[]]].
    - apply (Hfresh b); [now right | exact Hin].
    - apply Hnotin. rewrite Heq. now apply in_map. }
  destruct (owners a); [constructor; [reflexivity | exact Hl] | exact Hl].
Qed.

Lemma Forall2_In_l {A B} (R : A -> B -> Prop) (xs : list A) (ys : list B) :
  Forall2 R xs ys -> forall x, In x xs -> exists y, In y ys /\ R x y.
Proof.
  induction 1 as [|x y xs ys Hxy _ IH]; [intros ? []|].
  intros z [<-|Hz]; [exists y; split; [now left | exact Hxy]|].
  destruct (IH z Hz) as (y' & Hy' & Hr). exists y'. split; [now right | exact Hr].
Qed.

Lemma Forall2_In_r {A B} (R : A -> B -> Prop) (xs : list A) (ys : list B) :
  Forall2 R xs ys -> forall y, In y ys -> exists x, In x xs /\ R x y.
Proof.
  induction 1 as [|x y xs ys Hxy _ IH]; [intros ? []|].
  intros z [<-|Hz]; [exists x; split; [now left | exact Hxy]|].
  destruct (IH z Hz) as (x' & Hx' & Hr). exists x'. split; [now right | exact Hr].
Qed.

Lemma checkAcceptance_nil (set : StrSet) (acs : list AcceptanceCriterionSpec) :
  forall i acIdSet,
    (forall ac t, In ac acs -> In t (targetArtifacts ac) -> In t set) ->
    NoDup (map acId acs) ->
    (forall ac, In ac acs -> ~ In (acId ac) acIdSet) ->
    checkAcceptance set i acs acIdSet = [].
Proof.
  induction acs as [|ac rest IH]; intros i acIdSet Ht Hnd Hfresh; simpl; [reflexivity|].
  inversion Hnd as [|? ? Hnotin Hnd']; subst.
  assert (Hh : has acIdSet (acId ac) = false).
  { apply has_false_notIn. apply Hfresh. now left. }
  rewrite Hh, (add_fresh _ _ Hh). simpl.
  rewrite checkRefs_nil by (intros t Hin; apply (Ht ac t); [now left | exact Hin]).
  simpl. apply IH; [intros b t Hb; apply Ht; now right | exact Hnd'|].
  intros b Hb Hin. apply in_app_or in Hin as [Hin|[Heq|[]]].
  - apply (Hfresh b); [now right | exact Hin].
  - apply Hnotin. rewrite Heq. now apply in_map.
Qed.

Lemma rubricDeclared_In (s : VCCSpec) (ref : string) :
  rubricDeclared s ref <-> In ref (map rubricId (orEmpty (rubrics s))).
Proof.
  unfold rubricDeclared. rewrite in_map_iff. split; intros (rb & H1 & H2); eauto.
Qed.

Lemma structuralIssues_warnings (s : VCCSpec) (ctx : RunContext) :
  wellFormed s -> Forall isWarning (structuralIssues s ctx).
Proof.
  intros (Hv & Hwf & Hnd & Hdep & Hpk & Htg & Hac & Hrub & Hgate).
  unfold declared in *.
  assert (HA : Forall isWarning (snd (checkArtifacts 0 (artifacts s) []))).
  { apply checkArtifacts_warnings; auto. }
  pose proof (checkArtifacts_clean _ _ _ HA) as (_ & Hset & _).
  pose proof (checkArtifacts_deps (artifacts s) 0 []) as Hd.
  unfold structuralIssues.
  change (artifacts (normalizeArrays s)) with (artifacts s).
  destruct (checkArtifacts 0 (artifacts s) []) as [[arts set] issA].
  cbn [fst snd] in *. simpl in Hset. subst set.
  change (artifacts (setArtifacts (normalizeArrays s) arts)) with arts.
  change (packaging (setArtifacts (normalizeArrays s) arts)) with (packaging s).
  change (acceptance (setArtifacts (normalizeArrays s) arts)) with (acceptance s).
  change (orEmpty (rubrics (setArtifacts (normalizeArrays s) arts)))
    with (orEmpty (rubrics s)).
  change (orEmpty (gates (setArtifacts (normalizeArrays s) arts)))
    with (orEmpty (gates s)).
  repeat (apply Forall_app; split).
  - unfold versionCheck. rewrite Hv. constructor.
  - exact HA.
  - apply forIndexed_Forall. intros k a' Ha'.
    destruct (Forall2_In_r _ _ _ Hd a' Ha') as (a & Ha & Heq).
    rewrite checkRefs_nil; [constructor|]. rewrite Heq. intros x. now apply Hdep.
  - apply forIndexed_Forall. intros k p Hp.
    rewrite checkRefs_nil; [constructor|]. intros x. now apply Hpk.
  - rewrite checkAcceptance_nil; [constructor | exact Htg | exact Hac | intros ? ? []].
  - apply forIndexed_Forall. intros k ac Hin.
    destruct (rubricRef (rule ac)) as [ref|] eqn:Href; [|constructor].
    destruct (truthy ref) eqn:Htr; [|constructor]. simpl.
    rewrite (proj2 (has_newSet_In _ ref)); [constructor|].
    apply rubricDeclared_In. eapply Hrub; eauto using truthy_nonempty.
  - apply forIndexed_Forall. intros k g Hg. apply forIndexed_Forall. intros j ra Hra.
    destruct (approvalRubricId ra) as [ref|] eqn:Href; [|constructor].
    destruct (truthy ref) eqn:Htr; [|constructor]. simpl.
    rewrite (proj2 (has_newSet_In _ ref)); [constructor|].
    apply rubricDeclared_In. eapply Hgate; eauto using truthy_nonempty.
  - apply forIndexed_Forall. intros k a _. apply forIndexed_Forall. intros j o _.
    destruct (_ && _); one_issue. reflexivity.
Qed.

Lemma structuralIssues_wellFormed (s : VCCSpec) (ctx : RunContext) :
  Forall isWarning (structuralIssues s ctx) -> wellFormed s.
Proof.
  intros Hclean.
  destruct (structuralIssues_clean _ _ Hclean)
    as (Hv & Hwf & Hnd & _ & _ & Hdep & Hpk & Htg & Hac & Hrub & Hgate).
  unfold wellFormed, declared.
  split; [exact Hv|]. split.
  { eapply Forall_impl; [|exact Hwf]. intros a (H1 & H2).
    split; [now apply truthy_nonempty | exact H2]. }
  split; [exact Hnd|]. split.
  { intros a dep Ha Hd.
    pose proof (checkArtifacts_deps (artifacts s) 0 []) as HD.
    destruct (Forall2_In_l _ _ _ HD a Ha) as (a' & Ha' & Heq).
    apply (Hdep a'); [exact Ha' | now rewrite Heq]. }
  split; [exact Hpk|]. split; [exact Htg|]. split; [exact Hac|].
  split.
  - intros ac ref Hin Href Hne. apply rubricDeclared_In.
    eapply Hrub; eauto using nonempty_truthy.
  - intros g ra ref Hg Hra Href Hne. apply rubricDeclared_In.
    eapply Hgate; eauto using nonempty_truthy.
Qed.

Lemma isMust_must (ac : AcceptanceCriterionSpec) : isMust ac = true <-> severity ac = must.
Proof. unfold isMust. destruct (severity ac); simpl; split; congruence. Qed.

Lemma mustCoverageFor_nil (registry : AdapterRegistry) (s : VCCSpec) (ctx : RunContext)
      (ac : AcceptanceCriterionSpec) :
  mustCoverageFor registry s ctx ac = [] <-> covered registry s ctx ac.
Proof.
  unfold mustCoverageFor, covered. destruct (explicitAdapterOf ac) as [e|].
  - split.
    + destruct (existsb _ (validators registry)) eqn:Hex; [|discriminate]. intros _.
      apply existsb_exists in Hex as (v & Hv & Heq).
      exists v. split; [exact Hv | now apply String.eqb_eq].
    + intros H. now rewrite (registered_true _ _ H).
  - split.
    + destruct (candidates registry ac) as [|c cs] eqn:Hc; [discriminate|].
      destruct (canAny (c :: cs) ac s ctx) eqn:Hany; [|discriminate]. intros _.
      unfold canAny in Hany. apply existsb_exists in Hany as (v & Hv & Hacc).
      exists v. split; [exact Hv|]. unfold accepts in Hacc.
      destruct (canValidate v ac s ctx) as [[|]|]; congruence.
    + intros (v & Hv & Hcan).
      destruct (candidates registry ac) as [|c cs] eqn:Hc; [destruct Hv|].
      rewrite canAny_true; [reflexivity | eauto].
Qed.

Lemma mustCoverage_nil (registry : AdapterRegistry) (s : VCCSpec) (ctx : RunContext) :
  mustCoverage registry s ctx = []
  <-> forall ac, In ac (acceptance s) -> severity ac = must -> covered registry s ctx ac.
Proof.
  unfold mustCoverage. split.
  - intros H ac Hac Hsev. apply mustCoverageFor_nil.
    apply (flat_map_nil _ _ H). apply filter_In. split; [exact Hac|].
    now apply isMust_must.
  - intros H. induction (acceptance s) as [|ac l IH]; [reflexivity|]. simpl.
    destruct (isMust ac) eqn:Hm.
    + simpl. rewrite (proj2 (mustCoverageFor_nil _ _ _ ac)).
      * apply IH. intros b Hb. apply H. now right.
      * apply H; [now left | now apply isMust_must].
    + apply IH. intros b Hb. apply H. now right.
Qed.

End Returns.

(** X12. When the pass returns.  The pass returns a result exactly when
    the contract has an artifact, is well formed (supported version;
    artifact identifiers present and distinct; formats present; every
    [dependsOn] entry, packaging input and criterion target a declared
    artifact; criterion identifiers distinct; every rubric reference of a
    rule or a gate approval a rubric the contract declares) and, if the
    MUST coverage check is on, every MUST criterion of the contract with
    the defaults injected is covered by the registry.  In every other case
    it raises. *)
Theorem specIntegrityPass_returns_iff
        (inputSpec : VCCSpec) (ctx : RunContext) (registry : AdapterRegistry)
        (opts : option Opts) :
  ((exists r, specIntegrityPass inputSpec ctx registry opts = Returned r)
   <-> artifacts inputSpec <> []
       /\ wellFormed inputSpec
       /\ (optRequireMustCoverage opts = true ->
           forall s1, injected inputSpec opts = Some s1 ->
           forall ac, In ac (acceptance s1) -> severity ac = must ->
                      covered registry s1 ctx ac))
  /\ ((exists r, specIntegrityPass inputSpec ctx registry opts = Returned r)
      \/ (exists m iss, specIntegrityPass inputSpec ctx registry opts = Raised m iss)).
Proof.
  split.
  - split.
    + intros (r & Hret).
      destruct (returned_inv _ _ _ _ _ Hret) as (Hne & Hinj).
      destruct (returned_clean _ _ _ _ _ Hret) as (Hclean & Hcov & _).
      split; [exact Hne|]. split; [now apply structuralIssues_wellFormed with ctx|].
      intros Hreq s1 Hs1. rewrite Hinj in Hs1. injection Hs1 as <-.
      now apply mustCoverage_nil, Hcov.
    + intros (Hne & Hwf & Hcov).
      destruct (injected_some inputSpec opts Hne) as (s1 & Hs1).
      unfold specIntegrityPass, deepClone.
      destruct (artifacts inputSpec) as [|a rest]; [congruence|].
      rewrite Hs1.
      assert (Hcov' : (if optRequireMustCoverage opts
                       then mustCoverage registry s1 ctx else []) = []).
      { destruct (optRequireMustCoverage opts); [|reflexivity].
        apply mustCoverage_nil. now apply Hcov. }
      rewrite Hcov', app_nil_r.
      rewrite (proj2 (filter_isError_Forall _)
                     (structuralIssues_warnings _ ctx Hwf)).
      eauto.
  - unfold specIntegrityPass, deepClone.
    destruct (artifacts inputSpec) as [|a rest] eqn:Ha; [right; eauto|].
    assert (Hne : artifacts inputSpec <> []) by congruence.
    destruct (injected_some inputSpec opts Hne) as (s1 & Hs1). rewrite Hs1.
    destruct (0 <? _)%nat; [right | left]; eauto.
Qed.

(** * The universal validators *)

Section ValidatorFacts.

Variable rt : Runtime.

Lemma setKey_proto {V} (v : V) (m : list (string * V)) :
  setKey "__proto__" v m = m.
Proof. reflexivity. Qed.

Lemma replaceKey_keys {V} (k : string) (v : V) (m : list (string * V)) :
  map fst (replaceKey k v m) = map fst m.
Proof.
  induction m as [|[k' v'] m IH]; simpl; [reflexivity|].
  destruct (String.eqb k' k); simpl; congruence.
Qed.

Lemma insertIndex_Add {V} (n : N) (k : string) (v : V) (m : list (string * V)) :
  Add k (map fst m) (map fst (insertIndex n k v m)).
Proof.
  induction m as [|[k' v'] m IH]; simpl; [constructor|].
  destruct (arrayIndex k') as [n'|]; [|constructor].
  destruct (n <? n')%N; simpl; now constructor.
Qed.

Lemma hasKey_In {V} (m : list (string * V)) (k : string) :
  hasKey m k = true <-> In k (map fst m).
Proof.
  unfold hasKey. rewrite existsb_exists, in_map_iff. split.
  - intros (kv & Hin & E). apply String.eqb_eq in E. eauto.
  - intros (kv & E & Hin). exists kv. split; [exact Hin|]. now apply String.eqb_eq.
Qed.

Lemma setKey_keys {V} (k : string) (v : V) (m : list (string * V)) :
  NoDup (map fst m) ->
  NoDup (map fst (setKey k v m))
  /\ forall x, In x (map fst (setKey k v m))
               <-> (x = k /\ k <> "__proto__") \/ In x (map fst m).
Proof.
  intros Hnd. unfold setKey.
  destruct (String.eqb k "__proto__") eqn:Ep.
  - apply String.eqb_eq in Ep. split; [exact Hnd|].
    intros x. split; [auto | intros [[_ H]|H]; [contradiction | exact H]].
  - apply String.eqb_neq in Ep.
    destruct (hasKey m k) eqn:Eh.
    + apply hasKey_In in Eh. rewrite replaceKey_keys. split; [exact Hnd|].
      intros x. split; [auto | intros [[-> _]|H]; auto].
    + assert (Hnot : ~ In k (map fst m)).
      { intros H. apply hasKey_In in H. congruence. }
      destruct (arrayIndex k) as [n|].
      * pose proof (insertIndex_Add n k v m) as Hadd. split.
        -- apply (NoDup_Add Hadd). auto.
        -- intros x. rewrite (Add_in Hadd). simpl. split.
           ++ intros [<-|H]; auto.
           ++ intros [[-> _]|H]; auto.
      * rewrite map_app. simpl.
        pose proof (Add_app k (map fst m) []) as Hadd. rewrite app_nil_r in Hadd.
        split.
        -- apply (NoDup_Add Hadd). auto.
        -- intros x. rewrite (Add_in Hadd). simpl. split.
           ++ intros [<-|H]; auto.
           ++ intros [[-> _]|H]; auto.
Qed.

Lemma setKey_nil {V} (k : string) (v : V) (m : list (string * V)) :
  setKey k v m = [] <-> k = "__proto__" /\ m = [].
Proof.
  split.
  - intros H. unfold setKey in H.
    destruct (String.eqb k "__proto__") eqn:Ep.
    + apply String.eqb_eq in Ep. auto.
    + exfalso. destruct m as [|[k' v'] m]; simpl in H.
      * destruct (arrayIndex k); discriminate H.
      * destruct (String.eqb k' k || hasKey m k)%bool.
        -- destruct (String.eqb k' k); discriminate H.
        -- destruct (arrayIndex k) as [n|]; [|discriminate H].
           destruct (arrayIndex k') as [n'|]; [|discriminate H].
           destruct (n <? n')%N; discriminate H.
  - intros [-> ->]. reflexivity.
Qed.

Lemma structureMissing_none (spec_ : VCCSpec) (ctx : RunContext)
      (sections : list string) (targets : list ArtifactId) :
  forall missing,
    structureMissing rt spec_ ctx sections targets missing = None
    <-> exists a, In a targets /\ readArtifactText spec_ ctx a = None.
Proof.
  induction targets as [|a rest IH]; intros missing; simpl.
  - split; [discriminate | intros (a & [] & _)].
  - destruct (readArtifactText spec_ ctx a) as [t|] eqn:Hr.
    + rewrite IH. split; intros (b & Hb & Hn); exists b.
      * split; [now right | exact Hn].
      * destruct Hb as [<-|Hb]; [congruence | split; assumption].
    + split; [intros _; exists a; split; [now left | exact Hr] | reflexivity].
Qed.

Lemma structureMissing_some (spec_ : VCCSpec) (ctx : RunContext)
      (sections : list string) (targets : list ArtifactId) :
  forall missing result,
    structureMissing rt spec_ ctx sections targets missing = Some result ->
    (result = [] <->
     missing = []
     /\ forall a text_ s, In a targets -> a <> "__proto__" ->
                          readArtifactText spec_ ctx a = Some text_ ->
                          In s sections -> hasSection rt text_ s = true).
Proof.
  induction targets as [|a rest IH]; intros missing result; simpl.
  - intros [= <-]. split; [intros ->; split; [reflexivity | intros ? ? ? []] | tauto].
  - destruct (readArtifactText spec_ ctx a) as [t|] eqn:Hr; [|discriminate].
    intros H. apply IH in H. rewrite H. clear H.
    destruct (filter (fun s => negb (hasSection rt t s)) sections) as [|n ns] eqn:Hf.
    + split; intros (Hm & Hall); (split; [exact Hm|]).
      * intros b tb s [<-|Hb] Hnp Hrb Hs; [|eauto].
        assert (t = tb) by congruence. subst tb.
        pose proof (proj1 (filter_nil_iff _ _) Hf s Hs) as Hneg. cbv beta in Hneg.
        destruct (hasSection rt t s); [reflexivity | discriminate].
      * intros b tb s Hb. apply Hall. now right.
    + rewrite setKey_nil. split.
      * intros ((-> & Hm) & Hall). split; [exact Hm|].
        intros b tb s [<-|Hb] Hnp Hrb Hs; [now contradiction Hnp | eauto].
      * intros (Hm & Hall).
        destruct (string_dec a "__proto__") as [Ha|Ha].
        -- split; [auto|]. intros b tb s Hb. apply Hall. now right.
        -- exfalso.
           assert (Hin : In n (filter (fun s => negb (hasSection rt t s)) sections))
             by (rewrite Hf; now left).
           apply filter_In in Hin as (Hin & Hneg).
           rewrite (Hall a t n (or_introl eq_refl) Ha Hr Hin) in Hneg. discriminate.
Qed.

Lemma perArtifactCoverage_none (spec_ : VCCSpec) (ctx : RunContext)
      (patternSource : string) (targets : list ArtifactId) :
  perArtifactCoverage rt spec_ ctx patternSource targets = None
  <-> exists a, In a targets /\ readArtifactText spec_ ctx a = None.
Proof.
  induction targets as [|a rest IH]; simpl.
  - split; [discriminate | intros (a & [] & _)].
  - destruct (readArtifactText spec_ ctx a) as [t|] eqn:Hr.
    + destruct (perArtifactCoverage rt spec_ ctx patternSource rest) as [more|].
      * split; [discriminate|]. intros (b & [<-|Hb] & Hn); [congruence|].
        assert (Hbad : Some more = None) by (apply (proj2 IH); eauto).
        discriminate Hbad.
      * split; [intros _|reflexivity].
        destruct (proj1 IH eq_refl) as (b & Hb & Hn). exists b. auto.
    + split; [intros _; exists a; auto | reflexivity].
Qed.

Lemma worstCoverage_le_1 (perArtifact : list ArtifactCoverage) :
  worstCoverage perArtifact <= 1.
Proof.
  unfold worstCoverage.
  assert (H : forall l m0, fold_left (fun m x => Qmin m (coverage x)) l m0 <= m0).
  { induction l as [|x l IH]; intros m0; simpl; [apply Qle_refl|].
    eapply Qle_trans; [apply IH | apply Q.le_min_l]. }
  apply H.
Qed.

Lemma readTexts_keys (spec_ : VCCSpec) (ctx : RunContext) (targets : list ArtifactId) :
  forall texts,
    NoDup (map fst texts) ->
    NoDup (map fst (readTexts spec_ ctx targets texts))
    /\ forall x, In x (map fst (readTexts spec_ ctx targets texts))
                 <-> In x (map fst texts)
                     \/ (In x targets /\ x <> "__proto__"
                         /\ readArtifactText spec_ ctx x <> None).
Proof.
  induction targets as [|a rest IH]; intros texts Hnd; simpl.
  - split; [exact Hnd|]. intros x. split; [auto | intros [H|([] & _)]; exact H].
  - destruct (readArtifactText spec_ ctx a) as [t|] eqn:Hr.
    + destruct (setKey_keys a t texts Hnd) as (H1 & H2).
      destruct (IH _ H1) as (H3 & H4). split; [exact H3|].
      intros x. rewrite H4, H2. split.
      * intros [[[-> Hp]|H]|(H & Hx)]; auto.
        right. split; [now left|]. split; [exact Hp | congruence].
      * intros [H|([<-|H] & Hp & Hx)]; auto.
    + destruct (IH _ Hnd) as (H3 & H4). split; [exact H3|].
      intros x. rewrite H4. split.
      * intros [H|(H & Hx)]; auto.
      * intros [H|([<-|H] & Hp & Hx)]; auto. congruence.
Qed.

Lemma signals_high (texts : list (string * string)) :
  Forall (fun s => confidence s = divide 9 10 \/ confidence s = divide 86 100)
         (findContradictionSignals rt texts).
Proof.
  unfold findContradictionSignals.
  destruct (length (map fst texts) <? 2)%nat; [constructor|].
  apply Forall_app. split; apply Forall_flat_map, Forall_forall; intros [a b] _;
    [unfold scopeSignals | unfold mustSignals];
    apply Forall_app; split; apply Forall_flat_map, Forall_forall; intros x _;
    destruct (_ : bool); repeat constructor; cbn [confidence];
    first [left; reflexivity | right; reflexivity].
Qed.

Lemma signalMap_keys (sig : ProvenanceSignals) (name : string) :
  In name signalNames -> exists b, getKey (signalMap sig) name = Some b.
Proof.
  intros Hs. unfold signalNames in Hs. simpl in Hs.
  repeat (destruct Hs as [<-|Hs]; [eexists; reflexivity|]). destruct Hs.
Qed.

Lemma getKey_absent {V} (m : list (string * V)) (name : string) :
  ~ In name (map fst m) -> getKey m name = None.
Proof.
  unfold getKey. induction m as [|[k v] m IH]; [reflexivity|]. intros Hn.
  cbn [find fst]. destruct (String.eqb k name) eqn:E.
  - apply String.eqb_eq in E. exfalso. apply Hn. now left.
  - apply IH. intros H. apply Hn. now right.
Qed.

Lemma filter_all {A} (p : A -> bool) (l : list A) :
  Forall (fun x => p x = true) l -> filter p l = l.
Proof.
  induction 1 as [|x l Hx _ IH]; simpl; [reflexivity|]. now rewrite Hx, IH.
Qed.

End ValidatorFacts.

(** X13. The evidence record of the default validators.  Whenever a
    validator of the default registry returns a result, the result carries
    the criterion's identifier and severity, its evidence reference is the
    location [sdlaf-exports/evidence/<acId>.txt], the last thing written is
    the record at that location, the reference carries the digest of what
    was written there, and everything written before is kept.  Only the
    rubric validator writes anything else, and only it returns [skip], which
    it does exactly when the context has no judge. *)
Theorem default_validators_record_evidence
        (rt : Runtime) (v : ValidatorAdapter) (ac : AcceptanceCriterionSpec)
        (spec_ : VCCSpec) (ctx : RunContext) (w w' : Written) (res : ValidationResult) :
  In v (validators (buildDefaultRegistry rt)) ->
  validate v ac spec_ ctx w = Some (res, w') ->
  resAcId res = acId ac
  /\ resSeverity res = severity ac
  /\ refUri (resEvidence res) = evidenceUriFor (acId ac)
  /\ (exists contents extra,
         w' = (evidenceUriFor (acId ac), contents) :: extra ++ w
         /\ sha256 (resEvidence res) = digest (ctxArtifacts ctx) contents
         /\ (id v <> "rubric.aiJudge" -> extra = []))
  /\ (status res = skip <-> id v = "rubric.aiJudge" /\ aiJudge ctx = None).
Proof.
  intros Hv Hval. simpl in Hv.
  destruct Hv as [<-|[<-|[<-|[<-|[<-|[]]]]]]; cbn [validate id
    StructureRequiredSectionsValidator TraceabilityCitationCoverageValidator
    ConsistencySimpleCrossCheckValidator ProvenanceRequiredFieldsValidator
    RubricAiJudgeValidator] in *.
  - unfold structure_validate in Hval.
    destruct (structureMissing _ _ _ _ _ _) as [missing|]; [|discriminate].
    injection Hval as <- <-. repeat (split; [reflexivity|]).
    split; [eexists _, []; split; [reflexivity | split; [reflexivity | intros _; reflexivity]]|].
    destruct missing; simpl; split; try discriminate; intros (H & _); discriminate H.
  - unfold traceability_validate in Hval.
    destruct (negb _); [discriminate|].
    destruct (perArtifactCoverage _ _ _ _ _) as [perArtifact|]; [|discriminate].
    injection Hval as <- <-. repeat (split; [reflexivity|]).
    split; [eexists _, []; split; [reflexivity | split; [reflexivity | intros _; reflexivity]]|].
    simpl. destruct (Qle_bool _ _); split; try discriminate;
      intros (H & _); discriminate H.
  - unfold consistency_validate in Hval.
    injection Hval as <- <-. repeat (split; [reflexivity|]).
    split; [eexists _, []; split; [reflexivity | split; [reflexivity | intros _; reflexivity]]|].
    simpl. destruct (_ =? 0)%nat; split; try discriminate;
      intros (H & _); discriminate H.
  - unfold provenance_validate in Hval.
    destruct (provenanceSignals ctx) as [sig|]; injection Hval as <- <-;
      repeat (split; [reflexivity|]);
      (split; [eexists _, []; split; [reflexivity | split; [reflexivity | intros _; reflexivity]]|]); simpl;
      try destruct (_ =? 0)%nat; split; try discriminate;
      intros (H & _); discriminate H.
  - unfold rubric_validate in Hval.
    destruct (rubric_content_cases ac ctx w) as [[Hc _]|[Hc _]]; rewrite Hc in Hval;
      [discriminate|].
    destruct (aiJudge ctx) as [judge|]; injection Hval as <- <-;
      repeat (split; [reflexivity|]);
      (split; [eexists _, []; split; [reflexivity|];
               split; [reflexivity | intros _; reflexivity]|]); simpl.
    + destruct (Qle_bool _ _); split; try discriminate;
        intros (_ & H); discriminate H.
    + split; auto.
Qed.

Lemma default_validators_record_evidence_witness :
  exists res w',
    validate (StructureRequiredSectionsValidator literalRuntime)
             sampleCriterion sampleNormalized sampleCtx [] = Some (res, w')
    /\ refUri (resEvidence res) = "sdlaf-exports/evidence/AC-1.txt"
    /\ hd_error w'
       = Some ("sdlaf-exports/evidence/AC-1.txt",
               "FAIL: Missing required sections." +++ nl +++ "Required: Scope" +++ nl
               +++ "Missing:" +++ nl +++ "requirements").
Proof.
  destruct (validate (StructureRequiredSectionsValidator literalRuntime)
                     sampleCriterion sampleNormalized sampleCtx [])
    as [[res w']|] eqn:E; [|vm_compute in E; discriminate E].
  exists res, w'. split; [reflexivity|].
  destruct (default_validators_record_evidence literalRuntime
              (StructureRequiredSectionsValidator literalRuntime)
              sampleCriterion sampleNormalized sampleCtx [] w' res)
    as (_ & _ & Huri & _); [now left | exact E |].
  split; [exact Huri|].
  vm_compute in E. injection E as _ <-. reflexivity.
Defined.

(** X14. The structure validator.  It rejects exactly when a target
    cannot be read; otherwise it passes exactly when the text of every
    target other than [__proto__] has every required section, so that a
    criterion without targets or without required sections passes.  What
    the target [__proto__] misses is assigned to the accessor of that
    name and is not counted. *)
Theorem structure_validate_law
        (rt : Runtime) (ac : AcceptanceCriterionSpec) (spec_ : VCCSpec)
        (ctx : RunContext) (w : Written) :
  (structure_validate rt ac spec_ ctx w = None
   <-> exists a, In a (targetArtifacts ac) /\ readArtifactText spec_ ctx a = None)
  /\ (forall res w',
        structure_validate rt ac spec_ ctx w = Some (res, w') ->
        (status res = pass \/ status res = fail)
        /\ (status res = pass
            <-> forall a text_ s,
                In a (targetArtifacts ac) ->
                a <> "__proto__" ->
                readArtifactText spec_ ctx a = Some text_ ->
                In s (orEmpty (requiredSections (rule ac))) ->
                hasSection rt text_ s = true)).
Proof.
  unfold structure_validate.
  pose proof (structureMissing_none rt spec_ ctx
                (orEmpty (requiredSections (rule ac))) (targetArtifacts ac) []) as Hn.
  pose proof (structureMissing_some rt spec_ ctx
                (orEmpty (requiredSections (rule ac))) (targetArtifacts ac) []) as Hs.
  destruct (structureMissing _ _ _ _ _ _) as [missing|].
  - split; [split; [discriminate | intros H; apply Hn in H; discriminate H]|].
    intros res w' [= <- <-]. specialize (Hs missing eq_refl). simpl.
    destruct missing as [|m ms].
    + split; [now left|]. split; [intros _; now apply Hs | reflexivity].
    + split; [now right|]. split; [discriminate|].
      intros H. assert (Hbad : m :: ms = []) by (apply Hs; auto). discriminate Hbad.
  - split; [split; [intros _; now apply Hn | reflexivity] | discriminate].
Qed.

(** X15. The traceability validator at its edges.  It rejects exactly
    when the citation pattern does not compile or a target cannot be read.
    When it returns, a minimum coverage above 1 always fails and a minimum
    coverage of 0 or less always passes; without targets the worst coverage
    is 1, so the criterion passes exactly when the minimum is at most 1. *)
Theorem traceability_validate_edges
        (rt : Runtime) (ac : AcceptanceCriterionSpec) (spec_ : VCCSpec)
        (ctx : RunContext) (w : Written) :
  (traceability_validate rt ac spec_ ctx w = None
   <-> regexCompiles rt (traceability_patternSource ac) "g" = false
       \/ exists a, In a (targetArtifacts ac) /\ readArtifactText spec_ ctx a = None)
  /\ (forall res w',
        traceability_validate rt ac spec_ ctx w = Some (res, w') ->
        (1 < traceability_minCoverage ac -> status res = fail)
        /\ (traceability_minCoverage ac <= 0 -> status res = pass)
        /\ (targetArtifacts ac = [] ->
            (status res = pass <-> traceability_minCoverage ac <= 1))).
Proof.
  unfold traceability_validate.
  pose proof (perArtifactCoverage_none rt spec_ ctx (traceability_patternSource ac)
                (targetArtifacts ac)) as Hn.
  destruct (regexCompiles rt (traceability_patternSource ac) "g"); simpl.
  - destruct (perArtifactCoverage _ _ _ _ _) as [perArtifact|] eqn:Hp.
    + split.
      { split; [discriminate|]. intros [H|H]; [discriminate H|].
        apply Hn in H. discriminate H. }
      intros res w' [= <- <-]. simpl.
      pose proof (worstCoverage_le_1 perArtifact) as Hle.
      assert (Hge : 0 <= worstCoverage perArtifact).
      { apply (fold_Qmin_glb perArtifact 1 0). split; [discriminate|].
        intros x Hx.
        pose proof (perArtifactCoverage_records rt spec_ ctx _ _ _ Hp) as Hrec.
        destruct (Forall2_In_r _ _ _ Hrec x Hx) as (a & _ & t & _ & _ & _ & _ & _ & _ & _ & H0 & _).
        exact H0. }
      destruct (Qle_bool (traceability_minCoverage ac) (worstCoverage perArtifact)) eqn:Hq.
      * apply Qle_bool_iff in Hq. split; [|split].
        -- intros Hgt. exfalso. apply (Qlt_irrefl 1).
           eapply Qlt_le_trans; [exact Hgt|]. eapply Qle_trans; eassumption.
        -- reflexivity.
        -- intros _. split; [intros _|reflexivity]. eapply Qle_trans; eassumption.
      * assert (Hnq : ~ traceability_minCoverage ac <= worstCoverage perArtifact).
        { intros H. apply Qle_bool_iff in H. congruence. }
        split; [reflexivity|]. split.
        -- intros Hle0. exfalso. apply Hnq. eapply Qle_trans; eassumption.
        -- intros Hnil. rewrite Hnil in Hp. simpl in Hp. injection Hp as <-.
           split; [discriminate|]. intros H. exfalso. apply Hnq. exact H.
    + split; [|discriminate]. split; [intros _; right; now apply Hn | reflexivity].
  - split; [split; [now left | reflexivity] | discriminate].
Qed.

(** X16. The consistency validator.  It never rejects: a target that
    cannot be read is left out.  The artifacts it compares are the readable
    targets other than [__proto__], each once, however often it is listed;
    a text read for the target [__proto__] is assigned to the accessor of
    that name and is not kept.  Every signal the cross-check produces has
    confidence 0.9 or 0.86, at least the threshold of 0.85 as doubles, so
    the criterion passes exactly when the cross-check produces no signal
    at all. *)
Theorem consistency_validate_law
        (rt : Runtime) (ac : AcceptanceCriterionSpec) (spec_ : VCCSpec)
        (ctx : RunContext) (w : Written) :
  let texts := readTexts spec_ ctx (targetArtifacts ac) [] in
  exists res w',
    consistency_validate rt ac spec_ ctx w = Some (res, w')
    /\ (status res = pass \/ status res = fail)
    /\ (status res = pass <-> findContradictionSignals rt texts = [])
    /\ NoDup (map fst texts)
    /\ (forall a, In a (map fst texts)
                  <-> In a (targetArtifacts ac) /\ a <> "__proto__"
                      /\ readArtifactText spec_ ctx a <> None)
    /\ Forall (fun s => confidence s = divide 9 10 \/ confidence s = divide 86 100)
              (findContradictionSignals rt texts)
    /\ Qle_bool (divide 85 100) (divide 86 100) = true
    /\ Qle_bool (divide 85 100) (divide 9 10) = true.
Proof.
  intros texts. unfold consistency_validate. fold texts.
  do 2 eexists. split; [reflexivity|]. simpl.
  assert (Hhigh : filter (fun s => Qle_bool (divide 85 100) (confidence s))
                         (findContradictionSignals rt texts)
                  = findContradictionSignals rt texts).
  { apply filter_all. eapply Forall_impl; [|apply signals_high].
    intros s [H|H]; rewrite H; vm_compute; reflexivity. }
  rewrite Hhigh.
  destruct (readTexts_keys spec_ ctx (targetArtifacts ac) [] (NoDup_nil _)) as (Hnd & Hk).
  assert (Hkeys : forall a, In a (map fst texts)
                    <-> In a (targetArtifacts ac) /\ a <> "__proto__"
                        /\ readArtifactText spec_ ctx a <> None).
  { intros a. unfold texts. rewrite (Hk a). simpl. tauto. }
  assert (Hconst : Qle_bool (divide 85 100) (divide 86 100) = true
                   /\ Qle_bool (divide 85 100) (divide 9 10) = true)
    by (split; vm_compute; reflexivity).
  pose proof (signals_high rt texts) as Hsig.
  destruct (findContradictionSignals rt texts) as [|s ss]; simpl.
  - split; [now left|]. split; [tauto|]. auto.
  - split; [now right|]. split; [split; discriminate|]. auto.
Qed.

(** X17. The provenance validator and requirement names.  A required
    name is looked up in the signal map as a property of an object
    literal: it is satisfied when it is one of the seven signal names and
    its signal is true, and also when it is none of them but names a
    member every object inherits ([constructor], [toString], ...).  With
    signals in the context the criterion passes exactly when every
    required name is satisfied in this sense; a required name that is
    neither a signal name nor an inherited member fails the criterion
    whatever the signals are; with nothing required the criterion
    passes. *)
Theorem provenance_unknown_requirement
        (ac : AcceptanceCriterionSpec) (spec_ : VCCSpec) (ctx : RunContext)
        (w : Written) :
  exists res w',
    provenance_validate ac spec_ ctx w = Some (res, w')
    /\ (forall name,
          In name (orEmpty (require (rule ac))) ->
          ~ In name signalNames ->
          inherited name = false ->
          status res = fail)
    /\ (forall sig,
          provenanceSignals ctx = Some sig ->
          (status res = pass
           <-> forall name,
               In name (orEmpty (require (rule ac))) ->
               getKey (signalMap sig) name = Some true
               \/ (~ In name signalNames /\ inherited name = true)))
    /\ (orEmpty (require (rule ac)) = [] -> provenanceSignals ctx <> None ->
        status res = pass).
Proof.
  destruct (provenance_validate_cases ac spec_ ctx w) as (res & w' & Hv & Hpf & Hcase).
  exists res, w'. split; [exact Hv|].
  destruct (provenanceSignals ctx) as [sig|].
  - assert (Hiff : status res = pass
                   <-> forall name,
                       In name (orEmpty (require (rule ac))) ->
                       getKey (signalMap sig) name = Some true
                       \/ (~ In name signalNames /\ inherited name = true)).
    { rewrite Hcase. split; intros Hall name Hin; specialize (Hall name Hin).
      - apply signalMissing_false in Hall as [H|[Hnone Hinh]]; [now left|].
        right. split; [|exact Hinh]. intros Hs.
        apply (signalMap_keys sig) in Hs as [b Hb]. congruence.
      - apply signalMissing_false. destruct Hall as [H|[Hs Hinh]]; [now left|].
        right. split; [|exact Hinh]. now apply getKey_absent. }
    split; [|split].
    + intros name Hin Hunknown Hno.
      destruct Hpf as [Hp|Hf]; [exfalso | exact Hf].
      destruct (proj1 Hiff Hp name Hin) as [H|[_ H]].
      * rewrite (getKey_absent (signalMap sig) name Hunknown) in H. discriminate H.
      * congruence.
    + intros sig' [= <-]. exact Hiff.
    + intros Hnil _. apply Hiff. rewrite Hnil. intros ? [].
  - split; [intros; exact Hcase|]. split; [discriminate|]. intros _ H. now elim H.
Qed.

(** X18. The rubric validator.  It rejects exactly when the criterion
    has a first target with a non-empty identifier: the read of that
    target rejects, and so does the handler around it, before the judge is
    looked at.  Otherwise it returns [skip] exactly when the context has
    no judge, also for a criterion whose [canValidate] answers [true]; it
    returns the judge's verdict on the empty content when there is a
    judge, also for a criterion whose rubric does not resolve; and it
    writes its own record and nothing else. *)
Theorem rubric_validate_law
        (rt : Runtime) (ac : AcceptanceCriterionSpec) (spec_ : VCCSpec)
        (ctx : RunContext) (w : Written) :
  (rubric_validate rt ac spec_ ctx w = None
   <-> exists t, rubric_target ac = Some t /\ t <> "")
  /\ (forall res w',
        rubric_validate rt ac spec_ ctx w = Some (res, w') ->
        (status res = skip <-> aiJudge ctx = None)
        /\ (forall judge, aiJudge ctx = Some judge ->
              (status res = pass \/ status res = fail)
              /\ (status res = pass
                  <-> rubric_passThreshold ac
                      <= score (judge (rubric_judgeArgs ac spec_ ""))))
        /\ exists note, w' = (evidenceUriFor (acId ac), note) :: w).
Proof.
  destruct (rubric_content_cases ac ctx w) as [[Hc (t & Ht & Hne)]|[Hc Ht]].
  - split.
    + split; [intros _; eauto | intros _; eapply rubric_rejects_on_target; eauto].
    + intros res w' Hv. rewrite (rubric_rejects_on_target rt ac spec_ ctx w t Ht Hne) in Hv.
      discriminate Hv.
  - assert (Hno : ~ exists t, rubric_target ac = Some t /\ t <> "").
    { intros (t & Ht' & Hne). destruct Ht as [Ht|Ht]; rewrite Ht in Ht';
        [discriminate | injection Ht' as <-; now apply Hne]. }
    destruct (aiJudge ctx) as [judge|] eqn:Hj.
    + destruct (rubric_pass_iff_score rt ac spec_ ctx w judge Ht Hj)
        as (r & note & Hv & Hpf & Hiff).
      split; [split; [rewrite Hv; discriminate | intros H; now elim Hno]|].
      intros res w' Hv'. rewrite Hv in Hv'. injection Hv' as <- <-.
      split; [split; [intros Hs; destruct Hpf; congruence | discriminate]|].
      split; [|now exists note].
      intros j [= <-]. split; assumption.
    + destruct (rubric_skip_without_judge rt ac spec_ ctx w Ht Hj)
        as (r & note & Hv & Hs & _).
      split; [split; [rewrite Hv; discriminate | intros H; now elim Hno]|].
      intros res w' Hv'. rewrite Hv in Hv'. injection Hv' as <- <-.
      split; [tauto|]. split; [discriminate | now exists note].
Qed.

(** X19. The JSON Schema validator.  Without a first target, or with an
    empty one, it rejects before anything else is done.  When AJV cannot
    be imported it returns [skip] as soon as the schema loads, without
    reading the target, which may then be undeclared or unreadable.
    Whenever it returns a result: the status is [skip] exactly when AJV is
    missing; it is [pass] exactly when the schema compiles, the target
    reads, its text parses and the compiled schema accepts the document; a
    text that does not parse gives [fail], not a rejection; and the
    evidence record is written at the location of the criterion. *)
Theorem schema_validate_law
        (sr : SchemaRuntime) (ac : AcceptanceCriterionSpec) (spec_ : VCCSpec)
        (ctx : RunContext) (w : Written) :
  ((hd_error (targetArtifacts ac) = None \/ hd_error (targetArtifacts ac) = Some "") ->
   schema_validate sr ac spec_ ctx w = None)
  /\ (forall target schema_,
        hd_error (targetArtifacts ac) = Some target -> target <> "" ->
        loadSchema sr (jsonSchema (rule ac)) = Some schema_ ->
        importAjv sr = None ->
        exists res contents,
          schema_validate sr ac spec_ ctx w
          = Some (res, (evidenceUriFor (acId ac), contents) :: w)
          /\ status res = skip)
  /\ (forall res w',
        schema_validate sr ac spec_ ctx w = Some (res, w') ->
        (status res = skip <-> importAjv sr = None)
        /\ (status res = pass
            <-> exists target schema_ compile validate_ raw obj,
                hd_error (targetArtifacts ac) = Some target
                /\ loadSchema sr (jsonSchema (rule ac)) = Some schema_
                /\ importAjv sr = Some compile
                /\ compile schema_ = Some validate_
                /\ readArtifactText spec_ ctx target = Some raw
                /\ jsonParse sr raw = inl obj
                /\ fst (validate_ obj) = true)
        /\ (forall target raw msg,
              hd_error (targetArtifacts ac) = Some target ->
              readArtifactText spec_ ctx target = Some raw ->
              jsonParse sr raw = inr msg -> importAjv sr <> None ->
              status res = fail)
        /\ resAcId res = acId ac /\ resSeverity res = severity ac
        /\ refUri (resEvidence res) = evidenceUriFor (acId ac)
        /\ exists contents,
            w' = (evidenceUriFor (acId ac), contents) :: w
            /\ sha256 (resEvidence res) = digest (ctxArtifacts ctx) contents).
Proof.
  unfold schema_validate. split; [|split].
  - intros [-> | ->]; reflexivity.
  - intros target schema_ -> Hne -> ->. rewrite (nonempty_truthy _ Hne). simpl.
    do 2 eexists. split; reflexivity.
  - intros res w'.
    destruct (hd_error (targetArtifacts ac)) as [target|]; [|discriminate].
    destruct (truthy target); simpl; [|discriminate].
    destruct (loadSchema sr (jsonSchema (rule ac))) as [schema_|]; [|discriminate].
    destruct (importAjv sr) as [compile|].
    + destruct (compile schema_) as [validate_|] eqn:Hc; [|discriminate].
      destruct (readArtifactText spec_ ctx target) as [raw|] eqn:Hr; [|discriminate].
      destruct (jsonParse sr raw) as [obj|msg] eqn:Hp.
      * destruct (validate_ obj) as [ok errors] eqn:Hv.
        intros [= <- <-]. simpl.
        split; [split; [destruct ok|]; discriminate|].
        split.
        { split.
          - intros Hs. exists target, schema_, compile, validate_, raw, obj.
            do 3 (split; [reflexivity|]). split; [exact Hc|].
            split; [exact Hr|]. split; [exact Hp|]. rewrite Hv.
            cbn [fst]. destruct ok; [reflexivity | discriminate Hs].
          - intros (t' & s' & c' & v' & r' & o' & [= <-] & [= <-] & [= <-] & Hc'
                    & Hr' & Hp' & Hok).
            rewrite Hc in Hc'. injection Hc' as <-.
            rewrite Hr in Hr'. injection Hr' as <-.
            rewrite Hp in Hp'. injection Hp' as <-.
            rewrite Hv in Hok. simpl in Hok. now subst ok. }
        split.
        { intros t' r' m' [= <-] Hr' Hp'. congruence. }
        repeat (split; [reflexivity|]). eexists. split; reflexivity.
      * intros [= <- <-]. simpl.
        split; [split; discriminate|].
        split.
        { split; [discriminate|].
          intros (t' & s' & c' & v' & r' & o' & [= <-] & _ & _ & _ & Hr' & Hp' & _).
          congruence. }
        split; [reflexivity|].
        repeat (split; [reflexivity|]). eexists. split; reflexivity.
    + intros [= <- <-]. simpl.
      split; [tauto|].
      split.
      { split; [discriminate|].
        intros (t' & s' & c' & v' & r' & o' & _ & _ & Hbad & _). discriminate Hbad. }
      split; [intros ? ? ? _ _ _ H; now elim H|].
      repeat (split; [reflexivity|]). eexists. split; reflexivity.
Qed.

(** X20. The budget of passes bounds the loop and nothing else.  A run
    that leaves the loop in pass [t], by success or by stagnation, has
    [t < maxIterations], so the criteria are evaluated at most
    [maxIterations] times; and a larger [maxIterations] changes no verdict
    reached under a smaller one: the run leaves the loop in the same pass
    through the same exit. *)
Theorem loop_budget_monotone
        (Outputs History : Type)
        (evaluateMustCriteria : VCCSpec -> Outputs -> list string)
        (isStagnant : list string -> History -> bool * History)
        (refine : Outputs -> list string -> Outputs)
        (s : VCCSpec) (rc rc' : ResourceConstraints) (m m' : Q)
        (outputs : Outputs) (history : History) :
  maxIterations rc = Some m -> maxIterations rc' = Some m' -> m <= m' ->
  let run_ := fun budget =>
    loop evaluateMustCriteria isStagnant refine s (passesAllowed budget) 0%nat
         outputs history in
  (forall t, run_ rc = SuccessAt t ->
             inject_Z (Z.of_nat t) < m /\ run_ rc' = SuccessAt t)
  /\ (forall t, run_ rc = StagnantAt t ->
                inject_Z (Z.of_nat t) < m /\ run_ rc' = StagnantAt t)
  /\ (run_ rc' = LoopEnd -> run_ rc = LoopEnd).
Proof.
  intros Hm Hm' Hle run_. unfold run_.
  assert (Hn : (passesAllowed rc <= passesAllowed rc')%nat).
  { unfold passesAllowed. rewrite Hm, Hm'.
    pose proof (Qceiling_resp_le m m' Hle). lia. }
  assert (Hlt : forall t, (t < passesAllowed rc)%nat -> inject_Z (Z.of_nat t) < m).
  { intros t Ht. apply (passesAllowed_spec rc t) in Ht as (q & Hq & Hlt).
    rewrite Hm in Hq. injection Hq as <-. exact Hlt. }
  destruct (loop_exit Outputs History evaluateMustCriteria isStagnant refine s
                      (passesAllowed rc) 0 outputs history) as (Hs & Hg & He).
  destruct (loop_exit Outputs History evaluateMustCriteria isStagnant refine s
                      (passesAllowed rc') 0 outputs history) as (Hs' & Hg' & He').
  split; [|split].
  - intros t Ht. apply Hs in Ht as (k & -> & (Hk & Hgo) & Hnil). simpl.
    split; [now apply Hlt|]. apply Hs'. exists k.
    split; [reflexivity|]. split; [|exact Hnil]. split; [lia | exact Hgo].
  - intros t Ht. apply Hg in Ht as (k & -> & (Hk & Hgo) & Hne & Hst). simpl.
    split; [now apply Hlt|]. apply Hg'. exists k.
    split; [reflexivity|]. split; [|split; assumption]. split; [lia | exact Hgo].
  - intros Hend. apply He. intros k Hk. apply (proj1 He' Hend). lia.
Qed.

Lemma loop_budget_monotone_witness :
  loop sampleEvaluate neverStagnant sampleRefine sampleSpec
       (passesAllowed {| maxIterations := Some 5; maxTimeMs := None;
                         maxCostUsd := None; stagnationWindow := None |})
       0%nat 0%nat tt = SuccessAt 2
  /\ loop sampleEvaluate neverStagnant sampleRefine sampleSpec
          (passesAllowed {| maxIterations := Some (15 # 2); maxTimeMs := None;
                            maxCostUsd := None; stagnationWindow := None |})
          0%nat 0%nat tt = SuccessAt 2.
Proof.
  split; [reflexivity|].
  apply (loop_budget_monotone nat unit sampleEvaluate neverStagnant sampleRefine
           sampleSpec
           {| maxIterations := Some 5; maxTimeMs := None;
              maxCostUsd := None; stagnationWindow := None |}
           {| maxIterations := Some (15 # 2); maxTimeMs := None;
              maxCostUsd := None; stagnationWindow := None |}
           5 (15 # 2) 0%nat tt eq_refl eq_refl);
    [discriminate | reflexivity].
Defined.

Lemma findLikely_required (s : VCCSpec) (r0 : ArtifactSpec) (rs : list ArtifactSpec)
      (t : list ArtifactId) :
  filter required (artifacts s) = r0 :: rs ->
  findLikelySpecArtifacts s = Some t ->
  t = match map artifactId (filter looksLikeSpec (r0 :: rs)) with
      | [] => [artifactId r0]
      | _ :: _ => map artifactId (filter looksLikeSpec (r0 :: rs))
      end.
Proof.
  unfold findLikelySpecArtifacts. intros ->. intros H. injection H as H.
  symmetry. exact H.
Qed.

Lemma findNarrative_required (s : VCCSpec) (r0 : ArtifactSpec) (rs : list ArtifactSpec)
      (t : list ArtifactId) :
  filter required (artifacts s) = r0 :: rs ->
  findNarrativeArtifacts s = Some t ->
  t = match map artifactId (filter isNarrative (r0 :: rs)) with
      | [] => map artifactId (r0 :: rs)
      | _ :: _ => map artifactId (filter isNarrative (r0 :: rs))
      end.
Proof.
  unfold findNarrativeArtifacts. intros ->. intros H. injection H as H.
  symmetry. exact H.
Qed.

(** X21. The targets chosen for the injected criteria.  On a contract
    with an artifact, [findLikelySpecArtifacts] and
    [findNarrativeArtifacts] return a non-empty list of identifiers of
    declared artifacts; when the contract has a required artifact, of
    required artifacts only; when some required artifact looks like a
    specification, the former returns exactly those that do, in order, and
    when some required artifact has a text or markdown format, the latter
    returns exactly those that have.  On a contract without artifacts both
    fail. *)
Theorem default_targets_law (s : VCCSpec) :
  (artifacts s = [] ->
   findLikelySpecArtifacts s = None /\ findNarrativeArtifacts s = None)
  /\ (artifacts s <> [] ->
      exists t1 t2,
        findLikelySpecArtifacts s = Some t1 /\ findNarrativeArtifacts s = Some t2
        /\ t1 <> [] /\ t2 <> []
        /\ incl t1 (map artifactId (artifacts s))
        /\ incl t2 (map artifactId (artifacts s))
        /\ (filter required (artifacts s) <> [] ->
            incl t1 (map artifactId (filter required (artifacts s)))
            /\ incl t2 (map artifactId (filter required (artifacts s))))
        /\ (filter looksLikeSpec (filter required (artifacts s)) <> [] ->
            t1 = map artifactId (filter looksLikeSpec (filter required (artifacts s))))
        /\ (filter isNarrative (filter required (artifacts s)) <> [] ->
            t2 = map artifactId (filter isNarrative (filter required (artifacts s))))).
Proof.
  split.
  - intros Hnil. unfold findLikelySpecArtifacts, findNarrativeArtifacts.
    rewrite Hnil. split; reflexivity.
  - intros Hne.
    destruct (findLikelySpecArtifacts_some s Hne) as (t1 & H1 & Hn1).
    destruct (findNarrativeArtifacts_some s Hne) as (t2 & H2 & Hn2).
    exists t1, t2. repeat (split; [assumption|]).
    split; [now apply findLikelySpecArtifacts_declared|].
    split; [now apply findNarrativeArtifacts_declared|].
    destruct (filter required (artifacts s)) as [|r0 rs] eqn:Hreq.
    + split; [intros H; now elim H|]. split; intros H; now elim H.
    + pose proof (findLikely_required s r0 rs t1 Hreq H1) as E1.
      pose proof (findNarrative_required s r0 rs t2 Hreq H2) as E2.
      split; [intros _; split | split].
      * rewrite E1.
        destruct (map artifactId (filter looksLikeSpec (r0 :: rs))) as [|i is_] eqn:Hm.
        -- intros x [<-|[]]. now left.
        -- rewrite <- Hm. intros x Hx. apply in_map_iff in Hx as (a & <- & Ha).
           apply (in_map artifactId). now apply filter_In in Ha.
      * rewrite E2.
        destruct (map artifactId (filter isNarrative (r0 :: rs))) as [|i is_] eqn:Hm.
        -- apply incl_refl.
        -- rewrite <- Hm. intros x Hx. apply in_map_iff in Hx as (a & <- & Ha).
           apply (in_map artifactId). now apply filter_In in Ha.
      * intros Hl. rewrite E1.
        destruct (filter looksLikeSpec (r0 :: rs)) as [|a l]; [now elim Hl | reflexivity].
      * intros Hl. rewrite E2.
        destruct (filter isNarrative (r0 :: rs)) as [|a l]; [now elim Hl | reflexivity].
Qed.

(** * Warnings *)

Section Warnings.

Lemma newSet_nil (xs : list string) : newSet xs = [] <-> xs = [].
Proof.
  split; [|intros ->; reflexivity].
  destruct xs as [|x xs]; [reflexivity|]. intros H.
  assert (Hh : has (newSet (x :: xs)) x = true).
  { rewrite has_newSet. simpl. now rewrite String.eqb_refl. }
  rewrite H in Hh. discriminate.
Qed.

Lemma forIndexed_nil_iff {A} (body : nat -> A -> list IntegrityIssue)
      (P : A -> Prop) (xs : list A) :
  (forall k x, body k x = [] <-> P x) ->
  forall i, forIndexed body i xs = [] <-> forall x, In x xs -> P x.
Proof.
  intros Hb. induction xs as [|y xs IH]; intros i; simpl.
  - split; [intros _ x [] | reflexivity].
  - split.
    + intros H. apply app_eq_nil in H as [H1 H2].
      intros x [<-|Hx]; [now apply (Hb i) | now apply (proj1 (IH (S i)) H2)].
    + intros H. rewrite (proj2 (Hb i y)) by (apply H; now left). simpl.
      apply IH. intros x Hx. apply H. now right.
Qed.

Lemma checkTeamRoles_nil (ctx : RunContext) (arts : list ArtifactSpec) :
  checkTeamRoles ctx arts = []
  <-> team ctx = []
      \/ forall a o, In a arts -> In o (owners a) -> In o (map fst (team ctx)).
Proof.
  unfold checkTeamRoles.
  rewrite (forIndexed_nil_iff _
             (fun a => forall o, In o (owners a) ->
                                 team ctx = [] \/ In o (map fst (team ctx)))).
  - split.
    + intros H. destruct (team ctx) as [|m ms] eqn:Ht; [now left|]. right.
      intros a o Ha Ho. destruct (H a Ha o Ho) as [Hbad|Hin]; [discriminate | exact Hin].
    + intros [H|H] a Ha o Ho; [now left | right; eauto].
  - intros k a. apply forIndexed_nil_iff. intros j o.
    destruct (0 <? length (newSet (map fst (team ctx))))%nat eqn:Hz.
    + destruct (has (newSet (map fst (team ctx))) o) eqn:Hh; simpl.
      * split; [intros _; right; now apply has_newSet_In | reflexivity].
      * split; [discriminate|]. intros [Hnil|Hin].
        -- rewrite Hnil in Hz. discriminate.
        -- apply has_newSet_In in Hin. congruence.
    + simpl. split; [intros _; left | reflexivity].
      apply Nat.ltb_ge in Hz. apply Nat.le_0_r, length_zero_iff_nil in Hz.
      apply (proj1 (newSet_nil _)) in Hz. now apply map_eq_nil in Hz.
Qed.

Lemma checkArtifacts_no_warning (arts : list ArtifactSpec) :
  forall i set,
    Forall isWarning (snd (checkArtifacts i arts set)) ->
    (snd (checkArtifacts i arts set) = [] <-> Forall (fun a => owners a <> []) arts).
Proof.
  induction arts as [|a rest IH]; intros i set; simpl.
  - intros _. split; [constructor | reflexivity].
  - destruct (negb (truthy (artifactId a))).
    + destruct (checkArtifacts (S i) rest set) as [[r s] l]. simpl.
      intros Hall. bad_issue Hall.
    + specialize (IH (S i) (add set (artifactId a))).
      destruct (checkArtifacts (S i) rest (add set (artifactId a))) as [[r s] l].
      simpl in *. intros Hall.
      destruct (has set (artifactId a)); [bad_issue Hall|]. simpl in *.
      destruct (formats a); [bad_issue Hall|]. simpl in *.
      destruct (owners a) as [|o os] eqn:Ho; simpl in *.
      * split; [discriminate|]. intros H. inversion H; subst. congruence.
      * rewrite (IH Hall). split.
        -- intros H. constructor; [rewrite Ho; discriminate | exact H].
        -- intros H. now inversion H.
Qed.

Lemma sameButDeps_owners (xs ys : list ArtifactSpec) :
  Forall2 sameButDeps xs ys ->
  (Forall (fun a => owners a <> []) xs <-> Forall (fun a => owners a <> []) ys).
Proof.
  induction 1 as [|x y xs ys Hxy _ IH]; [tauto|].
  destruct Hxy as (_ & _ & _ & _ & _ & Ho).
  rewrite !Forall_cons_iff, IH, Ho. tauto.
Qed.

Lemma checkAcceptance_errors (set : StrSet) (acs : list AcceptanceCriterionSpec) :
  forall i acIdSet,
    Forall (fun x => issueSeverity x = error) (checkAcceptance set i acs acIdSet).
Proof.
  induction acs as [|ac rest IH]; intros i acIdSet; simpl; [constructor|].
  repeat (apply Forall_app; split); [| |apply IH].
  - destruct (has acIdSet (acId ac)); one_issue. reflexivity.
  - apply checkRefs_Forall. reflexivity.
Qed.

(** The issues of a contract without structural errors: the warnings of
    the artifact loop and those of the team check. *)
Lemma structuralIssues_warnings_only (s : VCCSpec) (ctx : RunContext) :
  Forall isWarning (structuralIssues s ctx) ->
  structuralIssues s ctx
  = snd (checkArtifacts 0 (artifacts s) [])
    ++ checkTeamRoles ctx (artifacts (structuralSpec s)).
Proof.
  unfold structuralIssues, structuralSpec.
  change (artifacts (normalizeArrays s)) with (artifacts s).
  destruct (checkArtifacts 0 (artifacts s) []) as [[arts set] issA].
  cbn [fst snd].
  change (artifacts (setArtifacts (normalizeArrays s) arts)) with arts.
  intros Hall.
  apply Forall_app in Hall as [Hv Hall].
  apply Forall_app in Hall as [_ Hall].
  apply Forall_app in Hall as [HD Hall].
  apply Forall_app in Hall as [HP Hall].
  apply Forall_app in Hall as [HC Hall].
  apply Forall_app in Hall as [HR Hall].
  apply Forall_app in Hall as [HG _].
  rewrite (warnings_errors_nil _ Hv), (warnings_errors_nil _ HD),
    (warnings_errors_nil _ HP), (warnings_errors_nil _ HC),
    (warnings_errors_nil _ HR), (warnings_errors_nil _ HG); [reflexivity|..].
  - apply forIndexed_Forall. intros k g _. apply forIndexed_Forall. intros j ra _.
    destruct (approvalRubricId ra) as [ref|]; [|constructor].
    destruct (truthy ref && negb _); one_issue. reflexivity.
  - apply forIndexed_Forall. intros k ac _.
    destruct (rubricRef (rule ac)) as [ref|]; [|constructor].
    destruct (truthy ref && negb _); one_issue. reflexivity.
  - apply checkAcceptance_errors.
  - apply forIndexed_Forall. intros k p _. apply checkRefs_Forall. reflexivity.
  - apply forIndexed_Forall. intros k a _. apply checkRefs_Forall. reflexivity.
  - unfold versionCheck. destruct (negb _); one_issue. reflexivity.
Qed.

End Warnings.

(** X22. When a returned result is free of warnings.  The issue list of
    a returned result is empty exactly when every artifact has an owner
    and, if the run context names a team, every owner of every artifact is
    a role of the team.  Without a team the owners are not checked. *)
Theorem returned_without_warnings
        (inputSpec : VCCSpec) (ctx : RunContext) (registry : AdapterRegistry)
        (opts : option Opts) (r : IntegrityResult) :
  specIntegrityPass inputSpec ctx registry opts = Returned r ->
  (issues r = []
   <-> Forall (fun a => owners a <> []) (artifacts (spec r))
       /\ (team ctx = []
           \/ forall a o, In a (artifacts (spec r)) -> In o (owners a) ->
                          In o (map fst (team ctx)))).
Proof.
  intros Hret.
  destruct (returned_clean _ _ _ _ _ Hret) as (Hclean & _ & Hiss & _).
  rewrite Hiss, (structuralIssues_warnings_only _ _ Hclean).
  rewrite (returned_artifacts _ _ _ _ _ Hret).
  assert (HA : Forall isWarning (snd (checkArtifacts 0 (artifacts inputSpec) []))).
  { rewrite (structuralIssues_warnings_only _ _ Hclean) in Hclean.
    now apply Forall_app in Hclean. }
  pose proof (checkArtifacts_no_warning _ _ _ HA) as Hown.
  assert (Hsame : Forall (fun a => owners a <> []) (artifacts inputSpec)
                  <-> Forall (fun a => owners a <> [])
                             (artifacts (structuralSpec inputSpec))).
  { unfold structuralSpec.
    change (artifacts (normalizeArrays inputSpec)) with (artifacts inputSpec).
    apply sameButDeps_owners, checkArtifacts_shape. }
  rewrite <- Hsame, <- Hown, <- checkTeamRoles_nil. split.
  - intros H. now apply app_eq_nil in H.
  - intros (-> & ->). reflexivity.
Qed.

Lemma returned_without_warnings_witness :
  specIntegrityPass linkedSpec sampleCtx sampleRegistry None = Returned linkedResult
  /\ issues linkedResult <> [].
Proof.
  assert (H : specIntegrityPass linkedSpec sampleCtx sampleRegistry None
              = Returned linkedResult) by (vm_compute; reflexivity).
  split; [exact H|]. intros Hnil.
  apply (returned_without_warnings linkedSpec sampleCtx sampleRegistry None
           linkedResult H) in Hnil as (Hown & _).
  rewrite Forall_forall in Hown.
  apply (Hown reportArtifact); [vm_compute; auto | reflexivity].
Defined.

(** * The pass on its own result *)

Section SecondPass.

Lemma find_declared (arts : list ArtifactSpec) (t : ArtifactId) :
  In t (map artifactId arts) ->
  exists a, find (fun x => String.eqb (artifactId x) t) arts = Some a
            /\ In a arts /\ artifactId a = t.
Proof.
  induction arts as [|b arts IH]; simpl; [intros []|].
  destruct (String.eqb (artifactId b) t) eqn:E.
  - intros _. exists b. split; [reflexivity|]. split; [now left|].
    now apply String.eqb_eq.
  - intros [Hb|Hin]; [rewrite Hb, String.eqb_refl in E; discriminate|].
    destruct (IH Hin) as (a & Hf & Ha & Hid). exists a. auto.
Qed.

Lemma wellFormed_injected (s s1 : VCCSpec) (opts : option Opts) :
  wellFormed s -> injected s opts = Some s1 -> wellFormed s1.
Proof.
  intros (Hv & Hwf & Hnd & Hdep & Hpk & Htg & Hac & Hrub & Hgate) Hinj.
  destruct (injected_fields _ _ _ Hinj)
    as (Hver & Harts & _ & Hg & Hpack & _ & _
        & (addedR & HR & _ & _ & _)
        & (added & Hacc & _ & Hdef & Hnda & Hfresh)).
  assert (Hids : map artifactId (artifacts s1) = map artifactId (artifacts s)).
  { rewrite Harts. apply structuralSpec_ids. }
  assert (Hshape : Forall2 sameButDeps (artifacts s) (artifacts s1)).
  { rewrite Harts. unfold structuralSpec.
    change (artifacts (normalizeArrays s)) with (artifacts s).
    apply checkArtifacts_shape. }
  assert (Hdeps : Forall2 (fun a a' => orEmpty (dependsOn a') = orEmpty (dependsOn a))
                          (artifacts s) (artifacts s1)).
  { rewrite Harts. unfold structuralSpec.
    change (artifacts (normalizeArrays s)) with (artifacts s).
    apply checkArtifacts_deps. }
  assert (Hdecl : forall ref, rubricDeclared s ref -> rubricDeclared s1 ref).
  { intros ref (rb & Hin & Hid). exists rb. split; [|exact Hid].
    rewrite HR. simpl. apply in_or_app. now left. }
  assert (Hpk' : forall pk x, In pk (packaging s) -> In x (inputs pk) ->
                              In x (map artifactId (artifacts s))).
  { exact Hpk. }
  unfold wellFormed, declared in *. rewrite Hids, Hpack, Hacc.
  split; [congruence|]. split.
  { clear - Hshape Hwf. induction Hshape as [|x y xs ys Hxy _ IH]; [constructor|].
    inversion Hwf as [|? ? (Hid & Hf) Hrest]; subst.
    destruct Hxy as (Hi & _ & _ & Hfm & _).
    constructor; [rewrite <- Hi, <- Hfm; auto | auto]. }
  split; [exact Hnd|]. split.
  { intros a' dep Ha' Hd.
    destruct (Forall2_In_r _ _ _ Hdeps a' Ha') as (a & Ha & Heq).
    apply (Hdep a); [exact Ha | now rewrite <- Heq]. }
  split; [exact Hpk|]. split.
  { intros ac t Hin Ht. apply in_app_or in Hin as [Hin|Hin]; [eauto|].
    rewrite Forall_forall in Hdef. specialize (Hdef ac Hin).
    apply defaultCriterionOf_targets in Hdef as (Hincl & _).
    - apply Hincl in Ht.
      change (artifacts (injectDefaultRubrics (structuralSpec s)))
        with (artifacts (structuralSpec s)) in Ht.
      now rewrite structuralSpec_ids in Ht.
    - change (artifacts (injectDefaultRubrics (structuralSpec s)))
        with (artifacts (structuralSpec s)).
      rewrite structuralSpec_ids. exact Hpk. }
  split.
  { rewrite map_app. apply NoDup_app; [exact Hac | exact Hnda|].
    intros x Hx Hx'. apply in_map_iff in Hx' as (ac & <- & Hin).
    rewrite Forall_forall in Hfresh. now apply (Hfresh ac Hin). }
  split.
  - intros ac ref Hin Href Hne. apply in_app_or in Hin as [Hin|Hin]; [eauto|].
    rewrite Forall_forall in Hdef. specialize (Hdef ac Hin).
    apply defaultCriterionOf_targets in Hdef as (_ & Hnone & _); [congruence|].
    change (artifacts (injectDefaultRubrics (structuralSpec s)))
      with (artifacts (structuralSpec s)).
    rewrite structuralSpec_ids. exact Hpk.
  - intros g ra ref Hgin. rewrite Hg in Hgin. simpl in Hgin. eauto.
Qed.

Lemma checkArtifacts_fixed (arts : list ArtifactSpec) :
  Forall (fun a => dependsOn a <> None) arts ->
  forall i set, fst (fst (checkArtifacts i arts set)) = arts.
Proof.
  induction 1 as [|a rest Ha _ IH]; intros i set; simpl; [reflexivity|].
  destruct (negb (truthy (artifactId a))).
  - specialize (IH (S i) set).
    destruct (checkArtifacts (S i) rest set) as [[r s] l]. simpl in *. now rewrite IH.
  - specialize (IH (S i) (add set (artifactId a))).
    destruct (checkArtifacts (S i) rest (add set (artifactId a))) as [[r s] l].
    simpl in *. rewrite IH. destruct (dependsOn a); [reflexivity | now elim Ha].
Qed.

Lemma checkArtifacts_issues_repaired (arts : list ArtifactSpec) :
  forall i set,
    snd (checkArtifacts i (fst (fst (checkArtifacts i arts set))) set)
    = snd (checkArtifacts i arts set).
Proof.
  induction arts as [|a rest IH]; intros i set; [reflexivity|].
  cbn [checkArtifacts].
  destruct (negb (truthy (artifactId a))) eqn:Ht.
  - specialize (IH (S i) set).
    destruct (checkArtifacts (S i) rest set) as [[r s] l]. cbn [fst snd] in *.
    cbn [checkArtifacts]. rewrite Ht.
    destruct (checkArtifacts (S i) r set) as [[r' s'] l']. cbn [fst snd] in *.
    now rewrite IH.
  - specialize (IH (S i) (add set (artifactId a))).
    destruct (checkArtifacts (S i) rest (add set (artifactId a))) as [[r s] l].
    cbn [fst snd] in *. cbn [checkArtifacts].
    assert (Hsame : forall b, b = match dependsOn a with
                                  | Some _ => a
                                  | None =>
                                    {| artifactId := artifactId a; kind := kind a;
                                       subtype := subtype a; formats := formats a;
                                       required := required a; dependsOn := Some [];
                                       owners := owners a |}
                                  end ->
                              artifactId b = artifactId a /\ formats b = formats a
                              /\ owners b = owners a).
    { intros b ->. destruct (dependsOn a); auto. }
    destruct (Hsame _ eq_refl) as (Hi & Hf & Ho). rewrite Hi, Hf, Ho, Ht.
    destruct (checkArtifacts (S i) r (add set (artifactId a))) as [[r' s'] l'].
    cbn [fst snd] in *. now rewrite IH.
Qed.

Lemma structuralSpec_fixed (s : VCCSpec) :
  relationships s <> None -> rubrics s <> None -> gates s <> None ->
  Forall (fun a => dependsOn a <> None) (artifacts s) ->
  structuralSpec s = s.
Proof.
  intros Hr Hb Hg Hd. unfold structuralSpec.
  change (artifacts (normalizeArrays s)) with (artifacts s).
  rewrite (checkArtifacts_fixed _ Hd).
  destruct s as [v a rel acc rub gat pk pol rc]. simpl in *.
  destruct rel; [|now elim Hr]. destruct rub; [|now elim Hb].
  destruct gat; [|now elim Hg]. reflexivity.
Qed.

End SecondPass.

(** X23. What the pass guarantees to the validators.  In a returned
    contract the lookup of every target of every criterion succeeds: the
    target names a declared artifact with a format, and
    [readArtifactText] on it is the store's [readText] on the location of
    one of the artifact's formats, in whatever run context.  A validator
    then rejects on a read only when the store does. *)
Theorem returned_targets_readable
        (inputSpec : VCCSpec) (ctx : RunContext) (registry : AdapterRegistry)
        (opts : option Opts) (r : IntegrityResult) :
  specIntegrityPass inputSpec ctx registry opts = Returned r ->
  forall ac t, In ac (acceptance (spec r)) -> In t (targetArtifacts ac) ->
  exists a f,
    In a (artifacts (spec r)) /\ artifactId a = t /\ In f (formats a)
    /\ forall ctx', readArtifactText (spec r) ctx' t
                    = readText (ctxArtifacts ctx') (uri f).
Proof.
  intros Hret ac t Hac Ht.
  destruct (returned_inv _ _ _ _ _ Hret) as (Hne & Hinj).
  destruct (returned_clean _ _ _ _ _ Hret) as (Hclean & _).
  pose proof (wellFormed_injected _ _ _ (structuralIssues_wellFormed _ _ Hclean) Hinj)
    as (_ & Hwf & _ & _ & _ & Htg & _).
  destruct (find_declared _ _ (Htg ac t Hac Ht)) as (a & Hfind & Ha & Hid).
  rewrite Forall_forall in Hwf. destruct (Hwf a Ha) as (_ & Hfm).
  unfold readArtifactText. rewrite Hfind.
  destruct (find (fun f => startsWith (mediaType f) "text/") (formats a)) as [f|] eqn:Hf.
  - exists a, f. repeat split; auto. now apply find_some in Hf.
  - destruct (formats a) as [|f fs] eqn:Hfs; [now elim Hfm|].
    exists a, f. rewrite Hfs. repeat split; auto. now left.
Qed.

Lemma returned_targets_readable_witness :
  specIntegrityPass linkedSpec sampleCtx sampleRegistry None = Returned linkedResult
  /\ exists a f,
      In a (artifacts (spec linkedResult)) /\ artifactId a = "report"
      /\ In f (formats a)
      /\ forall ctx', readArtifactText (spec linkedResult) ctx' "report"
                      = readText (ctxArtifacts ctx') (uri f).
Proof.
  assert (H : specIntegrityPass linkedSpec sampleCtx sampleRegistry None
              = Returned linkedResult) by (vm_compute; reflexivity).
  split; [exact H|].
  apply (returned_targets_readable linkedSpec sampleCtx sampleRegistry None
           linkedResult H qaCriterion "report"); [vm_compute; auto | now left].
Defined.

(** X24. The pass is idempotent.  Run again on the contract it has
    returned, with the same context, registry and options, the pass
    returns the same result: the same contract, the same issues and the
    same normalized lists. *)
Theorem specIntegrityPass_idempotent
        (inputSpec : VCCSpec) (ctx : RunContext) (registry : AdapterRegistry)
        (opts : option Opts) (r : IntegrityResult) :
  specIntegrityPass inputSpec ctx registry opts = Returned r ->
  specIntegrityPass (spec r) ctx registry opts = Returned r.
Proof.
  intros Hret.
  destruct (returned_inv _ _ _ _ _ Hret) as (Hne & Hinj).
  destruct (returned_clean _ _ _ _ _ Hret) as (Hclean & Hcov & Hiss & Hids & Hmust).
  destruct (structuralIssues_clean _ _ Hclean) as (_ & _ & _ & Hset & Hdeps & _).
  pose proof (structuralIssues_wellFormed _ _ Hclean) as Hwf0.
  pose proof (wellFormed_injected _ _ _ Hwf0 Hinj) as Hwf.
  destruct (injected_fields _ _ _ Hinj)
    as (_ & Harts & Hrel & Hg & _ & _ & _ & (addedR & HR & _) & _).
  assert (Hfix : structuralSpec (spec r) = spec r).
  { apply structuralSpec_fixed; congruence. }
  assert (Hinj' : injected (spec r) opts = Some (spec r)).
  { unfold injected. rewrite Hfix. destruct (optInject opts) eqn:Hopt; [|reflexivity].
    destruct (returned_complete _ _ _ _ _ Hopt Hret) as (Hrub & Hacc & rs & Hrs).
    rewrite (injectDefaultRubrics_complete _ Hrub), Hrs. simpl. rewrite <- Hrs.
    rewrite setRubrics_same. now apply injectDefaultAcceptance_complete. }
  assert (Hclean' : Forall isWarning (structuralIssues (spec r) ctx)).
  { now apply structuralIssues_warnings. }
  assert (Hiss' : structuralIssues (spec r) ctx = structuralIssues inputSpec ctx).
  { rewrite (structuralIssues_warnings_only _ _ Hclean'),
      (structuralIssues_warnings_only _ _ Hclean), Hfix, Harts.
    f_equal. unfold structuralSpec.
    change (artifacts (normalizeArrays inputSpec)) with (artifacts inputSpec).
    apply checkArtifacts_issues_repaired. }
  destruct (structuralIssues_clean _ _ Hclean') as (_ & _ & _ & Hset' & _).
  assert (Hai : snd (fst (checkArtifacts 0 (artifacts (spec r)) []))
                = artifactIds (normalized r)).
  { rewrite Hset', Hids, Hset, Harts. apply structuralSpec_ids. }
  assert (Hne' : artifacts (spec r) <> []).
  { rewrite Harts. now apply structuralSpec_artifacts_nonempty. }
  assert (Hcov' : (if optRequireMustCoverage opts
                   then mustCoverage registry (spec r) ctx else []) = []).
  { destruct (optRequireMustCoverage opts); [now apply Hcov | reflexivity]. }
  unfold specIntegrityPass, deepClone.
  change (artifacts (normalizeArrays (spec r))) with (artifacts (spec r)).
  rewrite Hinj', Hcov', app_nil_r, Hai.
  rewrite (proj2 (filter_isError_Forall _) Hclean'), Hiss', <- Hiss, <- Hmust.
  destruct (artifacts (spec r)) as [|a rest]; [congruence|].
  destruct r as [s i [ai ma]]. reflexivity.
Qed.

Lemma specIntegrityPass_idempotent_witness :
  specIntegrityPass linkedSpec sampleCtx sampleRegistry None = Returned linkedResult
  /\ specIntegrityPass (spec linkedResult) sampleCtx sampleRegistry None
     = Returned linkedResult.
Proof.
  assert (H : specIntegrityPass linkedSpec sampleCtx sampleRegistry None
              = Returned linkedResult) by (vm_compute; reflexivity).
  split; [exact H|].
  exact (specIntegrityPass_idempotent linkedSpec sampleCtx sampleRegistry None
           linkedResult H).
Defined.
